(** * RobotMazePathFinder: wall-follower control loop

    A shallow embedding of the sensing-to-actuation core of the firmware:

    - [Analog_Distance_Sensor_Calibrate]  (Analog_Distance_Sensors.c)
    - [Controller_3]                      (Maze_Program/main.c)
    - [isqrt], [LPF_Init], [LPF_Calc] and the two sibling channels (LPF.c)

    Machine integers are integers of [Z] with the wrap-around written out.
    Unsigned arithmetic wraps by the C standard; signed arithmetic is taken
    to wrap as well (two's complement, as the Cortex-M4 target computes it).
    Array accesses outside the declared bounds and divisions by zero have no
    defined result in C: the functions that can reach one return [option]. *)

From stdpp Require Import base numbers option list.

Local Open Scope Z_scope.

(** ** Machine integers *)

Module MachineInt.

(** [uint32_t], [uint16_t]: reduction modulo the word size. *)
Definition uint32 (z : Z) : Z := z mod 2 ^ 32.
Definition uint16 (z : Z) : Z := z mod 2 ^ 16.

(** [int32_t] / [int]: two's complement wrap-around into [-2^31, 2^31). *)
Definition int32 (z : Z) : Z := (z + 2 ^ 31) mod 2 ^ 32 - 2 ^ 31.

Definition INT32_MIN : Z := - 2 ^ 31.
Definition INT32_MAX : Z := 2 ^ 31 - 1.

Definition is_int32 (z : Z) : Prop := INT32_MIN <= z <= INT32_MAX.

End MachineInt.

Import MachineInt.

(** ** Distance calibration (Analog_Distance_Sensors.c / .h) *)

Module Calibration.

Definition Ax : Z := 1195159.
Definition Bx : Z := -1058.
Definition Cx : Z := 40.
Definition ANALOG_DISTANCE_SENSOR_MAX : Z := 2552.

(** [int32_t Analog_Distance_Sensor_Calibrate(int filtered_distance)].
    All operands are [int]; [/] truncates toward zero ([Z.quot]). *)
Definition Analog_Distance_Sensor_Calibrate (filtered_distance : Z) : Z :=
  if filtered_distance <? ANALOG_DISTANCE_SENSOR_MAX then 800
  else int32 (int32 (Z.quot Ax (int32 (filtered_distance + Bx))) + Cx).

End Calibration.

(** ** The proportional controller (Maze_Program/main.c) *)

Module Controller.

Definition DESIRED_DISTANCE : Z := 250.
Definition PWM_NOMINAL : Z := 2500.
Definition PWM_SWING : Z := 1000.
Definition PWM_MIN : Z := PWM_NOMINAL - PWM_SWING.
Definition PWM_MAX : Z := PWM_NOMINAL + PWM_SWING.

(** The globals of main.c read or written by the controller.  The three
    distances, [Error], [Kp] and [Set_Point] are [int32_t]; the two duty
    cycles are [uint16_t]. *)
Record Robot : Type := mkRobot {
  Converted_Distance_Left : Z;
  Converted_Distance_Center : Z;
  Converted_Distance_Right : Z;
  Error : Z;
  Kp : Z;
  Set_Point : Z;
  Duty_Cycle_Left : Z;
  Duty_Cycle_Right : Z
}.

(** A call of the motor driver (Motor.h). *)
Inductive MotorCall : Type :=
| Motor_Forward (left_duty_cycle right_duty_cycle : Z)
| Motor_Backward (left_duty_cycle right_duty_cycle : Z)
| Motor_Stop.

(** The duty-cycle pairs handed to the driver by a call. *)
Definition duties (c : MotorCall) : list (Z * Z) :=
  match c with
  | Motor_Forward l r | Motor_Backward l r => [(l, r)]
  | Motor_Stop => []
  end.

(** [void Controller_3()], with [DEBUG_ACTIVE] undefined as in main.c:
    the new globals and the one driver call of the tick. *)
Definition Controller_3 (st : Robot) : Robot * MotorCall :=
  let Left := Converted_Distance_Left st in
  let Center := Converted_Distance_Center st in
  let Right := Converted_Distance_Right st in
  let set_point :=
    if (Left >? DESIRED_DISTANCE) && (Right >? DESIRED_DISTANCE)
    then int32 (Z.quot (int32 (Left + Right)) 2)
    else DESIRED_DISTANCE in
  let error :=
    if Left <? Right then int32 (Left - set_point)
    else int32 (set_point - Right) in
  let right0 := uint16 (int32 (PWM_NOMINAL - int32 (Kp st * error))) in
  let left0 := uint16 (int32 (PWM_NOMINAL + int32 (Kp st * error))) in
  let right1 := if right0 <? PWM_MIN then PWM_MIN else right0 in
  let right2 := if right1 >? PWM_MAX then PWM_MAX else right1 in
  let left1 := if left0 <? PWM_MIN then PWM_MIN else left0 in
  let left2 := if left1 >? PWM_MAX then PWM_MAX else left1 in
  let call :=
    if (Center >=? DESIRED_DISTANCE) && (Center <? 800)
    then Motor_Forward left2 right2
    else if Center <? DESIRED_DISTANCE - 50
    then Motor_Backward left2 right2
    else Motor_Stop in
  ({| Converted_Distance_Left := Left;
      Converted_Distance_Center := Center;
      Converted_Distance_Right := Right;
      Error := error;
      Kp := Kp st;
      Set_Point := set_point;
      Duty_Cycle_Left := left2;
      Duty_Cycle_Right := right2 |}, call).

(** The globals after a tick, and the driver call of the tick. *)
Definition tick (st : Robot) : Robot := fst (Controller_3 st).
Definition command (st : Robot) : MotorCall := snd (Controller_3 st).

(** A state with the given distances and gain; the other globals as
    [main] leaves them before the first tick. *)
Definition robot (left center right kp : Z) : Robot :=
  mkRobot left center right 0 kp 250 PWM_NOMINAL PWM_NOMINAL.

Definition in_pwm_range (d : Z) : Prop := PWM_MIN <= d <= PWM_MAX.

End Controller.

(** ** The low-pass filters and the square root (LPF.c) *)

Module LPF.

(** Division of two [uint32_t]; no result on a zero divisor. *)
Definition udiv (a b : Z) : option Z :=
  if b =? 0 then None else Some (a `div` b).

(** One turn of the loop of [isqrt]: [t = ((t*t+s)/t)/2]. *)
Definition isqrt_step (s t : Z) : option Z :=
  q ← udiv (uint32 (uint32 (t * t) + s)) t;
  Some (q `div` 2).

Fixpoint isqrt_loop (n : nat) (s t : Z) : option Z :=
  match n with
  | O => Some t
  | S n' => t' ← isqrt_step s t; isqrt_loop n' s t'
  end.

(** [uint32_t isqrt(uint32_t s)]: initial guess [s/10+1], then the loop
    [for(n = 16; n; --n)]. *)
Definition isqrt (s : Z) : option Z :=
  isqrt_loop 16 s (uint32 (s `div` 10 + 1)).

(** Whether [isqrt] returns, and returns the integer square root or one
    more. *)
Definition isqrt_within_one (s : Z) : bool :=
  match isqrt s with
  | Some r => (Z.sqrt s <=? r) && (r <=? Z.sqrt s + 1)
  | None => false
  end.

(** The globals of the three filters.  [Size] is one variable, used by
    all three.  The first filter keeps an index [I1] into [x]; the second
    and third keep a pointer into their array, held here as the offset
    from its first element ([None]: the pointer has not been set). *)
Record Filters : Type := mkFilters {
  Size : Z;
  x : list Z;
  I1 : Z;
  LPFSum : Z;
  x2 : list Z;
  Pt2 : option Z;
  LPFSum2 : Z;
  x3 : list Z;
  Pt3 : option Z;
  LPFSum3 : Z
}.

(** Declared length of [x], [x2] and [x3]. *)
Definition ARRAY_LEN : Z := 1024.

(** [a[i]] for an array of the declared length: no value outside it. *)
Definition read (a : list Z) (i : Z) : option Z :=
  if (0 <=? i) && (i <? ARRAY_LEN) then a !! Z.to_nat i else None.

(** The globals at reset: zero-initialised storage. *)
Definition at_reset : Filters :=
  mkFilters 0 (replicate 1024 0) 0 0
            (replicate 1024 0) None 0
            (replicate 1024 0) None 0.

(** [for(i = i0; i < i0 + count; i++) a[i] = initial;] *)
Fixpoint fill (a : list Z) (i count : nat) (initial : Z) : list Z :=
  match count with
  | O => a
  | S k => fill (<[i := initial]> a) (S i) k initial
  end.

(** [void LPF_Init(uint32_t initial, uint32_t size)] *)
Definition LPF_Init (st : Filters) (initial size : Z) : Filters :=
  let size := if size >? 1024 then 1024 else size in
  mkFilters size
            (fill (x st) 0 (Z.to_nat size) initial)
            (uint32 (size - 1))
            (uint32 (size * initial))
            (x2 st) (Pt2 st) (LPFSum2 st)
            (x3 st) (Pt3 st) (LPFSum3 st).

(** [uint32_t LPF_Calc(uint32_t newdata)]: the output and the new
    globals.  No result when [x[I1]] lies outside the array or [Size]
    is zero. *)
Definition LPF_Calc (st : Filters) (newdata : Z) : option (Z * Filters) :=
  let i := if I1 st =? 0 then uint32 (Size st - 1) else I1 st - 1 in
  oldest ← read (x st) i;
  let sum := uint32 (uint32 (LPFSum st + newdata) - oldest) in
  y ← udiv sum (Size st);
  Some (y, mkFilters (Size st)
                     (<[Z.to_nat i := newdata]> (x st)) i sum
                     (x2 st) (Pt2 st) (LPFSum2 st)
                     (x3 st) (Pt3 st) (LPFSum3 st)).

(** [void LPF_Init2(uint32_t initial, uint32_t size)] *)
Definition LPF_Init2 (st : Filters) (initial size : Z) : Filters :=
  let size := if size >? 512 then 512 else size in
  mkFilters size
            (x st) (I1 st) (LPFSum st)
            (fill (x2 st) 0 (Z.to_nat (uint32 (2 * size))) initial)
            (Some 0)
            (uint32 (size * initial))
            (x3 st) (Pt3 st) (LPFSum3 st).

(** The body shared, up to the names of the globals, by [LPF_Calc2] and
    [LPF_Calc3]: step the pointer back (wrapping to [Size-1]), update
    the sum, store the new sample at the pointer and [Size] places
    further, divide.  Both stores must fall inside the array: the cell at
    the pointer has just been read, the one [Size] places further is
    looked up for that.  Result: output, array, pointer, sum. *)
Definition two_copies_calc (size : Z) (a : list Z) (pt : option Z)
    (sum newdata : Z) : option (Z * (list Z * option Z * Z)) :=
  p0 ← pt;
  let p := if p0 =? 0 then uint32 (size - 1) else p0 - 1 in
  oldest ← read a p;
  let sum' := uint32 (uint32 (sum + newdata) - oldest) in
  _ ← read a (p + size);
  let a' := <[Z.to_nat p := newdata]> (<[Z.to_nat (p + size) := newdata]> a) in
  y ← udiv sum' size;
  Some (y, (a', Some p, sum')).

(** [uint32_t LPF_Calc2(uint32_t newdata)] *)
Definition LPF_Calc2 (st : Filters) (newdata : Z) : option (Z * Filters) :=
  '(y, (a, pt, sum)) ←
    two_copies_calc (Size st) (x2 st) (Pt2 st) (LPFSum2 st) newdata;
  Some (y, mkFilters (Size st)
                     (x st) (I1 st) (LPFSum st)
                     a pt sum
                     (x3 st) (Pt3 st) (LPFSum3 st)).

(** [void LPF_Init3(uint32_t initial, uint32_t size)] *)
Definition LPF_Init3 (st : Filters) (initial size : Z) : Filters :=
  let size := if size >? 512 then 512 else size in
  mkFilters size
            (x st) (I1 st) (LPFSum st)
            (x2 st) (Pt2 st) (LPFSum2 st)
            (fill (x3 st) 0 (Z.to_nat (uint32 (2 * size))) initial)
            (Some 0)
            (uint32 (size * initial)).

(** [uint32_t LPF_Calc3(uint32_t newdata)] *)
Definition LPF_Calc3 (st : Filters) (newdata : Z) : option (Z * Filters) :=
  '(y, (a, pt, sum)) ←
    two_copies_calc (Size st) (x3 st) (Pt3 st) (LPFSum3 st) newdata;
  Some (y, mkFilters (Size st)
                     (x st) (I1 st) (LPFSum st)
                     (x2 st) (Pt2 st) (LPFSum2 st)
                     a pt sum).

(** Consecutive calls of [LPF_Calc] on a list of samples: the outputs in
    order and the final globals. *)
Fixpoint LPF_Calc_run (st : Filters) (samples : list Z)
    : option (list Z * Filters) :=
  match samples with
  | [] => Some ([], st)
  | v :: rest =>
      '(y, st1) ← LPF_Calc st v;
      '(ys, st2) ← LPF_Calc_run st1 rest;
      Some (y :: ys, st2)
  end.

(** *** Calls on any of the three channels *)

Inductive Channel : Type := Ch1 | Ch2 | Ch3.

Inductive Call : Type :=
| Init (c : Channel) (initial size : Z)
| Calc (c : Channel) (newdata : Z).

Definition channel_of (k : Call) : Channel :=
  match k with Init c _ _ | Calc c _ => c end.

(** One call: the output, if the call has one, and the new globals. *)
Definition exec (st : Filters) (k : Call) : option (option Z * Filters) :=
  match k with
  | Init Ch1 initial size => Some (None, LPF_Init st initial size)
  | Init Ch2 initial size => Some (None, LPF_Init2 st initial size)
  | Init Ch3 initial size => Some (None, LPF_Init3 st initial size)
  | Calc Ch1 v => '(y, st') ← LPF_Calc st v; Some (Some y, st')
  | Calc Ch2 v => '(y, st') ← LPF_Calc2 st v; Some (Some y, st')
  | Calc Ch3 v => '(y, st') ← LPF_Calc3 st v; Some (Some y, st')
  end.

(** A sequence of calls: the outputs, each with its channel, and the
    final globals. *)
Fixpoint exec_all (st : Filters) (ks : list Call)
    : option (list (Channel * Z) * Filters) :=
  match ks with
  | [] => Some ([], st)
  | k :: rest =>
      '(o, st1) ← exec st k;
      '(os, st2) ← exec_all st1 rest;
      Some (match o with
            | Some y => (channel_of k, y) :: os
            | None => os
            end, st2)
  end.

(** What a channel owns: its array, its index or pointer, its sum. *)
Definition own (c : Channel) (st : Filters) : list Z * option Z * Z :=
  match c with
  | Ch1 => (x st, Some (I1 st), LPFSum st)
  | Ch2 => (x2 st, Pt2 st, LPFSum2 st)
  | Ch3 => (x3 st, Pt3 st, LPFSum3 st)
  end.

Definition array (c : Channel) (st : Filters) : list Z := fst (fst (own c st)).
Definition position (c : Channel) (st : Filters) : option Z :=
  snd (fst (own c st)).
Definition total (c : Channel) (st : Filters) : Z := snd (own c st).

(** The initialisation and the update of a channel. *)
Definition init (c : Channel) (st : Filters) (initial size : Z) : Filters :=
  match c with
  | Ch1 => LPF_Init st initial size
  | Ch2 => LPF_Init2 st initial size
  | Ch3 => LPF_Init3 st initial size
  end.

Definition calc (c : Channel) (st : Filters) (newdata : Z)
    : option (Z * Filters) :=
  match c with
  | Ch1 => LPF_Calc st newdata
  | Ch2 => LPF_Calc2 st newdata
  | Ch3 => LPF_Calc3 st newdata
  end.

(** The largest depth the initialisation of a channel lets through. *)
Definition cap (c : Channel) : Z :=
  match c with Ch1 => 1024 | Ch2 | Ch3 => 512 end.

(** The depth an [Init] call stores in [Size]. *)
Definition depth_set (k : Call) : option Z :=
  match k with
  | Init Ch1 _ size => Some (if size >? 1024 then 1024 else size)
  | Init _ _ size => Some (if size >? 512 then 512 else size)
  | Calc _ _ => None
  end.

#[global] Instance Channel_eq_dec : EqDecision Channel.
Proof. solve_decision. Defined.

(** The calls of a sequence made on channel [c], and the outputs of a
    run that are outputs of channel [c]. *)
Definition calls_on (c : Channel) (ks : list Call) : list Call :=
  filter (fun k => channel_of k = c) ks.

Definition outputs_of (c : Channel) (os : list (Channel * Z))
    : list (Channel * Z) :=
  filter (fun o => fst o = c) os.

(** No [Init] on a channel other than [c] changes the depth: along the
    sequence, started with [Size = size], each such call stores the depth
    that [Size] already holds. *)
Fixpoint depth_kept (c : Channel) (size : Z) (ks : list Call) : Prop :=
  match ks with
  | [] => True
  | k :: rest =>
      match depth_set k with
      | Some d => (channel_of k = c \/ d = size) /\ depth_kept c d rest
      | None => depth_kept c size rest
      end
  end.

(** *** The averaging window *)

Definition sumZ (l : list Z) : Z := foldr Z.add 0 l.

Definition list_min (l : list Z) : Z := foldr Z.min (hd 0 l) l.
Definition list_max (l : list Z) : Z := foldr Z.max (hd 0 l) l.

(** The [Size] samples a channel averages: the first [Size] cells of
    its array. *)
Definition window (c : Channel) (st : Filters) : list Z :=
  take (Z.to_nat (Size st)) (array c st).

(** The state of a channel in service: array of the declared length,
    depth within the cap, index inside the window, and the sum equal to
    the sum of the window up to the 32-bit wrap-around. *)
Record in_service (c : Channel) (st : Filters) : Prop := {
  service_length : length (array c st) = 1024%nat;
  service_depth : 1 <= Size st <= cap c;
  service_position : exists p, position c st = Some p /\ 0 <= p < Size st;
  service_sum : total c st = uint32 (sumZ (window c st))
}.

(** *** The response to a constant input *)

(** After [k] updates of a filter of depth [n] primed with 0, the cells the
    index has not reached yet: those below [n - 1 - k], and the last. *)
Definition unwritten (n k i : Z) : bool :=
  (k <? n) && ((i <? n - 1 - k) || (i =? n - 1)).

(** The first channel after [k] updates with [V] of a window that held 0
    in every cell not yet written ([k] at or above the depth: a window
    that holds [V] everywhere). *)
Record stepped (V k : Z) (st : Filters) : Prop := {
  stepped_service : in_service Ch1 st;
  stepped_index : k < Size st -> I1 st = Size st - 1 - k;
  stepped_sum : sumZ (window Ch1 st) = Z.min k (Size st) * V;
  stepped_cells :
    forall i, 0 <= i < Size st ->
      window Ch1 st !! Z.to_nat i =
      Some (if unwritten (Size st) k i then 0 else V)
}.

(** The outputs of updates number [k+1], ..., [k+m] with [V]. *)
Definition step_response (n V k : Z) (m : nat) : list Z :=
  (fun j : nat => (Z.min (k + 1 + Z.of_nat j) n * V) `div` n) <$> seq 0 m.

End LPF.

(** ** Statements of the specification kept for comparison *)

Module Specified.

Import Controller.

(** The actuation policy as the specification words it: forward when the
    centre distance is strictly greater than the desired distance and below
    800, backward below desired minus 50, stop otherwise. *)
Definition policy_as_specified (center left_duty right_duty : Z) : MotorCall :=
  if (center >? 250) && (center <? 800) then Motor_Forward left_duty right_duty
  else if center <? 250 - 50 then Motor_Backward left_duty right_duty
  else Motor_Stop.

End Specified.

(** ** The rest of LPF.c: streams of samples, noise, median, old filter *)

Module LPFMore.

Import LPF.

(** Consecutive updates of channel [c] on a list of samples: the outputs
    in order and the final globals. *)
Fixpoint calc_run (c : Channel) (st : Filters) (samples : list Z)
    : option (list Z * Filters) :=
  match samples with
  | [] => Some ([], st)
  | v :: rest =>
      '(y, st1) ← calc c st v;
      '(ys, st2) ← calc_run c st1 rest;
      Some (y :: ys, st2)
  end.

(** The [n] latest samples, newest first, of a filter primed with [seed]
    that has since received [past] (newest first): the seed stands for
    the samples from before the initialisation. *)
Definition recent (n : nat) (seed : Z) (past : list Z) : list Z :=
  take n (past ++ replicate n seed).

(** The comment of [LPF_Calc]: y(n) = (x(n)+x(n-1)+...)/Size, with the
    sum in a [uint32_t]. *)
Definition moving_average (n seed : Z) (past : list Z) : Z :=
  uint32 (sumZ (recent (Z.to_nat n) seed past)) `div` n.

(** The moving averages along a stream of samples. *)
Fixpoint averages (n seed : Z) (past samples : list Z) : list Z :=
  match samples with
  | [] => []
  | v :: rest =>
      moving_average n seed (v :: past) :: averages n seed (v :: past) rest
  end.

(** How many updates ago cell [i] was written, when the index stands at
    [p] in a ring of [n] cells. *)
Definition age (n p i : Z) : Z := if p <=? i then i - p else i - p + n.

(** Channel [c] holds the latest samples: cell [i] of the window holds
    the sample of age [age n p i]. *)
Record tracks (c : Channel) (seed : Z) (past : list Z) (st : Filters)
    : Prop := {
  tracks_service : in_service c st;
  tracks_cells :
    forall p i, position c st = Some p -> 0 <= i < Size st ->
      window c st !! Z.to_nat i =
      recent (Z.to_nat (Size st)) seed past
        !! Z.to_nat (age (Size st) p i);
  tracks_sum :
    sumZ (window c st) = sumZ (recent (Z.to_nat (Size st)) seed past)
}.

(** *** Noise *)

(** [for(int i=0;i<Size;i++) sum = sum+x[i];] with [int32_t sum] and
    [uint32_t x[]]: the addition is unsigned, the result converted back. *)
Fixpoint sum_loop (a : list Z) (i : Z) (count : nat) (sum : Z) : option Z :=
  match count with
  | O => Some sum
  | S k =>
      xi ← read a i;
      sum_loop a (i + 1) k (int32 (uint32 (uint32 sum + xi)))
  end.

(** [for(int i=0;i<Size;i++) sum = sum+(x[i]-mean)*(x[i]-mean);] *)
Fixpoint energy_loop (a : list Z) (mean : Z) (i : Z) (count : nat) (sum : Z)
    : option Z :=
  match count with
  | O => Some sum
  | S k =>
      xi ← read a i;
      let d := uint32 (xi - uint32 mean) in
      energy_loop a mean (i + 1) k
                  (int32 (uint32 (uint32 sum + uint32 (d * d))))
  end.

(** The body shared, up to the name of the array, by [Noise], [Noise2]
    and [Noise3]. *)
Definition noise_of (size : Z) (a : list Z) : option Z :=
  if size <? 2 then Some 0
  else
    sum ← sum_loop a 0 (Z.to_nat size) 0;
    q ← udiv (uint32 sum) size;
    let mean := int32 q in
    energy ← energy_loop a mean 0 (Z.to_nat size) 0;
    v ← udiv (uint32 energy) (uint32 (size - 1));
    sigma ← isqrt v;
    Some (int32 sigma).

(** [int32_t Noise(void)], [Noise2], [Noise3] *)
Definition Noise (st : Filters) : option Z := noise_of (Size st) (x st).
Definition Noise2 (st : Filters) : option Z := noise_of (Size st) (x2 st).
Definition Noise3 (st : Filters) : option Z := noise_of (Size st) (x3 st).

Definition noise (c : Channel) (st : Filters) : option Z :=
  match c with Ch1 => Noise st | Ch2 => Noise2 st | Ch3 => Noise3 st end.

(** The mean of a window, the energy around it and the quotient handed
    to [isqrt], as integers. *)
Definition mean_of (w : list Z) : Z := sumZ w `div` Z.of_nat (length w).

Definition energy_of (w : list Z) : Z :=
  sumZ ((fun v => (v - mean_of w) * (v - mean_of w)) <$> w).

Definition variance_of (w : list Z) : Z :=
  energy_of w `div` (Z.of_nat (length w) - 1).

(** *** Median *)

(** [int32_t u1,u2,u3;   // last three points] *)
Record History : Type := mkHistory { u1 : Z; u2 : Z; u3 : Z }.

(** [int32_t Median(int32_t newdata)]: the result and the new history. *)
Definition Median (h : History) (newdata : Z) : Z * History :=
  let u3' := u2 h in
  let u2' := u1 h in
  let u1' := newdata in
  let result :=
    if u1' >? u2' then
      if u2' >? u3' then u2'
      else if u1' >? u3' then u3' else u1'
    else
      if u3' >? u2' then u2'
      else if u1' >? u3' then u1' else u3' in
  (result, mkHistory u1' u2' u3').

(** The middle one of three values. *)
Definition median3 (a b c : Z) : Z := Z.max (Z.min a b) (Z.min (Z.max a b) c).

(** *** The old first filter *)

(** [LPF_Init_old] and [LPF_Calc_old] work on [Size], [x] and [LPFSum]
    of the first filter and on the pointer [Pt], which only they use. *)
Record OldFilter : Type := mkOld { globals : Filters; Pt : option Z }.

(** [void LPF_Init_old(uint32_t initial, uint32_t size)] *)
Definition LPF_Init_old (o : OldFilter) (initial size : Z) : OldFilter :=
  let st := globals o in
  let size := if size >? 512 then 512 else size in
  mkOld (mkFilters size
                   (fill (x st) 0 (Z.to_nat (uint32 (2 * size))) initial)
                   (I1 st)
                   (uint32 (size * initial))
                   (x2 st) (Pt2 st) (LPFSum2 st)
                   (x3 st) (Pt3 st) (LPFSum3 st))
        (Some 0).

(** [uint32_t LPF_Calc_old(uint32_t newdata)]: the text of [LPF_Calc2]
    on [x], [Pt] and [LPFSum]. *)
Definition LPF_Calc_old (o : OldFilter) (newdata : Z)
    : option (Z * OldFilter) :=
  let st := globals o in
  '(y, (a, pt, sum)) ←
    two_copies_calc (Size st) (x st) (Pt o) (LPFSum st) newdata;
  Some (y, mkOld (mkFilters (Size st)
                            a (I1 st) sum
                            (x2 st) (Pt2 st) (LPFSum2 st)
                            (x3 st) (Pt3 st) (LPFSum3 st))
                 pt).

Fixpoint LPF_Calc_old_run (o : OldFilter) (samples : list Z)
    : option (list Z * OldFilter) :=
  match samples with
  | [] => Some ([], o)
  | v :: rest =>
      '(y, o1) ← LPF_Calc_old o v;
      '(ys, o2) ← LPF_Calc_old_run o1 rest;
      Some (y :: ys, o2)
  end.

(** The old filter seen as a second channel: its array, pointer and sum
    in the places of [x2], [Pt2] and [LPFSum2], nothing elsewhere. *)
Definition as_second (o : OldFilter) : Filters :=
  let st := globals o in
  mkFilters (Size st) [] 0 0
            (x st) (Pt o) (LPFSum st)
            [] None 0.

End LPFMore.

(** ** The other controllers, the sampling task and the interrupts
       (Maze_Program/main.c) *)

Module Program.

Import Calibration Controller LPF.

(** [void Controller_1()], with [DEBUG_ACTIVE] undefined: the centre
    distance is not read, and the gain acts with the opposite sign. *)
Definition Controller_1 (st : Robot) : Robot * MotorCall :=
  let Left := Converted_Distance_Left st in
  let Right := Converted_Distance_Right st in
  let set_point :=
    if (Left >? DESIRED_DISTANCE) && (Right >? DESIRED_DISTANCE)
    then int32 (Z.quot (int32 (Left + Right)) 2)
    else DESIRED_DISTANCE in
  let error :=
    if Left <? Right then int32 (Left - set_point)
    else int32 (set_point - Right) in
  let right0 := uint16 (int32 (PWM_NOMINAL + int32 (Kp st * error))) in
  let left0 := uint16 (int32 (PWM_NOMINAL - int32 (Kp st * error))) in
  let right1 := if right0 <? PWM_MIN then PWM_MIN else right0 in
  let right2 := if right1 >? PWM_MAX then PWM_MAX else right1 in
  let left1 := if left0 <? PWM_MIN then PWM_MIN else left0 in
  let left2 := if left1 >? PWM_MAX then PWM_MAX else left1 in
  ({| Converted_Distance_Left := Left;
      Converted_Distance_Center := Converted_Distance_Center st;
      Converted_Distance_Right := Right;
      Error := error;
      Kp := Kp st;
      Set_Point := set_point;
      Duty_Cycle_Left := left2;
      Duty_Cycle_Right := right2 |}, Motor_Forward left2 right2).

(** [void Controller_2()], with [DEBUG_ACTIVE] undefined. *)
Definition Controller_2 (st : Robot) : Robot * MotorCall :=
  let Left := Converted_Distance_Left st in
  let Center := Converted_Distance_Center st in
  let Right := Converted_Distance_Right st in
  let set_point :=
    if (Left >? DESIRED_DISTANCE) && (Right >? DESIRED_DISTANCE)
    then int32 (Z.quot (int32 (Left + Right)) 2)
    else DESIRED_DISTANCE in
  let error :=
    if Left <? Right then int32 (Left - set_point)
    else int32 (set_point - Right) in
  let right0 := uint16 (int32 (PWM_NOMINAL - int32 (Kp st * error))) in
  let left0 := uint16 (int32 (PWM_NOMINAL + int32 (Kp st * error))) in
  let right1 := if right0 <? PWM_MIN then PWM_MIN else right0 in
  let right2 := if right1 >? PWM_MAX then PWM_MAX else right1 in
  let left1 := if left0 <? PWM_MIN then PWM_MIN else left0 in
  let left2 := if left1 >? PWM_MAX then PWM_MAX else left1 in
  let call :=
    if (Center >? DESIRED_DISTANCE) && (Center <? 800)
    then Motor_Forward left2 right2
    else Motor_Stop in
  ({| Converted_Distance_Left := Left;
      Converted_Distance_Center := Center;
      Converted_Distance_Right := Right;
      Error := error;
      Kp := Kp st;
      Set_Point := set_point;
      Duty_Cycle_Left := left2;
      Duty_Cycle_Right := right2 |}, call).

(** One conversion of the three analog channels
    ([Analog_Distance_Sensor_Start_Conversion]): what the ADC14 memory
    registers hold, 0 to 16383 each. *)
Record Readings : Type := mkReadings { Raw_A17 : Z; Raw_A14 : Z; Raw_A16 : Z }.

Definition in_adc_range (raw : Readings) : Prop :=
  0 <= Raw_A17 raw <= 16383 /\ 0 <= Raw_A14 raw <= 16383 /\
  0 <= Raw_A16 raw <= 16383.

(** The globals of the program: those of LPF.c, the three filtered
    distances ([uint32_t]) and those the controller uses. *)
Record Globals : Type := mkGlobals {
  filters : Filters;
  Filtered_Distance_Left : Z;
  Filtered_Distance_Center : Z;
  Filtered_Distance_Right : Z;
  control : Robot
}.

(** [void Sample_Analog_Distance_Sensor()] on the readings of its
    conversion.  The filtered values are [uint32_t] and the parameter of
    the calibration is an [int]. *)
Definition Sample_Analog_Distance_Sensor (raw : Readings) (g : Globals)
    : option Globals :=
  '(y17, f1) ← LPF_Calc (filters g) (Raw_A17 raw);
  '(y14, f2) ← LPF_Calc2 f1 (Raw_A14 raw);
  '(y16, f3) ← LPF_Calc3 f2 (Raw_A16 raw);
  let r := control g in
  Some {| filters := f3;
          Filtered_Distance_Left := y16;
          Filtered_Distance_Center := y14;
          Filtered_Distance_Right := y17;
          control :=
            {| Converted_Distance_Left :=
                 Analog_Distance_Sensor_Calibrate (int32 y16);
               Converted_Distance_Center :=
                 Analog_Distance_Sensor_Calibrate (int32 y14);
               Converted_Distance_Right :=
                 Analog_Distance_Sensor_Calibrate (int32 y17);
               Error := Error r;
               Kp := Kp r;
               Set_Point := Set_Point r;
               Duty_Cycle_Left := Duty_Cycle_Left r;
               Duty_Cycle_Right := Duty_Cycle_Right r |} |}.

(** The globals when [main] enables the interrupts: static storage is
    zero except for [Kp = 4] and [Set_Point = 250], the duty cycles are
    set to [PWM_NOMINAL] and the three filters are primed with the first
    conversion at depth 64. *)
Definition main (raw : Readings) : Globals :=
  {| filters :=
       LPF_Init3
         (LPF_Init2 (LPF_Init at_reset (Raw_A17 raw) 64) (Raw_A14 raw) 64)
         (Raw_A16 raw) 64;
     Filtered_Distance_Left := 0;
     Filtered_Distance_Center := 0;
     Filtered_Distance_Right := 0;
     control := mkRobot 0 0 0 0 4 250 PWM_NOMINAL PWM_NOMINAL |}.

(** The two periodic interrupts: Timer A1 (2 kHz) samples, with the
    readings of its conversion; SysTick (100 Hz) runs [Controller_3]. *)
Inductive Interrupt : Type :=
| Timer_A1_Periodic_Task (raw : Readings)
| SysTick_Handler.

(** One interrupt: the new globals and the driver calls made. *)
Definition serve (g : Globals) (i : Interrupt)
    : option (Globals * list MotorCall) :=
  match i with
  | Timer_A1_Periodic_Task raw =>
      g' ← Sample_Analog_Distance_Sensor raw g; Some (g', [])
  | SysTick_Handler =>
      let '(r, call) := Controller_3 (control g) in
      Some ({| filters := filters g;
               Filtered_Distance_Left := Filtered_Distance_Left g;
               Filtered_Distance_Center := Filtered_Distance_Center g;
               Filtered_Distance_Right := Filtered_Distance_Right g;
               control := r |}, [call])
  end.

(** A sequence of interrupts, served one after the other: the final
    globals and all the driver calls in order. *)
Fixpoint serve_all (g : Globals) (irqs : list Interrupt)
    : option (Globals * list MotorCall) :=
  match irqs with
  | [] => Some (g, [])
  | i :: rest =>
      '(g1, calls1) ← serve g i;
      '(g2, calls2) ← serve_all g1 rest;
      Some (g2, calls1 ++ calls2)
  end.

(** An interrupt whose conversion, if it makes one, is in the range of
    the converter. *)
Definition within_adc (i : Interrupt) : Prop :=
  match i with
  | Timer_A1_Periodic_Task raw => in_adc_range raw
  | SysTick_Handler => True
  end.

(** A channel in service whose window holds converter readings only. *)
Definition fed_by_adc (c : Channel) (st : Filters) : Prop :=
  in_service c st /\ Forall (fun v => 0 <= v <= 16383) (window c st).

(** What holds of the globals between two interrupts. *)
Record steady (g : Globals) : Prop := {
  steady_filters : forall c, fed_by_adc c (filters g);
  steady_filtered :
    0 <= Filtered_Distance_Left g <= 16383 /\
    0 <= Filtered_Distance_Center g <= 16383 /\
    0 <= Filtered_Distance_Right g <= 16383;
  steady_gain : Kp (control g) = 4;
  steady_left : 0 <= Converted_Distance_Left (control g) <= 839;
  steady_center : 0 <= Converted_Distance_Center (control g) <= 839;
  steady_right : 0 <= Converted_Distance_Right (control g) <= 839
}.

(** A driver call with both duty cycles in range and mirrored about
    [PWM_NOMINAL]. *)
Definition balanced (call : MotorCall) : Prop :=
  Forall (fun p => in_pwm_range (fst p) /\ in_pwm_range (snd p) /\
                   fst p + snd p = 2 * PWM_NOMINAL) (duties call).

End Program.

(** ** The motor driver (Motor.c) on the PWM timer (Timer_A0_PWM.c) *)

Module Driver.

(** The port registers are 8 bits wide and those of Timer A0 16 bits,
    as on the MSP432P401R. *)
Definition uint8 (z : Z) : Z := z mod 2 ^ 8.

(** [reg &= ~mask] and [reg |= mask] on an 8-bit register. *)
Definition clear_bits (reg mask : Z) : Z := uint8 (Z.land reg (Z.lnot mask)).
Definition set_bits (reg mask : Z) : Z := uint8 (Z.lor reg mask).

Record Port : Type := mkPort { SEL0 : Z; SEL1 : Z; DIR : Z; OUT : Z }.

Record Timer : Type := mkTimer {
  CTL : Z; CCTL3 : Z; CCTL4 : Z; CCR0 : Z; CCR3 : Z; CCR4 : Z; EX0 : Z
}.

(** The registers the driver touches: ports 2, 3 and 5 and Timer A0. *)
Record Registers : Type := mkRegisters {
  P2 : Port; P3 : Port; P5 : Port; TIMER_A0 : Timer
}.

Definition with_OUT (p : Port) (v : Z) : Port :=
  mkPort (SEL0 p) (SEL1 p) (DIR p) v.

Definition with_CCR3 (t : Timer) (v : Z) : Timer :=
  mkTimer (CTL t) (CCTL3 t) (CCTL4 t) (CCR0 t) v (CCR4 t) (EX0 t).

Definition with_CCR4 (t : Timer) (v : Z) : Timer :=
  mkTimer (CTL t) (CCTL3 t) (CCTL4 t) (CCR0 t) (CCR3 t) v (EX0 t).

(** [void Timer_A0_PWM_Init(uint16_t period_constant,
    uint16_t duty_cycle_1, uint16_t duty_cycle_2)]. *)
Definition Timer_A0_PWM_Init (period_constant duty_cycle_1 duty_cycle_2 : Z)
    (r : Registers) : Registers :=
  if duty_cycle_1 >=? period_constant then r
  else if duty_cycle_2 >=? period_constant then r
  else
    let p2 := P2 r in
    let t := TIMER_A0 r in
    {| P2 := mkPort (set_bits (SEL0 p2) 0xC0) (clear_bits (SEL1 p2) 0xC0)
                    (set_bits (DIR p2) 0xC0) (OUT p2);
       P3 := P3 r;
       P5 := P5 r;
       TIMER_A0 :=
         {| CTL := uint16 (Z.lor (CTL t) 0x02F0);
            CCTL3 := uint16 (Z.lor (CCTL3 t) 0x0040);
            CCTL4 := uint16 (Z.lor (CCTL4 t) 0x0040);
            CCR0 := period_constant;
            CCR3 := duty_cycle_1;
            CCR4 := duty_cycle_2;
            EX0 := 0 |} |}.

(** [void Timer_A0_Update_Duty_Cycle_1(uint16_t duty_cycle_1)]. *)
Definition Timer_A0_Update_Duty_Cycle_1 (duty_cycle_1 : Z) (r : Registers)
    : Registers :=
  if duty_cycle_1 >=? CCR0 (TIMER_A0 r) then r
  else mkRegisters (P2 r) (P3 r) (P5 r) (with_CCR3 (TIMER_A0 r) duty_cycle_1).

(** [void Timer_A0_Update_Duty_Cycle_2(uint16_t duty_cycle_2)]. *)
Definition Timer_A0_Update_Duty_Cycle_2 (duty_cycle_2 : Z) (r : Registers)
    : Registers :=
  if duty_cycle_2 >=? CCR0 (TIMER_A0 r) then r
  else mkRegisters (P2 r) (P3 r) (P5 r) (with_CCR4 (TIMER_A0 r) duty_cycle_2).

Definition on_P3_OUT (f : Z -> Z) (r : Registers) : Registers :=
  mkRegisters (P2 r) (with_OUT (P3 r) (f (OUT (P3 r)))) (P5 r) (TIMER_A0 r).

Definition on_P5_OUT (f : Z -> Z) (r : Registers) : Registers :=
  mkRegisters (P2 r) (P3 r) (with_OUT (P5 r) (f (OUT (P5 r)))) (TIMER_A0 r).

(** [void Motor_Init()].  [TIMER_A0_PERIOD_CONSTANT] comes from
    Timer_A0_PWM.h; the comments give it as 15000, and it is an argument
    here. *)
Definition Motor_Init (TIMER_A0_PERIOD_CONSTANT : Z) (r : Registers)
    : Registers :=
  let p5 := P5 r in
  let p3 := P3 r in
  Timer_A0_PWM_Init TIMER_A0_PERIOD_CONSTANT 0 0
    {| P2 := P2 r;
       P3 := mkPort (clear_bits (SEL0 p3) 0xC0) (clear_bits (SEL1 p3) 0xC0)
                    (set_bits (DIR p3) 0xC0) (clear_bits (OUT p3) 0xC0);
       P5 := mkPort (clear_bits (SEL0 p5) 0x30) (clear_bits (SEL1 p5) 0x30)
                    (set_bits (DIR p5) 0x30) (clear_bits (OUT p5) 0x30);
       TIMER_A0 := TIMER_A0 r |}.

(** [void Motor_Forward(uint16_t left_duty_cycle,
    uint16_t right_duty_cycle)]. *)
Definition Motor_Forward (left_duty_cycle right_duty_cycle : Z)
    (r : Registers) : Registers :=
  let r := on_P5_OUT (fun v => clear_bits v 0x30) r in
  let r := Timer_A0_Update_Duty_Cycle_1 right_duty_cycle r in
  let r := Timer_A0_Update_Duty_Cycle_2 left_duty_cycle r in
  on_P3_OUT (fun v => set_bits v 0xC0) r.

Definition Motor_Backward (left_duty_cycle right_duty_cycle : Z)
    (r : Registers) : Registers :=
  let r := on_P5_OUT (fun v => set_bits v 0x30) r in
  let r := Timer_A0_Update_Duty_Cycle_1 right_duty_cycle r in
  let r := Timer_A0_Update_Duty_Cycle_2 left_duty_cycle r in
  on_P3_OUT (fun v => set_bits v 0xC0) r.

Definition Motor_Left (left_duty_cycle right_duty_cycle : Z)
    (r : Registers) : Registers :=
  let r := on_P5_OUT (fun v => set_bits v 0x10) r in
  let r := on_P5_OUT (fun v => clear_bits v 0x20) r in
  let r := Timer_A0_Update_Duty_Cycle_1 right_duty_cycle r in
  let r := Timer_A0_Update_Duty_Cycle_2 left_duty_cycle r in
  on_P3_OUT (fun v => set_bits v 0xC0) r.

Definition Motor_Right (left_duty_cycle right_duty_cycle : Z)
    (r : Registers) : Registers :=
  let r := on_P5_OUT (fun v => clear_bits v 0x10) r in
  let r := on_P5_OUT (fun v => set_bits v 0x20) r in
  let r := Timer_A0_Update_Duty_Cycle_1 right_duty_cycle r in
  let r := Timer_A0_Update_Duty_Cycle_2 left_duty_cycle r in
  on_P3_OUT (fun v => set_bits v 0xC0) r.

Definition Motor_Stop (r : Registers) : Registers :=
  let r := on_P3_OUT (fun v => clear_bits v 0xC0) r in
  let r := on_P5_OUT (fun v => clear_bits v 0x30) r in
  let r := Timer_A0_Update_Duty_Cycle_1 0 r in
  Timer_A0_Update_Duty_Cycle_2 0 r.

(** The five motions of the driver, as calls. *)
Inductive Motion : Type :=
| Forward (left_duty_cycle right_duty_cycle : Z)
| Backward (left_duty_cycle right_duty_cycle : Z)
| Turn_Left (left_duty_cycle right_duty_cycle : Z)
| Turn_Right (left_duty_cycle right_duty_cycle : Z)
| Stop.

Definition move (m : Motion) (r : Registers) : Registers :=
  match m with
  | Forward l d => Motor_Forward l d r
  | Backward l d => Motor_Backward l d r
  | Turn_Left l d => Motor_Left l d r
  | Turn_Right l d => Motor_Right l d r
  | Stop => Motor_Stop r
  end.

(** The duty cycles a motion asks for: left, right. *)
Definition requested (m : Motion) : Z * Z :=
  match m with
  | Forward l d | Backward l d | Turn_Left l d | Turn_Right l d => (l, d)
  | Stop => (0, 0)
  end.

(** Bits 4 and 5 of P5 OUT (direction of the left and of the right
    motor) and bits 6 and 7 of P3 OUT (enable) after a motion. *)
Definition direction_bits (m : Motion) : Z :=
  match m with
  | Forward _ _ | Stop => 0x00
  | Backward _ _ => 0x30
  | Turn_Left _ _ => 0x10
  | Turn_Right _ _ => 0x20
  end.

Definition enable_bits (m : Motion) : Z :=
  match m with Stop => 0x00 | _ => 0xC0 end.

(** Both compare registers below the period register. *)
Definition duty_below_period (r : Registers) : Prop :=
  0 <= CCR3 (TIMER_A0 r) < CCR0 (TIMER_A0 r) /\
  0 <= CCR4 (TIMER_A0 r) < CCR0 (TIMER_A0 r).

(** The calls of the controller as motions of the driver. *)
Definition motion_of (c : Controller.MotorCall) : Motion :=
  match c with
  | Controller.Motor_Forward l d => Forward l d
  | Controller.Motor_Backward l d => Backward l d
  | Controller.Motor_Stop => Stop
  end.

End Driver.

(** ** The right-wall follower (Maze/main.c) *)

Module Maze.

Definition DESIRED_DISTANCE : Z := 200.

(** What a function of Maze/main.c does to the motors, in order: motions
    of the driver and busy waits ([Clock_Delay1ms]). *)
Inductive Action : Type :=
| Move (m : Driver.Motion)
| Clock_Delay1ms (delay : Z).

(** [void Handle_Red()], without its output on the UART and the LCD. *)
Definition Handle_Red : list Action := [Move Driver.Stop; Clock_Delay1ms 5000].

(** [void Turn_Right()]. *)
Definition Turn_Right : list Action :=
  [Move (Driver.Forward 3500 3500); Clock_Delay1ms 200; Move Driver.Stop].

(** [void Turn_Left()]. *)
Definition Turn_Left : list Action :=
  [Move (Driver.Turn_Left 3500 3500); Clock_Delay1ms 700; Move Driver.Stop].

(** [void Controller_1()], with [DEBUG_ACTIVE] undefined, on the two
    globals it reads. *)
Definition Controller_1
    (Converted_Distance_Center Converted_Distance_Right : Z) : list Action :=
  if (Converted_Distance_Center >? DESIRED_DISTANCE)
     && (Converted_Distance_Right <? DESIRED_DISTANCE)
  then [Move (Driver.Forward 3500 3500)]
  else if Converted_Distance_Right >? DESIRED_DISTANCE
  then [Move (Driver.Turn_Right 2000 2000)]
  else if (Converted_Distance_Center <=? DESIRED_DISTANCE)
          && (Converted_Distance_Right <? DESIRED_DISTANCE)
  then Turn_Left
  else [Move Driver.Stop].

(** The registers after a sequence of actions, and the time spent in
    busy waits. *)
Definition act (r : Driver.Registers) (a : Action) : Driver.Registers :=
  match a with Move m => Driver.move m r | Clock_Delay1ms _ => r end.

Definition busy_ms (actions : list Action) : Z :=
  foldr (fun a t => match a with Clock_Delay1ms d => d + t | Move _ => t end)
        0 actions.

(** The test of the main loop on the three normalised colours
    ([uint16_t]), which calls [Handle_Red]. *)
Definition sees_red (red green blue : Z) : bool :=
  let redvalue := red `div` 256 in
  let greenvalue := green `div` 256 in
  let bluevalue := blue `div` 256 in
  (redvalue >=? 180) && (greenvalue <=? 80) && (bluevalue >=? 80).

End Maze.

(** ** Arrays *)

Module Memory.

(** [a[i]] and [a[i] = v] on an array given by its cells: no result
    outside the array. *)
Definition load (a : list Z) (i : Z) : option Z :=
  if (0 <=? i) && (i <? Z.of_nat (length a)) then a !! Z.to_nat i else None.

Definition store (a : list Z) (i v : Z) : option (list Z) :=
  if (0 <=? i) && (i <? Z.of_nat (length a))
  then Some (<[Z.to_nat i := v]> a) else None.

End Memory.

(** ** The time-of-flight sensor (OPT3101.c) *)

Module OPT3101.

(** The value [OPT3101_ReadRegister] returns for the three bytes it has
    received. *)
Definition OPT3101_ReadRegister (b0 b1 b2 : Z) : Z :=
  uint32 (uint32 (b0 + uint32 (Z.shiftl b1 8)) + uint32 (Z.shiftl b2 16)).

(** The four bytes [OPT3101_WriteRegister] sends ([uint8_t buffer[]]). *)
Definition OPT3101_WriteRegister (address data : Z) : list Z :=
  [address;
   Driver.uint8 (Z.land data 0xFF);
   Driver.uint8 (Z.land (Z.shiftr data 8) 0xFF);
   Driver.uint8 (Z.land (Z.shiftr data 16) 0xFF)].

(** The new value of register 0x2a in [OPT3101_StartMeasurementChannel],
    for [ch <= 2]. *)
Definition select_channel (reg2a ch : Z) : Z :=
  let reg2a := uint32 (Z.lor reg2a 0x8000) in
  let reg2a := uint32 (Z.land reg2a (Z.lnot 0x07)) in
  uint32 (Z.lor reg2a (uint32 (Z.shiftl ch 1))).

(** The statics [reg08], [reg09] and [ChannelCount], and the interrupt
    flags of port 6. *)
Record Sensor : Type := mkSensor {
  reg08 : Z; reg09 : Z; ChannelCount : list Z; P6_IFG : Z
}.

Definition OPT3101_MeasurementError (s : Sensor) : bool :=
  if Z.land (Z.shiftr (reg08 s) 20) 0x0001 =? 0 then true
  else if negb (Z.land (Z.shiftr (reg09 s) 18) 3 =? 0) then true
  else false.

Definition OPT3101_GetTxChannel (s : Sensor) : Z :=
  Z.land (Z.shiftr (reg08 s) 18) 0x0003.

Definition OPT3101_GetAmplitude (s : Sensor) : Z := Z.land (reg09 s) 0xFFFF.

Definition OPT3101_GetPhase (s : Sensor) : Z := Z.land (reg08 s) 0xFFFF.

Definition BinFixMM_PER_PHASE_COUNT : Z := 14990.
Definition BinFix : Z := 16.

Definition OPT3101_GetDistanceMillimeters (s : Sensor) : Z :=
  Z.shiftr (uint32 (OPT3101_GetPhase s * BinFixMM_PER_PHASE_COUNT)) BinFix.

(** [OPT3101_GetMeasurement(distances, amplitudes)], on the values of
    registers 0x08 and 0x09 that [OPT3101_ReadMeasurement] reads: the
    channel returned, the two arrays and the statics. *)
Definition OPT3101_GetMeasurement
    (read08 read09 : Z) (distances amplitudes : list Z) (s : Sensor)
    : option (Z * list Z * list Z * Sensor) :=
  let s := mkSensor read08 read09 (ChannelCount s) (P6_IFG s) in
  let distance := OPT3101_GetDistanceMillimeters s in
  let amplitude := OPT3101_GetAmplitude s in
  let channel := OPT3101_GetTxChannel s in
  let distance :=
    if OPT3101_MeasurementError s then 65535
    else if amplitude <? 150 then 65534
    else if distance >? 10000 then 65533
    else distance in
  let ifg := Driver.clear_bits (P6_IFG s) (Z.shiftl 1 2) in
  if channel <=? 2 then
    count ← Memory.load (ChannelCount s) channel;
    counts ← Memory.store (ChannelCount s) channel (uint32 (count + 1));
    distances ← Memory.store distances channel distance;
    amplitudes ← Memory.store amplitudes channel amplitude;
    Some (channel, distances, amplitudes,
          mkSensor read08 read09 counts ifg)
  else
    Some (channel, distances, amplitudes,
          mkSensor read08 read09 (ChannelCount s) ifg).

(** The values stored in place of a distance. *)
Definition is_sentinel (d : Z) : Prop := d = 65533 \/ d = 65534 \/ d = 65535.

End OPT3101.

(** ** The colour sensor (PMOD_Color.c) in the main loop of Maze/main.c *)

Module PMOD.

(** [PMOD_Color_Data]: four [uint16_t]. *)
Record PMOD_Color_Data : Type := mkData {
  red : Z; green : Z; blue : Z; clear : Z
}.

(** [PMOD_Calibration_Data]. *)
Record PMOD_Calibration_Data : Type := mkCalibration {
  min : PMOD_Color_Data; max : PMOD_Color_Data
}.

(** [PMOD_Color_Get_RGBC] on the eight bytes it has received. *)
Definition PMOD_Color_Get_RGBC (color_buffer : list Z)
    : option PMOD_Color_Data :=
  b0 ← color_buffer !! 0%nat; b1 ← color_buffer !! 1%nat;
  b2 ← color_buffer !! 2%nat; b3 ← color_buffer !! 3%nat;
  b4 ← color_buffer !! 4%nat; b5 ← color_buffer !! 5%nat;
  b6 ← color_buffer !! 6%nat; b7 ← color_buffer !! 7%nat;
  Some {| clear := uint16 (Z.lor (Z.shiftl b1 8) b0);
          red := uint16 (Z.lor (Z.shiftl b3 8) b2);
          green := uint16 (Z.lor (Z.shiftl b5 8) b4);
          blue := uint16 (Z.lor (Z.shiftl b7 8) b6) |}.

Definition PMOD_Color_Init_Calibration_Data (first_sample : PMOD_Color_Data)
    : PMOD_Calibration_Data :=
  {| min := first_sample; max := first_sample |}.

(** [void PMOD_Color_Calibrate(new_sample, calibration_data)]: the
    calibration data it leaves. *)
Definition PMOD_Color_Calibrate
    (new_sample : PMOD_Color_Data) (calibration_data : PMOD_Calibration_Data)
    : PMOD_Calibration_Data :=
  let lo := min calibration_data in
  let hi := max calibration_data in
  {| min :=
       {| clear := if clear new_sample <? clear lo
                   then clear new_sample else clear lo;
          red := if red new_sample <? red lo then red new_sample else red lo;
          green := if green new_sample <? green lo
                   then green new_sample else green lo;
          blue := if blue new_sample <? blue lo
                  then blue new_sample else blue lo |};
     max :=
       {| clear := if clear new_sample >? clear hi
                   then clear new_sample else clear hi;
          red := if red new_sample >? red hi then red new_sample else red hi;
          green := if green new_sample >? green hi
                   then green new_sample else green hi;
          blue := if blue new_sample >? blue hi
                  then blue new_sample else blue hi |} |}.

(** One field of [PMOD_Color_Normalize_Calibration]: the operands are
    promoted to [int], [/] truncates, and the result is stored in a
    [uint16_t]. *)
Definition normalize (sample lo hi : Z) : option Z :=
  if int32 (hi - lo) =? 0 then None
  else Some (uint16 (int32 (int32 (sample - lo)
                            * Z.quot 0xFFFF (int32 (hi - lo))))).

Definition PMOD_Color_Normalize_Calibration
    (sample : PMOD_Color_Data) (calibration_data : PMOD_Calibration_Data)
    : option PMOD_Color_Data :=
  let lo := min calibration_data in
  let hi := max calibration_data in
  c ← normalize (clear sample) (clear lo) (clear hi);
  r ← normalize (red sample) (red lo) (red hi);
  g ← normalize (green sample) (green lo) (green hi);
  b ← normalize (blue sample) (blue lo) (blue hi);
  Some {| clear := c; red := r; green := g; blue := b |}.

(** The colour part of one pass of the main loop: the calibration data,
    the normalised sample, and whether [Handle_Red] is called. *)
Definition main_loop_colour
    (sample : PMOD_Color_Data) (calibration_data : PMOD_Calibration_Data)
    : option (PMOD_Calibration_Data * PMOD_Color_Data * bool) :=
  let calibration_data := PMOD_Color_Calibrate sample calibration_data in
  normalized ← PMOD_Color_Normalize_Calibration sample calibration_data;
  Some (calibration_data, normalized,
        Maze.sees_red (red normalized) (green normalized) (blue normalized)).

(** The fields by name. *)
Inductive Colour : Type := Clear | Red | Green | Blue.

Definition field (k : Colour) (d : PMOD_Color_Data) : Z :=
  match k with
  | Clear => clear d | Red => red d | Green => green d | Blue => blue d
  end.

(** Calibration data whose minima are at most its maxima, all within
    16 bits. *)
Definition ordered (c : PMOD_Calibration_Data) : Prop :=
  forall k, 0 <= field k (min c) <= field k (max c) /\
            field k (max c) < 2 ^ 16.

Definition is_sample (d : PMOD_Color_Data) : Prop :=
  forall k, 0 <= field k d < 2 ^ 16.

End PMOD.

(** ** The tachometers (Tachometer.c) *)

Module Tachometer.

Inductive Tachometer_Direction : Type := FORWARD | STOPPED | REVERSE.

(** The statics of Tachometer.c: times are [uint16_t], steps [int]. *)
Record Statics : Type := mkStatics {
  Tachometer_Previous_Right_Time : Z;
  Tachometer_Current_Right_Time : Z;
  Tachometer_Previous_Left_Time : Z;
  Tachometer_Current_Left_Time : Z;
  Tachometer_Right_Steps : Z;
  Tachometer_Left_Steps : Z;
  Tachometer_Right_Dir : Tachometer_Direction;
  Tachometer_Left_Dir : Tachometer_Direction
}.

(** The statics at reset. *)
Definition at_reset : Statics := mkStatics 0 0 0 0 0 0 STOPPED STOPPED.









(** [for (i = i0; i < i0 + count; i++) buffer_sum = buffer_sum + buffer[i];]
    with [uint32_t buffer_sum]. *)
Fixpoint sum_buffer (buffer : list Z) (i : Z) (count : nat) (buffer_sum : Z)
    : option Z :=
  match count with
  | O => Some buffer_sum
  | S count' =>
      v ← Memory.load buffer i;
      sum_buffer buffer (i + 1) count' (uint32 (buffer_sum + v))
  end.

(** [uint16_t Average_of_Buffer(uint16_t *buffer, int buffer_length)]:
    the length is converted to [uint32_t] for the division. *)
Definition Average_of_Buffer (buffer : list Z) (buffer_length : Z)
    : option Z :=
  buffer_sum ← sum_buffer buffer 0 (Z.to_nat buffer_length) 0;
  buffer_average ← LPF.udiv buffer_sum (uint32 buffer_length);
  Some (uint16 buffer_average).

End Tachometer.

(** ** Reading a line (Barcode_Scanner.c) and numbers (EUSCI_A0_UART.c) *)

Module Serial.

Definition CR : Z := 0x0D.
Definition BS : Z := 0x08.

(** The loop of [Barcode_Scanner_Read] on the characters still to be
    received: the value returned, the buffer, the characters echoed and
    the characters left.  Nothing is returned while no carriage return
    arrives, and a store outside the buffer is undefined. *)
Fixpoint read_loop (rx buffer : list Z) (buffer_size length string_size : Z)
    (tx : list Z) : option (Z * list Z * list Z * list Z) :=
  match rx with
  | [] => None
  | character :: rx' =>
      if character =? CR then
        buffer' ← Memory.store buffer length 0;
        Some (string_size, buffer', tx, rx')
      else if character =? BS then
        if length =? 0
        then read_loop rx' buffer buffer_size length string_size tx
        else read_loop rx' buffer buffer_size (length - 1) string_size
                       (tx ++ [BS])
      else if length <? buffer_size then
        buffer' ← Memory.store buffer length character;
        read_loop rx' buffer' buffer_size (length + 1)
                  (int32 (string_size + 1)) tx
      else read_loop rx' buffer buffer_size length string_size tx
  end.

(** [int Barcode_Scanner_Read(char *buffer_pointer, uint16_t buffer_size)]. *)
Definition Barcode_Scanner_Read (rx buffer : list Z) (buffer_size : Z)
    : option (Z * list Z * list Z * list Z) :=
  read_loop rx buffer buffer_size 0 0 [].

(** The line an editor with room for [n] characters holds after the
    characters received: a backspace removes the last character kept,
    any other character is kept while there is room. *)
Definition edit_step (n : Z) (kept : list Z) (character : Z) : list Z :=
  if character =? BS then removelast kept
  else if Z.of_nat (length kept) <? n then kept ++ [character]
  else kept.

Definition edit (n : Z) (line : list Z) : list Z :=
  foldl (edit_step n) [] line.

(** The characters of a line that are stored at some point. *)
Fixpoint stored (n : Z) (kept line : list Z) : Z :=
  match line with
  | [] => 0
  | character :: rest =>
      (if (negb (character =? BS)) && (Z.of_nat (length kept) <? n)
       then 1 else 0) + stored n (edit_step n kept character) rest
  end.

(** The loop of [EUSCI_A0_UART_InUDec]: the number, the echo and the
    characters left. *)
Fixpoint InUDec_loop (rx : list Z) (number length : Z) (tx : list Z)
    : option (Z * list Z * list Z) :=
  match rx with
  | [] => None
  | character :: rx' =>
      if character =? CR then Some (number, tx, rx')
      else if (character >=? 48) && (character <=? 57) then
        InUDec_loop rx' (uint32 (10 * number + (character - 48)))
                    (uint32 (length + 1)) (tx ++ [character])
      else if (character =? BS) && negb (length =? 0) then
        InUDec_loop rx' (number `div` 10) (uint32 (length - 1))
                    (tx ++ [character])
      else InUDec_loop rx' number length tx
  end.

Definition EUSCI_A0_UART_InUDec (rx : list Z) : option (Z * list Z * list Z) :=
  InUDec_loop rx 0 0 [].

(** [void EUSCI_A0_UART_OutUDec(uint32_t n)]: the characters sent, with
    the depth of the recursion bounded by [depth]. *)
Fixpoint OutUDec (depth : nat) (n : Z) : option (list Z) :=
  match depth with
  | O => None
  | S depth' =>
      if n >=? 10 then
        front ← OutUDec depth' (n `div` 10);
        Some (front ++ [Driver.uint8 (n `mod` 10 + 48)])
      else Some [Driver.uint8 (n + 48)]
  end.

(** [void EUSCI_A0_UART_OutSDec(int32_t n)]. *)
Definition OutSDec (depth : nat) (n : Z) : option (list Z) :=
  if n <? 0 then
    digits ← OutUDec depth (uint32 (int32 (- n)));
    Some (45 :: digits)
  else OutUDec depth (uint32 n).

(** The loop of [UART0_InUHex]. *)
Fixpoint InUHex_loop (rx : list Z) (number length : Z) (tx : list Z)
    : option (Z * list Z * list Z) :=
  match rx with
  | [] => None
  | character :: rx' =>
      if character =? CR then Some (number, tx, rx')
      else
        let digit :=
          if (character >=? 48) && (character <=? 57) then character - 48
          else if (character >=? 65) && (character <=? 70)
          then (character - 65) + 0xA
          else if (character >=? 97) && (character <=? 102)
          then (character - 97) + 0xA
          else 0x10 in
        if digit <=? 0xF then
          InUHex_loop rx' (uint32 (number * 0x10 + digit))
                      (uint32 (length + 1)) (tx ++ [character])
        else if (character =? BS) && negb (length =? 0) then
          InUHex_loop rx' (number `div` 0x10) (uint32 (length - 1))
                      (tx ++ [character])
        else InUHex_loop rx' number length tx
  end.

Definition UART0_InUHex (rx : list Z) : option (Z * list Z * list Z) :=
  InUHex_loop rx 0 0 [].

(** [void EUSCI_A0_UART_OutUHex(uint32_t number)]: the characters sent,
    with the depth of the recursion bounded by [depth]. *)
Fixpoint OutUHex (depth : nat) (number : Z) : option (list Z) :=
  match depth with
  | O => None
  | S depth' =>
      if number >=? 0x10 then
        front ← OutUHex depth' (number `div` 0x10);
        back ← OutUHex depth' (number `mod` 0x10);
        Some (front ++ back)
      else if number <? 0xA then Some [Driver.uint8 (number + 48)]
      else Some [Driver.uint8 ((number - 0x0A) + 65)]
  end.

(** The number a string of decimal digits stands for. *)
Definition is_digit (c : Z) : Prop := 48 <= c <= 57.

Definition decimal (digits : list Z) : Z :=
  foldl (fun acc c => 10 * acc + (c - 48)) 0 digits.

(** The number a string of hexadecimal digits, letters in upper case,
    stands for. *)
Definition is_hex_digit (c : Z) : Prop := 48 <= c <= 57 \/ 65 <= c <= 70.

Definition hexadecimal (digits : list Z) : Z :=
  foldl (fun acc c => 16 * acc + (if c <=? 57 then c - 48 else c - 55))
        0 digits.

End Serial.

(** ** The counter on the display (Nokia5110_LCD.c, Maze/main.c) *)

Module Display.

(** The two counters of the main loop ([uint32_t]) over one pass. *)
Record Counters : Type := mkCounters { counter : Z; mscounter : Z }.

Definition main_loop_counters (k : Counters) : Counters :=
  let ms := uint32 (mscounter k + 50) in
  {| counter := if ms `mod` 1000 =? 0 then uint32 (counter k + 1)
                else counter k;
     mscounter := ms |}.

(** [void Nokia5110_OutUDec(uint16_t n)]: the characters sent to
    [Nokia5110_OutChar], a [char] each. *)
Definition Nokia5110_OutUDec (n : Z) : list Z :=
  let char (z : Z) := Driver.uint8 z in
  if n <? 10 then [32; 32; 32; 32; char (n + 48)]
  else if n <? 100 then
    [32; 32; 32; char (n `div` 10 + 48); char (n `mod` 10 + 48)]
  else if n <? 1000 then
    let n2 := n `mod` 100 in
    [32; 32; char (n `div` 100 + 48); char (n2 `div` 10 + 48);
     char (n2 `mod` 10 + 48)]
  else if n <? 10000 then
    let n3 := n `mod` 1000 in
    let n2 := n3 `mod` 100 in
    [32; char (n `div` 1000 + 48); char (n3 `div` 100 + 48);
     char (n2 `div` 10 + 48); char (n2 `mod` 10 + 48)]
  else
    let n4 := n `mod` 10000 in
    let n3 := n4 `mod` 1000 in
    let n2 := n3 `mod` 100 in
    [char (n `div` 10000 + 48); char (n4 `div` 1000 + 48);
     char (n3 `div` 100 + 48); char (n2 `div` 10 + 48);
     char (n2 `mod` 10 + 48)].

(** A field of the display: blanks, then a decimal number without
    leading zero, and the number it shows. *)
Definition right_aligned (field : list Z) (n : Z) : Prop :=
  exists (blanks : nat) (digits : list Z),
    field = replicate blanks 32 ++ digits /\
    Forall Serial.is_digit digits /\ Serial.decimal digits = n /\
    (hd 48 digits = 48 -> digits = [48]).

End Display.

(** ** The bumper switches (Bumper_Read) *)

Module Bumper.

(** [uint8_t Bumper_Read(void)] on the value of P4 IN. *)
Definition Bumper_Read (P4_IN : Z) : Z :=
  let bumper_state := uint32 (Z.lnot P4_IN) in
  Driver.uint8
    (Z.lor (Z.lor (Z.shiftr (Z.land bumper_state 0xE0) 2)
                  (Z.shiftr (Z.land bumper_state 0x0C) 1))
           (Z.land bumper_state 0x01)).

(** The pin of port 4 behind each bit of the result. *)
Definition pin (bit : Z) : Z :=
  if bit =? 0 then 0 else if bit =? 1 then 2 else if bit =? 2 then 3
  else if bit =? 3 then 5 else if bit =? 4 then 6 else 7.

End Bumper.

Import Calibration Controller Specified.

(** * Properties *)

(** ** Machine integers *)

Lemma uint32_small z : 0 <= z < 2 ^ 32 -> uint32 z = z.
Proof. intros. unfold uint32. apply Z.mod_small. lia. Qed.

Lemma int32_small z : - 2 ^ 31 <= z < 2 ^ 31 -> int32 z = z.
Proof. intros. unfold int32. rewrite Z.mod_small; lia. Qed.

(** ** Calibration *)

(** The divisor of the formula: never zero once the guard has been passed. *)
Lemma divisor_positive x :
  is_int32 x -> ANALOG_DISTANCE_SENSOR_MAX <= x ->
  int32 (x + Bx) = x - 1058 /\ 1494 <= x - 1058.
Proof.
  unfold is_int32, INT32_MIN, INT32_MAX, ANALOG_DISTANCE_SENSOR_MAX, Bx.
  intros Hx Hge. split; [|lia].
  rewrite int32_small; lia.
Qed.

(** Truncating and flooring division agree on the operands met here. *)
Lemma quot_Ax_bounds d :
  1494 <= d -> 0 <= Z.quot Ax d <= 799.
Proof.
  intros Hd. unfold Ax.
  rewrite Z.quot_div_nonneg by lia.
  split.
  - apply Z.div_pos; lia.
  - assert (1195159 `div` d < 800); [|lia].
    apply Z.div_lt_upper_bound; lia.
Qed.

Lemma Calibrate_formula x :
  is_int32 x -> ANALOG_DISTANCE_SENSOR_MAX <= x ->
  Analog_Distance_Sensor_Calibrate x = Z.quot 1195159 (x - 1058) + 40.
Proof.
  intros Hx Hge. unfold Analog_Distance_Sensor_Calibrate.
  destruct (Z.ltb_spec x ANALOG_DISTANCE_SENSOR_MAX) as [Hlt|_]; [lia|].
  destruct (divisor_positive x Hx Hge) as [-> Hd].
  pose proof (quot_Ax_bounds _ Hd) as Hq. unfold Ax, Cx in *.
  rewrite !int32_small; [done| |]; rewrite ?int32_small; lia.
Qed.

(** Every value the function can return, on any [int] argument. *)
Lemma Calibrate_range x :
  is_int32 x -> 40 <= Analog_Distance_Sensor_Calibrate x <= 839.
Proof.
  intros Hx.
  destruct (Z.lt_ge_cases x ANALOG_DISTANCE_SENSOR_MAX) as [Hlt|Hge].
  - unfold Analog_Distance_Sensor_Calibrate.
    destruct (Z.ltb_spec x ANALOG_DISTANCE_SENSOR_MAX); lia.
  - rewrite Calibrate_formula by done.
    destruct (divisor_positive x Hx Hge) as [_ Hd].
    pose proof (quot_Ax_bounds _ Hd). unfold Ax in *. lia.
Qed.

(** ** Controller *)

(** Case analysis on the integer comparisons of a goal. *)
Ltac zcases :=
  repeat match goal with
         | |- context [?a >? ?b] => rewrite (Z.gtb_ltb a b)
         | |- context [?a >=? ?b] => rewrite (Z.geb_leb a b)
         | |- context [?a <? ?b] => destruct (Z.ltb_spec a b); simpl
         | |- context [?a <=? ?b] => destruct (Z.leb_spec a b); simpl
         end.

(** The two clamping statements of a duty cycle, on any 16-bit value. *)
Lemma clamp_in_range d :
  in_pwm_range
    (let d1 := if d <? PWM_MIN then PWM_MIN else d in
     if d1 >? PWM_MAX then PWM_MAX else d1).
Proof.
  unfold in_pwm_range, PWM_MIN, PWM_MAX, PWM_NOMINAL, PWM_SWING.
  cbv zeta. zcases; lia.
Qed.

(** The call of a tick carries the duty cycles the tick has stored. *)
Lemma command_cases (st : Robot) :
  let c := Converted_Distance_Center st in
  command st =
  if (c >=? DESIRED_DISTANCE) && (c <? 800)
  then Motor_Forward (Duty_Cycle_Left (tick st)) (Duty_Cycle_Right (tick st))
  else if c <? DESIRED_DISTANCE - 50
  then Motor_Backward (Duty_Cycle_Left (tick st)) (Duty_Cycle_Right (tick st))
  else Motor_Stop.
Proof. reflexivity. Qed.

Lemma tick_duties_in_range (st : Robot) :
  in_pwm_range (Duty_Cycle_Left (tick st)) /\
  in_pwm_range (Duty_Cycle_Right (tick st)).
Proof. split; apply clamp_in_range. Qed.

(** C1. After a tick of [Controller_3], whatever the three distances, the
    gain and the previous globals are, both duty cycles lie in
    [PWM_MIN, PWM_MAX] = [1500, 3500], and so does every pair handed to the
    motor driver during the tick. *)
Theorem C1_duty_cycles_clamped (st : Robot) :
  PWM_MIN = 1500 /\ PWM_MAX = 3500 /\
  in_pwm_range (Duty_Cycle_Left (tick st)) /\
  in_pwm_range (Duty_Cycle_Right (tick st)) /\
  Forall (fun p => in_pwm_range (fst p) /\ in_pwm_range (snd p))
         (duties (command st)).
Proof.
  split; [done|]. split; [done|].
  destruct (tick_duties_in_range st) as [HL HR].
  split; [done|]. split; [done|].
  rewrite command_cases. cbv zeta.
  destruct (_ && _); [|destruct (_ <? _)]; cbn [duties];
    first [ apply List.Forall_nil
          | apply List.Forall_cons; [split; assumption | apply List.Forall_nil] ].
Qed.

(** C2, counterexample.  With the centre distance exactly at the desired
    distance (250 mm) the specified policy stops, while [Controller_3]
    drives forward: its test is [Center >= DESIRED_DISTANCE]. *)
Lemma C2_counterexample_center_250 :
  let st := robot 300 250 300 4 in
  command st = Motor_Forward 2500 2500 /\
  policy_as_specified 250 2500 2500 = Motor_Stop /\
  command st <>
  policy_as_specified (Converted_Distance_Center st)
    (Duty_Cycle_Left (tick st)) (Duty_Cycle_Right (tick st)).
Proof. vm_compute. repeat split; discriminate. Qed.

(** C2, as amended.  The command of a tick is forward with the computed
    duty cycles when the centre distance is at least 250 and below 800,
    backward with the computed duty cycles when it is below 200, and stop
    otherwise; with the centre at 150 mm it is backward whatever the other
    distances and the gain are. *)
Theorem C2_actuation_policy (st : Robot) :
  let c := Converted_Distance_Center st in
  let dl := Duty_Cycle_Left (tick st) in
  let dr := Duty_Cycle_Right (tick st) in
  (250 <= c < 800 -> command st = Motor_Forward dl dr) /\
  (c < 200 -> command st = Motor_Backward dl dr) /\
  (200 <= c < 250 \/ 800 <= c -> command st = Motor_Stop) /\
  (c = 150 -> command st = Motor_Backward dl dr).
Proof.
  cbv zeta. rewrite command_cases. cbv zeta. unfold DESIRED_DISTANCE.
  repeat split; intros Hc; zcases; try reflexivity; lia.
Qed.

Lemma C2_actuation_policy_witness :
  command (robot 300 260 300 4) = Motor_Forward 2500 2500 /\
  command (robot 900 150 100 7) = Motor_Backward 3500 1500 /\
  command (robot 300 220 300 4) = Motor_Stop.
Proof.
  split; [|split].
  - apply (proj1 (C2_actuation_policy (robot 300 260 300 4))).
    vm_compute. split; [discriminate | reflexivity].
  - apply (proj1 (proj2 (C2_actuation_policy (robot 900 150 100 7)))).
    vm_compute. reflexivity.
  - apply (proj1 (proj2 (proj2 (C2_actuation_policy (robot 300 220 300 4))))).
    left. vm_compute. split; [discriminate | reflexivity].
Defined.

(** With both distances above the desired distance and no overflow of the
    sum, the stored set point is the truncated mean. *)
Lemma set_point_mean (l r : Z) :
  250 < l < 2 ^ 30 -> 250 < r < 2 ^ 30 ->
  int32 (Z.quot (int32 (l + r)) 2) = Z.quot (l + r) 2.
Proof.
  intros Hl Hr.
  rewrite (int32_small (l + r)) by lia.
  rewrite Z.quot_div_nonneg by lia.
  apply int32_small. Z.div_mod_to_equations. lia.
Qed.

(** C3. On a tick, for distances in the range where the [int32_t]
    arithmetic of the source does not overflow (it contains every value
    the calibration returns, see [Calibrate_range]): the set point is the
    integer mean of left and right when both exceed 250 and 250 otherwise;
    the error is left minus set point when left < right and set point minus
    right otherwise.  left = right = 500 gives set point 500; left = 100,
    right = 500 gives set point 250 and error -150. *)
Theorem C3_set_point_and_error (st : Robot) :
  let L := Converted_Distance_Left st in
  let R := Converted_Distance_Right st in
  - 2 ^ 30 <= L < 2 ^ 30 -> - 2 ^ 30 <= R < 2 ^ 30 ->
  (250 < L /\ 250 < R ->
   Set_Point (tick st) = Z.quot (L + R) 2 /\
   Set_Point (tick st) = (L + R) `div` 2) /\
  (~ (250 < L /\ 250 < R) -> Set_Point (tick st) = 250) /\
  (L < R -> Error (tick st) = L - Set_Point (tick st)) /\
  (~ L < R -> Error (tick st) = Set_Point (tick st) - R) /\
  (L = 500 -> R = 500 -> Set_Point (tick st) = 500) /\
  (L = 100 -> R = 500 ->
   Set_Point (tick st) = 250 /\ Error (tick st) = -150).
Proof.
  intros L R HL HR.
  assert (Set_Point (tick st) =
          if (L >? 250) && (R >? 250) then Z.quot (L + R) 2 else 250) as Hsp.
  { unfold tick, Controller_3. cbn [fst Set_Point]. fold L R.
    unfold DESIRED_DISTANCE. rewrite !Z.gtb_ltb.
    destruct (Z.ltb_spec 250 L); [destruct (Z.ltb_spec 250 R)|]; simpl;
      try reflexivity.
    apply set_point_mean; lia. }
  assert (- 2 ^ 30 <= Set_Point (tick st) < 2 ^ 30) as Hbound.
  { rewrite Hsp. rewrite !Z.gtb_ltb.
    destruct (Z.ltb_spec 250 L); [destruct (Z.ltb_spec 250 R)|]; simpl;
      try lia.
    rewrite Z.quot_div_nonneg by lia. Z.div_mod_to_equations. lia. }
  assert (Error (tick st) =
          if L <? R then L - Set_Point (tick st)
          else Set_Point (tick st) - R) as Herr.
  { revert Hbound. unfold tick, Controller_3.
    cbn [fst Set_Point Error]. fold L R. intros Hbound.
    destruct (Z.ltb_spec L R); apply int32_small; lia. }
  rewrite Herr, Hsp. clear Herr Hsp Hbound. rewrite !Z.gtb_ltb.
  split; [|split; [|split; [|split; [|split]]]].
  - intros [H1 H2].
    destruct (Z.ltb_spec 250 L); [|lia]. destruct (Z.ltb_spec 250 R); [|lia].
    split; [reflexivity|]. apply Z.quot_div_nonneg; lia.
  - intros Hn.
    destruct (Z.ltb_spec 250 L); [|reflexivity].
    destruct (Z.ltb_spec 250 R); [lia | reflexivity].
  - intros Hlt. destruct (Z.ltb_spec L R); [reflexivity | lia].
  - intros Hge. destruct (Z.ltb_spec L R); [lia | reflexivity].
  - intros -> ->. reflexivity.
  - intros -> ->. split; reflexivity.
Qed.

Lemma C3_set_point_and_error_witness :
  Set_Point (tick (robot 300 260 300 4)) = 300 /\
  Error (tick (robot 300 260 300 4)) = 0 /\
  Set_Point (tick (robot 100 260 500 4)) = 250 /\
  Error (tick (robot 100 260 500 4)) = -150.
Proof.
  pose proof (C3_set_point_and_error (robot 300 260 300 4)) as H1.
  pose proof (C3_set_point_and_error (robot 100 260 500 4)) as H2.
  cbv zeta in H1, H2. cbn [robot Converted_Distance_Left Converted_Distance_Right] in H1, H2.
  destruct H1 as (Ha & _ & _ & Hb & _); [lia | lia |].
  destruct H2 as (_ & Hc & Hd & _); [lia | lia |].
  split; [|split; [|split]].
  - apply Ha. lia.
  - rewrite Hb by lia. vm_compute. reflexivity.
  - apply Hc. lia.
  - rewrite Hd by lia. vm_compute. reflexivity.
Defined.

(** C4. On any [int] argument the calibration returns the sentinel 800
    below [ANALOG_DISTANCE_SENSOR_MAX] = 2552 and the truncated quotient
    1195159 / (x - 1058) plus 40 from 2552 on; at 2551 it is the sentinel,
    at 2552 the value of the formula, 839. *)
Theorem C4_calibrate_cases (x : Z) :
  is_int32 x ->
  (x < 2552 -> Analog_Distance_Sensor_Calibrate x = 800) /\
  (2552 <= x ->
   Analog_Distance_Sensor_Calibrate x = Z.quot 1195159 (x - 1058) + 40) /\
  Analog_Distance_Sensor_Calibrate 2551 = 800 /\
  Analog_Distance_Sensor_Calibrate 2552 = Z.quot 1195159 (2552 - 1058) + 40 /\
  Analog_Distance_Sensor_Calibrate 2552 = 839.
Proof.
  intros Hx. split; [|split; [|by vm_compute]].
  - intros Hlt. unfold Analog_Distance_Sensor_Calibrate.
    unfold ANALOG_DISTANCE_SENSOR_MAX.
    destruct (Z.ltb_spec x 2552); [reflexivity | lia].
  - intros Hge. by apply Calibrate_formula.
Qed.

Lemma C4_calibrate_cases_witness :
  Analog_Distance_Sensor_Calibrate 1000 = 800 /\
  Analog_Distance_Sensor_Calibrate 3000 = Z.quot 1195159 (3000 - 1058) + 40.
Proof.
  assert (forall x, -5000 <= x <= 5000 -> is_int32 x) as Hi
      by (unfold is_int32, INT32_MIN, INT32_MAX; lia).
  split.
  - apply (proj1 (C4_calibrate_cases 1000 (Hi 1000 ltac:(lia)))). lia.
  - apply (proj1 (proj2 (C4_calibrate_cases 3000 (Hi 3000 ltac:(lia))))). lia.
Defined.

(** C10. On the 14-bit readings from 2552 to 16383 the calibration stays
    in [117, 839], both ends attained; it returns 800, the value of the
    sentinel, at 2630 and exceeds it up to 839 at 2552.  A centre distance
    from 801 to 839 fails the [Center < 800] test of the controller, whose
    command is then stop. *)
Theorem C10_calibrated_range (x : Z) :
  2552 <= x <= 16383 ->
  117 <= Analog_Distance_Sensor_Calibrate x <= 839 /\
  Analog_Distance_Sensor_Calibrate 16383 = 117 /\
  Analog_Distance_Sensor_Calibrate 2630 = 800 /\
  Analog_Distance_Sensor_Calibrate 2552 = 839 /\
  (x <= 2628 -> 801 <= Analog_Distance_Sensor_Calibrate x <= 839) /\
  (forall st : Robot,
     801 <= Converted_Distance_Center st <= 839 -> command st = Motor_Stop).
Proof.
  intros Hx.
  assert (is_int32 x) as Hi by (unfold is_int32, INT32_MIN, INT32_MAX; lia).
  assert (ANALOG_DISTANCE_SENSOR_MAX <= x) as Hge
      by (unfold ANALOG_DISTANCE_SENSOR_MAX; lia).
  rewrite Calibrate_formula by done.
  rewrite Z.quot_div_nonneg by lia.
  assert (77 <= 1195159 `div` (x - 1058)) as Hlo
      by (apply Z.div_le_lower_bound; lia).
  assert (1195159 `div` (x - 1058) < 800) as Hhi
      by (apply Z.div_lt_upper_bound; lia).
  split; [lia|]. do 3 (split; [by vm_compute|]).
  split.
  - intros Hx'.
    assert (761 <= 1195159 `div` (x - 1058))
      by (apply Z.div_le_lower_bound; lia).
    lia.
  - intros st Hc. rewrite command_cases. cbv zeta. unfold DESIRED_DISTANCE.
    zcases; try reflexivity; lia.
Qed.

Lemma C10_calibrated_range_witness :
  117 <= Analog_Distance_Sensor_Calibrate 2600 <= 839 /\
  801 <= Analog_Distance_Sensor_Calibrate 2600 <= 839 /\
  command (robot 300 (Analog_Distance_Sensor_Calibrate 2600) 300 4) = Motor_Stop.
Proof.
  assert (2552 <= 2600 <= 16383) as Hx by lia.
  destruct (C10_calibrated_range 2600 Hx) as (H1 & _ & _ & _ & H2 & H3).
  split; [exact H1|]. split; [apply H2; lia|].
  apply H3. vm_compute. split; discriminate.
Defined.

(** ** Filters: arrays and sums *)

Import LPF.

Lemma read_Some (a : list Z) (i : Z) (v : Z) :
  read a i = Some v <-> 0 <= i < 1024 /\ a !! Z.to_nat i = Some v.
Proof.
  unfold read, ARRAY_LEN.
  destruct (Z.leb_spec 0 i), (Z.ltb_spec i 1024); simpl;
    split; try (intros [? ?]); try intros ?; try done; try lia.
Qed.

Lemma read_in_bounds (a : list Z) (i : Z) :
  length a = 1024%nat -> 0 <= i < 1024 -> exists v, read a i = Some v.
Proof.
  intros Hlen Hi.
  destruct (lookup_lt_is_Some_2 a (Z.to_nat i)) as [v Hv]; [lia|].
  exists v. apply read_Some. done.
Qed.

Lemma udiv_Some (a b : Z) : b <> 0 -> udiv a b = Some (a `div` b).
Proof. intros Hb. unfold udiv. by destruct (Z.eqb_spec b 0). Qed.

Lemma length_fill (a : list Z) (i n : nat) (v : Z) :
  length (fill a i n v) = length a.
Proof.
  revert a i. induction n as [|n IH]; intros a i; simpl; [done|].
  by rewrite IH, length_insert.
Qed.

Lemma lookup_fill (a : list Z) (i n : nat) (v : Z) (j : nat) :
  (i + n <= length a)%nat ->
  fill a i n v !! j =
  if decide (i <= j < i + n)%nat then Some v else a !! j.
Proof.
  revert a i. induction n as [|n IH]; intros a i Hlen; simpl.
  - case_decide; [lia | done].
  - rewrite IH by (rewrite length_insert; lia).
    repeat case_decide; try done; try lia.
    + destruct (decide (i = j)) as [->|Hne].
      * rewrite list_lookup_insert_eq; [done | lia].
      * lia.
    + rewrite list_lookup_insert_ne; [done | lia].
Qed.

Lemma take_fill (a : list Z) (n m : nat) (v : Z) :
  (n <= m <= length a)%nat -> take n (fill a 0 m v) = replicate n v.
Proof.
  intros Hlen. apply list_eq. intros j.
  destruct (decide (j < n)%nat) as [Hj|Hj].
  - rewrite lookup_take_lt by done. rewrite lookup_fill by lia.
    rewrite lookup_replicate_2 by done. case_decide; [done | lia].
  - rewrite lookup_take_ge by lia. symmetry.
    apply lookup_replicate_None. lia.
Qed.

Lemma sumZ_replicate (n : nat) (v : Z) : sumZ (replicate n v) = Z.of_nat n * v.
Proof.
  induction n as [|n IH]; [done|].
  change (sumZ (replicate (S n) v)) with (v + sumZ (replicate n v)). lia.
Qed.

(** Overwriting one cell of the window changes the sum by the difference. *)
Lemma sumZ_take_insert (a : list Z) (n p : nat) (v old : Z) :
  (p < n)%nat -> a !! p = Some old ->
  sumZ (take n (<[p := v]> a)) = sumZ (take n a) - old + v.
Proof.
  revert n p. induction a as [|h a IH]; intros n p Hp Hold; [done|].
  destruct n as [|n]; [lia|]. destruct p as [|p]; simpl in *.
  - injection Hold as ->. unfold sumZ. simpl. lia.
  - unfold sumZ in *. simpl. rewrite (IH n p) by (done || lia). lia.
Qed.

Lemma foldr_min_le (d : Z) (l : list Z) :
  foldr Z.min d l <= d /\ forall v, v ∈ l -> foldr Z.min d l <= v.
Proof.
  induction l as [|a l [IHd IHl]]; simpl.
  - split; [lia|]. intros v Hv. by apply not_elem_of_nil in Hv.
  - split; [lia|]. intros v Hv. apply elem_of_cons in Hv as [->|Hv]; [lia|].
    specialize (IHl v Hv). lia.
Qed.

Lemma foldr_max_ge (d : Z) (l : list Z) :
  d <= foldr Z.max d l /\ forall v, v ∈ l -> v <= foldr Z.max d l.
Proof.
  induction l as [|a l [IHd IHl]]; simpl.
  - split; [lia|]. intros v Hv. by apply not_elem_of_nil in Hv.
  - split; [lia|]. intros v Hv. apply elem_of_cons in Hv as [->|Hv]; [lia|].
    specialize (IHl v Hv). lia.
Qed.

Lemma sumZ_bounds (lo hi : Z) (l : list Z) :
  (forall v, v ∈ l -> lo <= v <= hi) ->
  Z.of_nat (length l) * lo <= sumZ l <= Z.of_nat (length l) * hi.
Proof.
  induction l as [|a l IH]; intros Hall; [simpl; unfold sumZ; simpl; lia|].
  assert (lo <= a <= hi) by (apply Hall; left).
  assert (forall v, v ∈ l -> lo <= v <= hi) as Hl
      by (intros v Hv; apply Hall; by right).
  specialize (IH Hl). change (sumZ (a :: l)) with (a + sumZ l).
  rewrite length_cons. lia.
Qed.

(** The mean of a non-empty list lies between its minimum and maximum. *)
Lemma mean_between_min_max (l : list Z) :
  l <> [] ->
  list_min l <= sumZ l `div` Z.of_nat (length l) <= list_max l.
Proof.
  intros Hne.
  assert (0 < Z.of_nat (length l)) as Hlen by (destruct l; [done | simpl; lia]).
  pose proof (sumZ_bounds (list_min l) (list_max l) l) as Hb.
  destruct Hb as [Hlo Hhi].
  { intros v Hv. split.
    - by apply foldr_min_le.
    - by apply foldr_max_ge. }
  split.
  - apply Z.div_le_lower_bound; lia.
  - apply Z.div_le_upper_bound; lia.
Qed.

(** ** Filters: one call *)

Lemma uint32_sum_step (sum v old : Z) :
  uint32 (uint32 (uint32 sum + v) - old) = uint32 (sum - old + v).
Proof.
  unfold uint32. rewrite Zminus_mod_idemp_l.
  replace (sum `mod` 2 ^ 32 + v - old) with (sum `mod` 2 ^ 32 + (v - old))
    by lia.
  rewrite Zplus_mod_idemp_l. f_equal. lia.
Qed.

(** The index after the step back, with its wrap to [Size - 1]. *)
Lemma step_back (size p : Z) :
  1 <= size < 2 ^ 32 -> 0 <= p < size ->
  (if p =? 0 then uint32 (size - 1) else p - 1) = (p - 1) `mod` size /\
  0 <= (p - 1) `mod` size < size.
Proof.
  intros Hs Hp. split; [|apply Z.mod_pos_bound; lia].
  destruct (Z.eqb_spec p 0) as [->|Hne].
  - rewrite uint32_small by lia.
    replace (0 - 1) with (size - 1 + (-1) * size) by lia.
    rewrite Z.mod_add by lia. rewrite Z.mod_small; lia.
  - rewrite Z.mod_small; lia.
Qed.

(** [LPF_Calc] on the first channel in service: it returns, and what. *)
Lemma LPF_Calc_in_service (st : Filters) (v : Z) :
  in_service Ch1 st ->
  let i := (I1 st - 1) `mod` Size st in
  exists old,
    x st !! Z.to_nat i = Some old /\
    LPF_Calc st v =
    Some (uint32 (uint32 (LPFSum st + v) - old) `div` Size st,
          mkFilters (Size st) (<[Z.to_nat i := v]> (x st)) i
                    (uint32 (uint32 (LPFSum st + v) - old))
                    (x2 st) (Pt2 st) (LPFSum2 st)
                    (x3 st) (Pt3 st) (LPFSum3 st)).
Proof.
  intros [Hlen Hsize (p & Hp & Hrange) Hsum] i.
  unfold array, position, total, window, cap in *. cbn [own fst snd] in *.
  injection Hp as <-.
  destruct (step_back (Size st) (I1 st)) as [Hi Hi']; [lia | done |].
  fold i in Hi, Hi'.
  destruct (read_in_bounds (x st) i Hlen) as [old Hold]; [lia|].
  exists old. split; [by apply read_Some in Hold as [_ ?]|].
  unfold LPF_Calc. rewrite Hi, Hold. cbn [mbind option_bind].
  rewrite udiv_Some by lia. reflexivity.
Qed.

(** The shared body of the second and third channel, in service. *)
Lemma two_copies_calc_in_service (size : Z) (a : list Z) (p0 sum v : Z) :
  length a = 1024%nat -> 1 <= size <= 512 -> 0 <= p0 < size ->
  let p := (p0 - 1) `mod` size in
  exists old,
    a !! Z.to_nat p = Some old /\
    two_copies_calc size a (Some p0) sum v =
    Some (uint32 (uint32 (sum + v) - old) `div` size,
          (<[Z.to_nat p := v]> (<[Z.to_nat (p + size) := v]> a),
           Some p, uint32 (uint32 (sum + v) - old))).
Proof.
  intros Hlen Hsize Hp0 p.
  destruct (step_back size p0) as [Hp Hp']; [lia | done |]. fold p in Hp, Hp'.
  destruct (read_in_bounds a p Hlen) as [old Hold]; [lia|].
  destruct (read_in_bounds a (p + size) Hlen) as [far Hfar]; [lia|].
  exists old. split; [by apply read_Some in Hold as [_ ?]|].
  unfold two_copies_calc. cbn [mbind option_bind].
  rewrite Hp, Hold. cbn [mbind option_bind]. rewrite Hfar.
  cbn [mbind option_bind]. rewrite udiv_Some by lia. reflexivity.
Qed.

Lemma take_store_far (a : list Z) (n p far : nat) (v : Z) :
  (n <= far)%nat ->
  take n (<[p := v]> (<[far := v]> a)) = take n (<[p := v]> a).
Proof.
  intros Hfar. destruct (decide (p < n)%nat).
  - rewrite (take_insert_lt _ n p) by lia.
    rewrite (take_insert_ge _ n far) by lia.
    by rewrite <- take_insert_lt by lia.
  - by rewrite !(take_insert_ge _ n) by lia.
Qed.

(** One update of a channel in service: the call returns; the output is
    the new sum divided by the depth; the index steps back modulo the
    depth; the new sample replaces the cell at the new index; the other
    channels keep what they own. *)
Lemma calc_in_service (c : Channel) (st : Filters) (v : Z) :
  in_service c st ->
  exists p old st',
    position c st = Some p /\
    array c st !! Z.to_nat ((p - 1) `mod` Size st) = Some old /\
    0 <= (p - 1) `mod` Size st < Size st /\
    calc c st v =
      Some (uint32 (uint32 (total c st + v) - old) `div` Size st, st') /\
    Size st' = Size st /\
    position c st' = Some ((p - 1) `mod` Size st) /\
    total c st' = uint32 (uint32 (total c st + v) - old) /\
    window c st' =
      take (Z.to_nat (Size st))
           (<[Z.to_nat ((p - 1) `mod` Size st) := v]> (array c st)) /\
    length (array c st') = 1024%nat /\
    (forall c', c' <> c -> own c' st' = own c' st).
Proof.
  intros Hinv. pose proof Hinv as [Hlen Hsize (p & Hp & Hrange) Hsum].
  assert (0 <= (p - 1) `mod` Size st < Size st) as Hi
      by (apply Z.mod_pos_bound; lia).
  destruct c; unfold window, array, position, total, cap in *;
    cbn [own fst snd] in *.
  - injection Hp as <-.
    destruct (LPF_Calc_in_service st v Hinv) as (old & Hold & Hcalc).
    eexists (I1 st), old, _. cbn [calc]. rewrite Hcalc. cbn [Size x I1 LPFSum].
    repeat split; try done; try lia.
    + cbn [x]. by rewrite length_insert.
    + by intros [] ?.
  - destruct (two_copies_calc_in_service (Size st) (x2 st) p (LPFSum2 st) v)
      as (old & Hold & Hcalc); [done | lia | done |].
    eexists p, old, _. cbn [calc]. unfold LPF_Calc2. rewrite Hp, Hcalc.
    cbn [mbind option_bind Size x2 Pt2 LPFSum2].
    repeat split; try done; try lia.
    + cbn [x2]. apply take_store_far. lia.
    + cbn [x2]. by rewrite !length_insert.
    + by intros [] ?.
  - destruct (two_copies_calc_in_service (Size st) (x3 st) p (LPFSum3 st) v)
      as (old & Hold & Hcalc); [done | lia | done |].
    eexists p, old, _. cbn [calc]. unfold LPF_Calc3. rewrite Hp, Hcalc.
    cbn [mbind option_bind Size x3 Pt3 LPFSum3].
    repeat split; try done; try lia.
    + cbn [x3]. apply take_store_far. lia.
    + cbn [x3]. by rewrite !length_insert.
    + by intros [] ?.
Qed.

(** Unfold the views of a channel on an explicit record of globals. *)
Ltac simpl_own :=
  unfold window, array, position, total, cap;
  cbn [own fst snd Size x I1 LPFSum x2 Pt2 LPFSum2 x3 Pt3 LPFSum3].

(** Initialisation puts a channel in service, for any depth from 1 on. *)
Lemma init_in_service (c : Channel) (st : Filters) (initial size : Z) :
  length (array c st) = 1024%nat -> 1 <= size ->
  in_service c (init c st initial size) /\
  Size (init c st initial size) = Z.min size (cap c) /\
  window c (init c st initial size) =
    replicate (Z.to_nat (Z.min size (cap c))) initial.
Proof.
  intros Hlen Hsize.
  assert (forall k, (if size >? k then k else size) = Z.min size k) as Hclamp.
  { intros k. rewrite Z.gtb_ltb. destruct (Z.ltb_spec k size); lia. }
  destruct c; unfold window, array, position, total, cap in *;
    cbn [init own fst snd] in *;
    unfold LPF_Init, LPF_Init2, LPF_Init3;
    cbn [Size x I1 LPFSum x2 Pt2 LPFSum2 x3 Pt3 LPFSum3 own fst snd];
    rewrite !Hclamp.
  - assert (take (Z.to_nat (size `min` 1024))
                 (fill (x st) 0 (Z.to_nat (size `min` 1024)) initial) =
            replicate (Z.to_nat (size `min` 1024)) initial) as Hw
        by (apply take_fill; lia).
    split; [|done]. split; simpl_own.
    + by rewrite length_fill.
    + lia.
    + eexists. split; [done|]. rewrite uint32_small; lia.
    + rewrite Hw, sumZ_replicate. f_equal. lia.
  - rewrite (uint32_small (2 * _)) by lia.
    assert (take (Z.to_nat (size `min` 512))
                 (fill (x2 st) 0 (Z.to_nat (2 * size `min` 512)) initial) =
            replicate (Z.to_nat (size `min` 512)) initial) as Hw
        by (apply take_fill; lia).
    split; [|done]. split; simpl_own.
    + by rewrite length_fill.
    + lia.
    + eexists. split; [done|]. lia.
    + rewrite Hw, sumZ_replicate. f_equal. lia.
  - rewrite (uint32_small (2 * _)) by lia.
    assert (take (Z.to_nat (size `min` 512))
                 (fill (x3 st) 0 (Z.to_nat (2 * size `min` 512)) initial) =
            replicate (Z.to_nat (size `min` 512)) initial) as Hw
        by (apply take_fill; lia).
    split; [|done]. split; simpl_own.
    + by rewrite length_fill.
    + lia.
    + eexists. split; [done|]. lia.
    + rewrite Hw, sumZ_replicate. f_equal. lia.
Qed.

(** An update keeps a channel in service. *)
Lemma calc_preserves_service (c : Channel) (st : Filters) (v : Z) :
  in_service c st ->
  exists y st' p,
    calc c st v = Some (y, st') /\ in_service c st' /\
    Size st' = Size st /\
    position c st = Some p /\
    position c st' = Some ((p - 1) `mod` Size st) /\
    y = total c st' `div` Size st'.
Proof.
  intros Hinv.
  destruct (calc_in_service c st v Hinv)
    as (p & old & st' & Hp & Hold & Hi & Hcalc & HSize & Hp' & Htot & Hwin
        & Hlen & _).
  exists (uint32 (uint32 (total c st + v) - old) `div` Size st), st', p.
  split; [done|]. split.
  { split.
    - done.
    - rewrite HSize. apply Hinv.
    - exists ((p - 1) `mod` Size st). by rewrite HSize.
    - rewrite Htot, Hwin. rewrite (service_sum c st Hinv), uint32_sum_step.
      f_equal. symmetry. apply sumZ_take_insert; [lia | done]. }
  repeat split; try done. by rewrite Htot, HSize.
Qed.

(** Without wrap-around the sum is exact and the output is a mean. *)
Lemma output_between_min_max (c : Channel) (st : Filters) :
  in_service c st ->
  0 <= sumZ (window c st) < 2 ^ 32 ->
  total c st = sumZ (window c st) /\
  list_min (window c st) <= total c st `div` Size st <= list_max (window c st).
Proof.
  intros Hinv Hfit.
  assert (total c st = sumZ (window c st)) as Htot
      by (rewrite (service_sum c st Hinv); by apply uint32_small).
  split; [done|]. rewrite Htot.
  pose proof (service_depth c st Hinv) as Hd.
  pose proof (service_length c st Hinv) as Hl.
  assert (length (window c st) = Z.to_nat (Size st)) as Hlen.
  { unfold window. rewrite length_take_le; [done|].
    unfold cap in Hd. destruct c; lia. }
  assert (window c st <> []) as Hne.
  { intros Hnil. rewrite Hnil in Hlen. simpl in Hlen. lia. }
  pose proof (mean_between_min_max _ Hne) as Hm.
  rewrite Hlen, Z2Nat.id in Hm by lia. done.
Qed.

(** Samples below 2^22, such as the 14-bit readings of the converter,
    cannot make the sum of a window wrap. *)
Lemma window_sum_fits (c : Channel) (st : Filters) :
  in_service c st ->
  (forall v, v ∈ window c st -> 0 <= v < 2 ^ 22) ->
  0 <= sumZ (window c st) < 2 ^ 32.
Proof.
  intros Hinv Hsmall.
  pose proof (service_depth c st Hinv) as Hd.
  assert (Z.of_nat (length (window c st)) <= 1024) as Hlen.
  { unfold window. rewrite length_take. unfold cap in Hd. destruct c; lia. }
  pose proof (sumZ_bounds 0 (2 ^ 22 - 1) (window c st)) as [Hlo Hhi].
  { intros v Hv. specialize (Hsmall v Hv). lia. }
  nia.
Qed.

(** An update of another channel changes nothing a channel in service
    depends on. *)
Lemma calc_other_channel (c c' : Channel) (st st' : Filters) (v y : Z) :
  in_service c st -> c' <> c -> calc c' st v = Some (y, st') ->
  in_service c st' /\ window c st' = window c st.
Proof.
  intros [Hlen Hsize Hpos Hsum] Hne Hcalc.
  assert (own c st' = own c st /\ Size st' = Size st) as [Hown HSize].
  { destruct c'; cbn [calc] in Hcalc;
      unfold LPF_Calc, LPF_Calc2, LPF_Calc3, two_copies_calc in Hcalc;
      simplify_option_eq; destruct c; done. }
  unfold window, array, position, total in *. rewrite Hown, HSize.
  split; [|done]. split; unfold window, array, position, total;
    by rewrite ?Hown, ?HSize.
Qed.

(** Nor does the initialisation of another channel that stores the depth
    already in force. *)
Lemma init_other_channel (c c' : Channel) (st : Filters) (initial size : Z) :
  in_service c st -> c' <> c ->
  Size (init c' st initial size) = Size st ->
  in_service c (init c' st initial size) /\
  window c (init c' st initial size) = window c st.
Proof.
  intros [Hlen Hsize Hpos Hsum] Hne HSize.
  assert (own c (init c' st initial size) = own c st) as Hown
      by (by destruct c', c).
  unfold window, array, position, total in *. rewrite Hown, HSize.
  split; [|done]. split; unfold window, array, position, total;
    by rewrite ?Hown, ?HSize.
Qed.

(** C7, counterexample.  Depth 2 primed with 2^31: the running sum is 0
    while the two cells of the window add up to 2^32, and the next update
    with 2^31 returns 0, below every sample in the window. *)
Lemma C7_counterexample_wrapped_sum :
  let st := LPF_Init at_reset (2 ^ 31) 2 in
  window Ch1 st = [2 ^ 31; 2 ^ 31] /\
  LPFSum st = 0 /\ sumZ (window Ch1 st) = 2 ^ 32 /\
  exists st', LPF_Calc st (2 ^ 31) = Some (0, st') /\
              window Ch1 st' = [2 ^ 31; 2 ^ 31] /\
              LPFSum st' <> sumZ (window Ch1 st') /\
              ~ (list_min (window Ch1 st') <= 0).
Proof.
  cbv zeta. split; [by vm_compute|]. split; [by vm_compute|].
  split; [by vm_compute|].
  eexists. split; [by vm_compute|].
  split; [by vm_compute|]. split; by vm_compute.
Qed.

(** C7, as amended.  Initialisation with a depth from 1 on puts a channel
    in service, where its sum equals the sum of its window modulo 2^32; an
    update of a channel in service returns, keeps it in service, moves the
    index one step back modulo the depth and outputs the sum divided by
    the depth; when the sum of the window is below 2^32 (in particular
    when all its samples are below 2^22) the running sum is that sum
    exactly and the output lies between the minimum and the maximum of the
    window.  An update of another channel keeps the channel in service,
    and so does an initialisation of another channel that leaves the depth
    as it is. *)
Theorem C7_running_sum_invariant (c : Channel) (st : Filters) (v : Z) :
  (forall initial size,
     length (array c st) = 1024%nat -> 1 <= size ->
     in_service c (init c st initial size)) /\
  (in_service c st ->
   total c st = uint32 (sumZ (window c st)) /\
   exists y st' p,
    calc c st v = Some (y, st') /\
    in_service c st' /\
    total c st' = uint32 (sumZ (window c st')) /\
    position c st = Some p /\
    position c st' = Some ((p - 1) `mod` Size st) /\
    y = total c st' `div` Size st' /\
    (0 <= sumZ (window c st') < 2 ^ 32 ->
     total c st' = sumZ (window c st') /\
     list_min (window c st') <= y <= list_max (window c st')) /\
    ((forall s, s ∈ window c st' -> 0 <= s < 2 ^ 22) ->
     total c st' = sumZ (window c st') /\
     list_min (window c st') <= y <= list_max (window c st'))) /\
  (forall c' y st',
     in_service c st -> c' <> c -> calc c' st v = Some (y, st') ->
     in_service c st' /\ window c st' = window c st) /\
  (forall c' initial size,
     in_service c st -> c' <> c ->
     Size (init c' st initial size) = Size st ->
     in_service c (init c' st initial size) /\
     window c (init c' st initial size) = window c st).
Proof.
  split; [|split; [intros Hinv; split|split]].
  - intros initial size Hlen Hsize. by apply init_in_service.
  - apply Hinv.
  - destruct (calc_preserves_service c st v Hinv)
      as (y & st' & p & Hcalc & Hinv' & HSize & Hp & Hp' & Hy).
    exists y, st', p.
    split; [done|]. split; [done|]. split; [apply Hinv'|].
    split; [done|]. split; [done|]. split; [done|]. rewrite Hy. split.
    + intros Hfit. by apply output_between_min_max.
    + intros Hsmall. apply output_between_min_max; [done|].
      by apply window_sum_fits.
  - intros c' y st' Hinv Hne Hcalc. by apply (calc_other_channel c c' st st' v y).
  - intros c' initial size Hinv Hne HSize. by apply init_other_channel.
Qed.

Lemma C7_running_sum_invariant_witness :
  let st := init Ch2 at_reset 100 4 in
  in_service Ch2 st /\
  exists st', calc Ch2 st 200 = Some (125, st') /\
              total Ch2 st' = 500 /\ sumZ (window Ch2 st') = 500 /\
              list_min (window Ch2 st') <= 125 <= list_max (window Ch2 st').
Proof.
  cbv zeta.
  assert (in_service Ch2 (init Ch2 at_reset 100 4)) as Hs.
  { apply (proj1 (C7_running_sum_invariant Ch2 at_reset 0)); [reflexivity | lia]. }
  split; [exact Hs|].
  destruct (proj1 (proj2 (C7_running_sum_invariant Ch2 (init Ch2 at_reset 100 4) 200)) Hs)
    as (_ & y & st' & p & Hcalc & _ & _ & _ & _ & _ & Hfit & _).
  vm_compute in Hcalc. injection Hcalc as <- <-.
  eexists. split; [vm_compute; reflexivity|].
  destruct Hfit as [Ht Hb]; [vm_compute; split; [discriminate | reflexivity]|].
  split; [vm_compute; reflexivity|]. split; [vm_compute; reflexivity|].
  exact Hb.
Defined.

(** ** Filters: the window seen by an update *)

Lemma sumZ_insert (l : list Z) (p : nat) (v old : Z) :
  l !! p = Some old -> sumZ (<[p := v]> l) = sumZ l - old + v.
Proof.
  revert p. induction l as [|h l IH]; intros p Hold; [done|].
  destruct p as [|p]; simpl in *.
  - injection Hold as ->. unfold sumZ. simpl. lia.
  - unfold sumZ in *. simpl. rewrite (IH p) by done. lia.
Qed.

Lemma length_window (c : Channel) (st : Filters) :
  in_service c st -> length (window c st) = Z.to_nat (Size st).
Proof.
  intros Hinv. pose proof (service_depth c st Hinv) as Hd.
  pose proof (service_length c st Hinv) as Hl.
  unfold window. rewrite length_take_le; [done|].
  unfold cap in Hd. destruct c; lia.
Qed.

(** An update in terms of the window alone. *)
Lemma calc_window (c : Channel) (st : Filters) (v : Z) :
  in_service c st ->
  exists p old st',
    position c st = Some p /\
    0 <= (p - 1) `mod` Size st < Size st /\
    window c st !! Z.to_nat ((p - 1) `mod` Size st) = Some old /\
    calc c st v =
      Some (uint32 (sumZ (window c st) - old + v) `div` Size st, st') /\
    in_service c st' /\
    Size st' = Size st /\
    position c st' = Some ((p - 1) `mod` Size st) /\
    window c st' = <[Z.to_nat ((p - 1) `mod` Size st) := v]> (window c st) /\
    (forall c', c' <> c -> own c' st' = own c' st).
Proof.
  intros Hinv.
  destruct (calc_in_service c st v Hinv)
    as (p & old & st' & Hp & Hold & Hi & Hcalc & HSize & Hp' & Htot & Hwin
        & Hlen & Hframe).
  destruct (calc_preserves_service c st v Hinv)
    as (y & st2 & p2 & Hcalc2 & Hinv2 & _).
  rewrite Hcalc in Hcalc2. injection Hcalc2 as <- <-.
  exists p, old, st'.
  assert (uint32 (uint32 (total c st + v) - old) =
          uint32 (sumZ (window c st) - old + v)) as Hsum
      by (rewrite (service_sum c st Hinv); apply uint32_sum_step).
  rewrite Hsum in Hcalc.
  split; [done|]. split; [done|]. split.
  { unfold window. rewrite lookup_take_lt by lia. done. }
  split; [done|]. split; [done|]. split; [done|]. split; [done|].
  split; [|done].
  rewrite Hwin. unfold window. apply take_insert_lt. lia.
Qed.

(** ** Filters: constant input *)

Ltac zbool :=
  repeat match goal with
         | |- context [?a <? ?b] => destruct (Z.ltb_spec a b)
         | |- context [?a =? ?b] => destruct (Z.eqb_spec a b)
         end; simpl.

Lemma mod_minus_one (n : Z) : 1 <= n -> (-1) `mod` n = n - 1.
Proof.
  intros Hn. replace (-1) with (n - 1 + (-1) * n) by lia.
  rewrite Z.mod_add by lia. apply Z.mod_small. lia.
Qed.

(** The cell an update overwrites, by the number of updates made. *)
Lemma stepped_target (V k : Z) (st : Filters) :
  0 <= k -> stepped V k st ->
  let n := Size st in
  let i := (I1 st - 1) `mod` n in
  1 <= n /\ 0 <= i < n /\
  (k + 1 < n -> i = n - 2 - k) /\
  (k + 1 = n -> i = n - 1) /\
  unwritten n k i = (k <? n) /\
  unwritten n (k + 1) i = false /\
  (forall j, 0 <= j < n -> j <> i ->
             unwritten n (k + 1) j = unwritten n k j).
Proof.
  intros Hk [Hinv Hidx Hsum Hcells] n i.
  pose proof (service_depth _ _ Hinv) as Hn. fold n in Hn, Hidx.
  assert (0 <= i < n) as Hi by (apply Z.mod_pos_bound; lia).
  assert (k + 1 < n -> i = n - 2 - k) as H1.
  { intros Hlt. unfold i. rewrite Hidx by lia.
    replace (n - 1 - k - 1) with (n - 2 - k) by lia.
    apply Z.mod_small. lia. }
  assert (k + 1 = n -> i = n - 1) as H2.
  { intros Heq. unfold i. rewrite Hidx by lia.
    replace (n - 1 - k - 1) with (-1) by lia. apply mod_minus_one. lia. }
  split; [lia|]. split; [done|]. split; [done|]. split; [done|].
  unfold unwritten.
  destruct (Z.lt_trichotomy (k + 1) n) as [Hlt|[Heq|Hgt]].
  - specialize (H1 Hlt). split; [|split].
    + zbool; lia.
    + zbool; lia.
    + intros j Hj Hne. zbool; lia.
  - specialize (H2 Heq). split; [|split].
    + zbool; lia.
    + zbool; lia.
    + intros j Hj Hne. zbool; lia.
  - split; [|split].
    + zbool; lia.
    + zbool; lia.
    + intros j Hj Hne. zbool; lia.
Qed.

(** One more update with [V]. *)
Lemma stepped_step (V k : Z) (st : Filters) :
  0 <= k -> 0 <= V -> Size st * V < 2 ^ 32 -> stepped V k st ->
  exists st',
    LPF_Calc st V =
      Some ((Z.min (k + 1) (Size st) * V) `div` Size st, st') /\
    stepped V (k + 1) st' /\ Size st' = Size st.
Proof.
  intros Hk HV Hfit Hst.
  destruct (stepped_target V k st Hk Hst)
    as (Hn & Hi & Hi1 & Hi2 & Hold_cell & Hnew_cell & Hother).
  destruct Hst as [Hinv Hidx Hsum Hcells].
  destruct (calc_window Ch1 st V Hinv)
    as (p & old & st' & Hp & _ & Hold & Hcalc & Hinv' & HSize & Hp' & Hwin & _).
  change (position Ch1 st) with (Some (I1 st)) in Hp. injection Hp as <-.
  change (position Ch1 st') with (Some (I1 st')) in Hp'.
  injection Hp' as Hp'.
  change (calc Ch1 st V) with (LPF_Calc st V) in Hcalc.
  set (n := Size st) in *. set (i := (I1 st - 1) `mod` n) in *.
  rewrite (Hcells i Hi), Hold_cell in Hold. injection Hold as Hold.
  assert (sumZ (window Ch1 st) - old + V = Z.min (k + 1) n * V) as Hnext.
  { rewrite Hsum. subst old. destruct (Z.ltb_spec k n); lia. }
  assert (0 <= Z.min (k + 1) n * V < 2 ^ 32) as Hsmall by nia.
  rewrite Hnext, (uint32_small _ Hsmall) in Hcalc.
  exists st'. split; [done|]. split; [|done]. split.
  - done.
  - rewrite HSize, Hp'. fold n i. intros Hlt. rewrite Hi1; lia.
  - rewrite HSize, Hwin. fold n i. rewrite <- Hnext.
    apply sumZ_insert. rewrite (Hcells i Hi), Hold_cell. by rewrite Hold.
  - rewrite HSize, Hwin. fold n i. intros j Hj.
    destruct (decide (j = i)) as [->|Hne].
    + rewrite list_lookup_insert_eq
        by (rewrite length_window by done; fold n; lia).
      by rewrite Hnew_cell.
    + rewrite list_lookup_insert_ne by lia.
      rewrite (Hother j Hj Hne). by apply Hcells.
Qed.

Lemma step_response_S (n V k : Z) (m : nat) :
  step_response n V k (S m) =
  (Z.min (k + 1) n * V) `div` n :: step_response n V (k + 1) m.
Proof.
  unfold step_response. cbn [seq fmap list_fmap]. f_equal.
  - do 3 f_equal. lia.
  - rewrite <- fmap_S_seq, <- list_fmap_compose.
    apply list_fmap_ext. intros _ j _. simpl. do 3 f_equal. lia.
Qed.

(** Any number of updates with [V]. *)
Lemma stepped_run (V : Z) (m : nat) :
  forall (k : Z) (st : Filters),
    0 <= k -> 0 <= V -> Size st * V < 2 ^ 32 -> stepped V k st ->
    exists st',
      LPF_Calc_run st (replicate m V) =
        Some (step_response (Size st) V k m, st') /\
      stepped V (k + Z.of_nat m) st' /\ Size st' = Size st.
Proof.
  induction m as [|m IH]; intros k st Hk HV Hfit Hst.
  - exists st. split; [done|]. split; [|done]. by rewrite Z.add_0_r.
  - destruct (stepped_step V k st Hk HV Hfit Hst) as (st1 & Hcalc & Hst1 & HS1).
    destruct (IH (k + 1) st1) as (st2 & Hrun & Hst2 & HS2);
      [lia | done | by rewrite HS1 | done |].
    exists st2. split; [|split].
    + cbn [replicate LPF_Calc_run]. rewrite Hcalc. cbn [mbind option_bind].
      rewrite Hrun. cbn [mbind option_bind]. rewrite HS1.
      by rewrite step_response_S.
    + replace (k + Z.of_nat (S m)) with (k + 1 + Z.of_nat m) by lia. done.
    + by rewrite HS2.
Qed.

Lemma lookup_step_response (n V k : Z) (m j : nat) :
  (j < m)%nat ->
  step_response n V k m !! j =
  Some ((Z.min (k + 1 + Z.of_nat j) n * V) `div` n).
Proof.
  intros Hj. unfold step_response. rewrite list_lookup_fmap.
  rewrite (proj2 (lookup_seq 0 m j j)); [done|]. split; [done | lia].
Qed.

Lemma length_step_response (n V k : Z) (m : nat) :
  length (step_response n V k m) = m.
Proof. unfold step_response. by rewrite length_fmap, length_seq. Qed.

(** From the depth on, the response is the input. *)
Lemma step_response_steady (n V k : Z) (m : nat) :
  1 <= n -> n <= k -> step_response n V k m = replicate m V.
Proof.
  intros Hn Hk. apply list_eq. intros j.
  destruct (decide (j < m)%nat) as [Hj|Hj].
  - rewrite lookup_step_response, lookup_replicate_2 by done.
    rewrite Z.min_r by lia. f_equal. rewrite Z.mul_comm. apply Z.div_mul. lia.
  - rewrite (proj1 (lookup_replicate_None m V j)) by lia.
    apply lookup_ge_None. rewrite length_step_response. lia.
Qed.

(** The state [LPF_Init] leaves, as a stage of the constant-input run:
    with a seed equal to the input, the window is already full of it. *)
Lemma LPF_Init_primed (st : Filters) (seed depth k : Z) :
  length (x st) = 1024%nat -> 1 <= depth -> Z.min depth 1024 <= k ->
  stepped seed k (LPF_Init st seed depth) /\
  Size (LPF_Init st seed depth) = Z.min depth 1024.
Proof.
  intros Hlen Hd Hk.
  destruct (init_in_service Ch1 st seed depth Hlen Hd) as (Hinv & HSize & Hwin).
  change (init Ch1 st seed depth) with (LPF_Init st seed depth) in *.
  change (cap Ch1) with 1024 in *.
  split; [|done]. split.
  - done.
  - rewrite HSize. lia.
  - rewrite Hwin, HSize, sumZ_replicate. lia.
  - rewrite Hwin, HSize. intros i Hi.
    rewrite lookup_replicate_2 by lia. unfold unwritten.
    destruct (Z.ltb_spec k (Z.min depth 1024)); [lia | done].
Qed.

(** With seed 0, no cell has been written yet. *)
Lemma LPF_Init_zero (st : Filters) (V depth : Z) :
  length (x st) = 1024%nat -> 1 <= depth ->
  stepped V 0 (LPF_Init st 0 depth) /\
  Size (LPF_Init st 0 depth) = Z.min depth 1024.
Proof.
  intros Hlen Hd.
  destruct (init_in_service Ch1 st 0 depth Hlen Hd) as (Hinv & HSize & Hwin).
  change (init Ch1 st 0 depth) with (LPF_Init st 0 depth) in *.
  change (cap Ch1) with 1024 in *.
  split; [|done]. split.
  - done.
  - intros _. rewrite HSize.
    unfold LPF_Init. cbn [I1]. rewrite Z.gtb_ltb.
    destruct (Z.ltb_spec 1024 depth); rewrite uint32_small; lia.
  - rewrite Hwin, HSize, sumZ_replicate. lia.
  - rewrite Hwin, HSize. intros i Hi.
    rewrite lookup_replicate_2 by lia. unfold unwritten. zbool; done || lia.
Qed.

(** C5, counterexample.  Depth 2 and seed 2^31: both updates with the
    seed return 0. *)
Lemma C5_counterexample_large_seed :
  exists st',
    LPF_Calc_run (LPF_Init at_reset (2 ^ 31) 2) [2 ^ 31; 2 ^ 31] =
      Some ([0; 0], st') /\
    [0; 0] <> [2 ^ 31; 2 ^ 31].
Proof. eexists. split; [by vm_compute | discriminate]. Qed.

(** C5, as amended.  For a depth N from 2 on, clamped to 1024, and a seed
    whose product with the clamped depth is below 2^32: after
    [LPF_Init(seed, N)] each of N consecutive updates with the seed
    returns the seed. *)
Theorem C5_constant_seed_fixed_point (st : Filters) (seed depth : Z) :
  length (x st) = 1024%nat -> 0 <= seed -> 2 <= depth ->
  Z.min depth 1024 * seed < 2 ^ 32 ->
  Size (LPF_Init st seed depth) = Z.min depth 1024 /\
  exists st',
    LPF_Calc_run (LPF_Init st seed depth) (replicate (Z.to_nat depth) seed) =
      Some (replicate (Z.to_nat depth) seed, st').
Proof.
  intros Hlen Hseed Hdepth Hfit.
  destruct (LPF_Init_primed st seed depth (Z.min depth 1024) Hlen)
    as [Hst HSize]; [lia | lia |].
  split; [done|].
  destruct (stepped_run seed (Z.to_nat depth) (Z.min depth 1024)
                        (LPF_Init st seed depth))
    as (st' & Hrun & _); [lia | done | by rewrite HSize | done |].
  exists st'. rewrite Hrun, HSize.
  by rewrite step_response_steady by lia.
Qed.

Lemma C5_constant_seed_fixed_point_witness :
  exists st',
    LPF_Calc_run (LPF_Init at_reset 9000 64) (replicate 64 9000) =
      Some (replicate 64 9000, st').
Proof.
  apply (C5_constant_seed_fixed_point at_reset 9000 64);
    [reflexivity | lia | lia | vm_compute; reflexivity].
Defined.

(** C6, counterexample.  Depth 2, seed 0, input 2^31: the outputs are
    2^30 and then 0, neither ending at the input nor non-decreasing. *)
Lemma C6_counterexample_large_input :
  exists st',
    LPF_Calc_run (LPF_Init at_reset 0 2) [2 ^ 31; 2 ^ 31] =
      Some ([2 ^ 30; 0], st') /\
    0 <> 2 ^ 31 /\ ~ (2 ^ 30 <= 0).
Proof. eexists. split; [by vm_compute | split; lia]. Qed.

(** C6, as amended.  For a depth N from 2 on, clamped to 1024, and an
    input V > 0 whose product with the clamped depth is below 2^32: after
    [LPF_Init(0, N)], N consecutive updates with V return a non-decreasing
    sequence of outputs whose N-th element is V. *)
Theorem C6_step_input_converges (st : Filters) (V depth : Z) :
  length (x st) = 1024%nat -> 0 < V -> 2 <= depth ->
  Z.min depth 1024 * V < 2 ^ 32 ->
  exists outs st',
    LPF_Calc_run (LPF_Init st 0 depth) (replicate (Z.to_nat depth) V) =
      Some (outs, st') /\
    length outs = Z.to_nat depth /\
    outs !! (Z.to_nat depth - 1)%nat = Some V /\
    (forall (i j : nat) (a b : Z),
       (i <= j)%nat -> outs !! i = Some a -> outs !! j = Some b -> a <= b).
Proof.
  intros Hlen HV Hdepth Hfit.
  destruct (LPF_Init_zero st V depth Hlen) as [Hst HSize]; [lia|].
  destruct (stepped_run V (Z.to_nat depth) 0 (LPF_Init st 0 depth))
    as (st' & Hrun & _); [lia | lia | by rewrite HSize | done |].
  rewrite HSize in Hrun. set (n := Z.min depth 1024) in *.
  exists (step_response n V 0 (Z.to_nat depth)), st'.
  split; [done|]. split; [apply length_step_response|]. split.
  - rewrite lookup_step_response by lia.
    replace (0 + 1 + Z.of_nat (Z.to_nat depth - 1)) with depth by lia.
    f_equal. replace (Z.min depth n) with n by lia.
    rewrite Z.mul_comm. apply Z.div_mul. lia.
  - intros i j a b Hij Ha Hb.
    assert (j < Z.to_nat depth)%nat as Hj.
    { apply lookup_lt_Some in Hb. by rewrite length_step_response in Hb. }
    rewrite lookup_step_response in Ha by lia.
    rewrite lookup_step_response in Hb by lia.
    injection Ha as <-. injection Hb as <-.
    apply Z.div_le_mono; [lia|]. apply Z.mul_le_mono_nonneg_r; lia.
Qed.

Lemma C6_step_input_converges_witness :
  exists outs st',
    LPF_Calc_run (LPF_Init at_reset 0 4) (replicate 4 10) = Some (outs, st') /\
    length outs = 4%nat /\ outs !! 3%nat = Some 10.
Proof.
  destruct (C6_step_input_converges at_reset 10 4)
    as (outs & st' & Hrun & Hlen & Hlast & _);
    [reflexivity | lia | lia | vm_compute; reflexivity |].
  exists outs, st'. split; [exact Hrun|]. split; [exact Hlen | exact Hlast].
Defined.

(** ** Filters: the three channels side by side *)

(** What a call leaves untouched: everything the other channels own.
    [Size] is left alone by an update and overwritten by an [Init]. *)
Lemma exec_frame (c : Channel) (st st' : Filters) (k : Call) (o : option Z) :
  channel_of k <> c -> exec st k = Some (o, st') ->
  own c st' = own c st /\
  Size st' = default (Size st) (depth_set k).
Proof.
  intros Hne Hexec.
  destruct k as [ch initial size|ch v]; destruct ch; cbn [exec] in Hexec;
    unfold LPF_Calc, LPF_Calc2, LPF_Calc3, two_copies_calc in Hexec;
    simplify_option_eq; destruct c; done.
Qed.

(** A call on channel [c] reads nothing but [Size] and what [c] owns. *)
Lemma exec_same_view (c : Channel) (s1 s2 s1' : Filters) (k : Call)
    (o : option Z) :
  channel_of k = c -> Size s1 = Size s2 -> own c s1 = own c s2 ->
  exec s1 k = Some (o, s1') ->
  exists s2', exec s2 k = Some (o, s2') /\
              Size s2' = Size s1' /\ own c s2' = own c s1' /\
              Size s1' = default (Size s1) (depth_set k).
Proof.
  intros Hc HSize Hown Hexec.
  destruct s1, s2. cbn [Size] in HSize. subst.
  destruct k as [ch initial size|ch v]; destruct ch; cbn [channel_of own] in *;
    cbn [exec] in *;
    unfold LPF_Calc, LPF_Calc2, LPF_Calc3, two_copies_calc in *;
    cbn [Size x I1 LPFSum x2 Pt2 LPFSum2 x3 Pt3 LPFSum3] in *;
    simplify_option_eq; eexists; (split; [reflexivity|]); done.
Qed.

(** A run seen from channel [c]: dropping the calls on the other
    channels changes neither the outputs of [c] nor what [c] ends with,
    as long as their [Init] calls keep the depth. *)
Lemma exec_all_project (c : Channel) (ks : list Call) :
  forall (s1 s2 s1' : Filters) (outs : list (Channel * Z)),
    Size s1 = Size s2 -> own c s1 = own c s2 ->
    depth_kept c (Size s1) ks ->
    exec_all s1 ks = Some (outs, s1') ->
    exists s2',
      exec_all s2 (calls_on c ks) = Some (outputs_of c outs, s2') /\
      Size s2' = Size s1' /\ own c s2' = own c s1'.
Proof.
  induction ks as [|k ks IH]; intros s1 s2 s1' outs HSize Hown Hkept Hrun.
  - injection Hrun as <- <-. exists s2. done.
  - cbn [exec_all] in Hrun.
    destruct (exec s1 k) as [[o s1a]|] eqn:Hexec; [|done].
    cbn [mbind option_bind] in Hrun.
    destruct (exec_all s1a ks) as [[os s1b]|] eqn:Hrest; [|done].
    cbn [mbind option_bind] in Hrun. injection Hrun as <- <-.
    unfold calls_on, outputs_of in *.
    destruct (decide (channel_of k = c)) as [Hc|Hc].
    + destruct (exec_same_view c s1 s2 s1a k o Hc HSize Hown Hexec)
        as (s2a & Hexec2 & HSize2 & Hown2 & Hd).
      destruct (IH s1a s2a s1b os) as (s2b & Hrun2 & HSizeb & Hownb);
        [done | done | | done |].
      { cbn [depth_kept] in Hkept. rewrite Hd.
        destruct (depth_set k); [apply Hkept | done]. }
      exists s2b. split; [|done].
      rewrite filter_cons_True by done. cbn [exec_all].
      rewrite Hexec2. cbn [mbind option_bind]. rewrite Hrun2.
      cbn [mbind option_bind]. destruct o; [|done].
      by rewrite filter_cons_True by done.
    + destruct (exec_frame c s1 s1a k o Hc Hexec) as [Hown1 Hd].
      assert (Size s1a = Size s1 /\ depth_kept c (Size s1a) ks) as [HS Hk'].
      { cbn [depth_kept] in Hkept. rewrite Hd.
        destruct (depth_set k); cbn [default].
        - destruct Hkept as [[Hch|Heq] Hk]; [done | by subst].
        - done. }
      destruct (IH s1a s2 s1b os) as (s2b & Hrun2 & HSizeb & Hownb);
        [congruence | congruence | done | done |].
      exists s2b. split; [|done].
      rewrite filter_cons_False by done. rewrite Hrun2.
      destruct o; [|done]. by rewrite filter_cons_False by done.
Qed.

(** C8, counterexample.  [LPF_Init2] overwrites [Size], the depth of the
    first channel: primed with 10 at depth 4, the first channel answers an
    update with 10 by 10, and by 20 once the second channel has been
    initialised with depth 2 in between. *)
Lemma C8_counterexample_shared_size :
  let st := LPF_Init at_reset 10 4 in
  Size st = 4 /\ Size (LPF_Init2 st 0 2) = 2 /\
  own Ch1 (LPF_Init2 st 0 2) = own Ch1 st /\
  fst <$> LPF_Calc st 10 = Some 10 /\
  fst <$> LPF_Calc (LPF_Init2 st 0 2) 10 = Some 20.
Proof. cbv zeta. repeat split; by vm_compute. Qed.

(** C8, as amended.  Each channel owns its array, its index or pointer
    and its running sum, and no call on another channel changes them; an
    update on another channel leaves the depth [Size] alone as well.
    [Size] is one variable for the three channels, which [Init] on any
    channel overwrites with its clamped argument.  Hence in any run in
    which the [Init] calls on the other channels store the depth already
    in force, the outputs of a channel, and what it ends with, are those of
    the run made of its own calls only. *)
Theorem C8_channels_share_only_depth (c : Channel) (st : Filters) :
  (forall c' v y st',
     c' <> c -> calc c' st v = Some (y, st') ->
     own c st' = own c st /\ Size st' = Size st) /\
  (forall c' initial size,
     c' <> c ->
     own c (init c' st initial size) = own c st /\
     Size (init c' st initial size) =
       (if size >? cap c' then cap c' else size)) /\
  (forall ks outs st',
     depth_kept c (Size st) ks ->
     exec_all st ks = Some (outs, st') ->
     exists st'',
       exec_all st (calls_on c ks) = Some (outputs_of c outs, st'') /\
       Size st'' = Size st' /\ own c st'' = own c st').
Proof.
  split; [|split].
  - intros c' v y st' Hne Hcalc.
    apply (exec_frame c st st' (Calc c' v) (Some y)); [done|].
    destruct c'; cbn [exec calc] in *; by rewrite Hcalc.
  - intros c' initial size Hne. by destruct c', c.
  - intros ks outs st' Hkept Hrun.
    by apply (exec_all_project c ks st st st' outs).
Qed.

Lemma C8_channels_share_only_depth_witness :
  let st := LPF_Init at_reset 5 4 in
  let ks := [Init Ch2 7 4; Calc Ch1 9; Init Ch3 9 4; Calc Ch2 11;
             Calc Ch3 1; Calc Ch1 13] in
  (exists st', calc Ch2 (LPF_Init2 st 7 4) 11 = Some (8, st') /\
               own Ch1 st' = own Ch1 st /\ Size st' = 4) /\
  exists st'', exec_all st [Calc Ch1 9; Calc Ch1 13] =
                 Some ([(Ch1, 6); (Ch1, 8)], st'').
Proof.
  cbv zeta. split.
  - destruct (calc Ch2 (LPF_Init2 (LPF_Init at_reset 5 4) 7 4) 11)
      as [[y st']|] eqn:Hcalc; [|by vm_compute in Hcalc].
    assert (y = 8) as -> by (vm_compute in Hcalc; congruence).
    exists st'. split; [reflexivity|].
    destruct (proj1 (C8_channels_share_only_depth Ch1
                       (LPF_Init2 (LPF_Init at_reset 5 4) 7 4))
                    Ch2 11 8 st') as [Hown HSize]; [discriminate | exact Hcalc |].
    split; [exact Hown | exact HSize].
  - destruct (exec_all (LPF_Init at_reset 5 4)
                [Init Ch2 7 4; Calc Ch1 9; Init Ch3 9 4; Calc Ch2 11;
                 Calc Ch3 1; Calc Ch1 13]) as [[outs st']|] eqn:Hrun;
      [|by vm_compute in Hrun].
    assert (outs = [(Ch1, 6); (Ch2, 8); (Ch3, 7); (Ch1, 8)]) as ->
        by (vm_compute in Hrun; congruence).
    destruct (proj2 (proj2 (C8_channels_share_only_depth Ch1
                              (LPF_Init at_reset 5 4)))
                [Init Ch2 7 4; Calc Ch1 9; Init Ch3 9 4; Calc Ch2 11;
                 Calc Ch3 1; Calc Ch1 13]
                [(Ch1, 6); (Ch2, 8); (Ch3, 7); (Ch1, 8)] st')
      as (st'' & Hproj & _); [| exact Hrun |].
    + vm_compute. repeat split; by right.
    + exists st''. exact Hproj.
Defined.

(** ** The square root *)

(** One turn of the loop without wrap-around or zero divisor: the mean of
    the guess and the quotient. *)
Lemma isqrt_step_mean (s t : Z) :
  0 <= s -> 1 <= t -> t * t + s < 2 ^ 32 ->
  isqrt_step s t = Some ((t + s `div` t) `div` 2).
Proof.
  intros Hs Ht Hfit. unfold isqrt_step.
  rewrite (uint32_small (t * t)) by nia.
  rewrite uint32_small by nia.
  rewrite udiv_Some by lia. cbn [mbind option_bind].
  rewrite Z.div_add_l by lia. reflexivity.
Qed.

(** The mean never falls below the integer square root. *)
Lemma mean_ge_sqrt (s t : Z) :
  0 <= s -> 1 <= t -> Z.sqrt s <= (t + s `div` t) `div` 2.
Proof.
  intros Hs Ht. pose proof (Z.sqrt_spec s Hs) as [Hlo Hhi].
  set (r := Z.sqrt s) in *. set (q := s `div` t).
  assert (t * q <= s < t * (q + 1)) as Hq.
  { unfold q. pose proof (Z.mul_div_le s t ltac:(lia)).
    pose proof (Z.mul_succ_div_gt s t ltac:(lia)). lia. }
  assert (2 * r <= t + q) as Hmean.
  { destruct (Z.le_gt_cases (2 * r) (t + q)) as [|Hlt]; [done|].
    exfalso.
    assert (t * (q + 1) <= t * (2 * r - t))
      by (apply Z.mul_le_mono_nonneg_l; lia).
    pose proof (Z.square_nonneg (r - t)). nia. }
  apply Z.div_le_lower_bound; lia.
Qed.

(** Above the square root the distance to it is at least halved. *)
Lemma mean_halves (s t : Z) :
  0 <= s -> Z.sqrt s + 1 <= t ->
  (t + s `div` t) `div` 2 - Z.sqrt s <= (t - Z.sqrt s) `div` 2.
Proof.
  intros Hs Ht. pose proof (Z.sqrt_spec s Hs) as [Hlo Hhi].
  pose proof (Z.sqrt_nonneg s) as Hr.
  set (r := Z.sqrt s) in *. set (q := s `div` t).
  assert (t * q <= s) as Hq by (unfold q; apply Z.mul_div_le; lia).
  assert (q <= r) as Hqr by nia.
  assert ((t + q) `div` 2 <= (t + r) `div` 2) by (apply Z.div_le_mono; lia).
  replace (t + r) with (t - r + r * 2) in H by lia.
  rewrite Z.div_add in H by lia. lia.
Qed.

(** At the square root or one above it, the loop stays there. *)
Lemma mean_near_sqrt (s t : Z) :
  1 <= s -> Z.sqrt s <= t <= Z.sqrt s + 1 ->
  Z.sqrt s <= (t + s `div` t) `div` 2 <= Z.sqrt s + 1.
Proof.
  intros Hs Ht.
  assert (0 < Z.sqrt s) as Hr by (apply Z.sqrt_pos; lia).
  split; [apply mean_ge_sqrt; lia|].
  destruct (Z.eq_dec t (Z.sqrt s)) as [->|Hne].
  - pose proof (Z.sqrt_spec s ltac:(lia)) as [Hlo Hhi].
    set (r := Z.sqrt s) in *.
    pose proof (Z.mul_div_le s r ltac:(lia)) as Hq.
    assert (s `div` r <= r + 2) as Hq' by nia.
    assert ((r + s `div` r) `div` 2 <= (r + (r + 2)) `div` 2) as Hm
        by (apply Z.div_le_mono; lia).
    replace (r + (r + 2)) with ((r + 1) * 2) in Hm by lia.
    rewrite Z.div_mul in Hm by lia. done.
  - pose proof (mean_halves s t ltac:(lia) ltac:(lia)) as Hh.
    replace (t - Z.sqrt s) with 1 in Hh by lia.
    change (1 `div` 2) with 0 in Hh. lia.
Qed.

(** Started at or above the square root, the loop ends within one of it
    once the turns outnumber the bits of the distance. *)
Lemma isqrt_loop_converges (s : Z) (n : nat) :
  forall t : Z,
    1 <= s <= 655309 -> Z.sqrt s <= t <= 65531 ->
    t <= Z.sqrt s + 1 \/ t - Z.sqrt s < 2 ^ Z.of_nat n ->
    exists r, isqrt_loop n s t = Some r /\ Z.sqrt s <= r <= Z.sqrt s + 1.
Proof.
  induction n as [|n IH]; intros t Hs Ht Hdist.
  - exists t. split; [done|]. change (2 ^ Z.of_nat 0) with 1 in Hdist. lia.
  - assert (0 < Z.sqrt s) as Hr by (apply Z.sqrt_pos; lia).
    assert (Z.sqrt s <= 809) as Hr'.
    { pose proof (Z.sqrt_spec s ltac:(lia)) as [Hlo _]. nia. }
    cbn [isqrt_loop].
    rewrite isqrt_step_mean by nia. cbn [mbind option_bind].
    apply IH; [done| |].
    + destruct (Z.le_gt_cases t (Z.sqrt s + 1)) as [Hnear|Hfar].
      * pose proof (mean_near_sqrt s t ltac:(lia) ltac:(lia)). lia.
      * pose proof (mean_ge_sqrt s t ltac:(lia) ltac:(lia)).
        pose proof (mean_halves s t ltac:(lia) ltac:(lia)).
        assert ((t - Z.sqrt s) `div` 2 <= t - Z.sqrt s)
          by (apply Z.div_le_upper_bound; lia).
        lia.
    + destruct (Z.le_gt_cases t (Z.sqrt s + 1)) as [Hnear|Hfar].
      * left. pose proof (mean_near_sqrt s t ltac:(lia) ltac:(lia)). lia.
      * right. destruct Hdist as [|Hdist]; [lia|].
        pose proof (mean_halves s t ltac:(lia) ltac:(lia)).
        rewrite Nat2Z.inj_succ, Z.pow_succ_r in Hdist by lia.
        assert ((t - Z.sqrt s) `div` 2 < 2 ^ Z.of_nat n)
          by (apply Z.div_lt_upper_bound; lia).
        lia.
Qed.

Lemma isqrt_small_arguments :
  forallb isqrt_within_one (seqZ 1 120) = true.
Proof. vm_compute. reflexivity. Qed.

(** Where no square overflows, from 1 to 655309, [isqrt] returns the
    integer square root or one more. *)
Lemma isqrt_correct_below_overflow (s : Z) :
  1 <= s <= 655309 ->
  exists r, isqrt s = Some r /\ Z.sqrt s <= r <= Z.sqrt s + 1.
Proof.
  intros Hs. destruct (Z.le_gt_cases s 120) as [Hsmall|Hbig].
  - assert (In s (seqZ 1 120)) as Hin
        by (apply list_elem_of_In, elem_of_seqZ; lia).
    pose proof (proj1 (forallb_forall _ _) isqrt_small_arguments s Hin) as Hc.
    unfold isqrt_within_one in Hc.
    destruct (isqrt s) as [r|]; [|discriminate Hc].
    exists r. split; [done|]. apply andb_prop in Hc as [? ?]. lia.
  - unfold isqrt.
    assert (11 <= Z.sqrt s) as Hr
        by (change 11 with (Z.sqrt 121); apply Z.sqrt_le_mono; lia).
    pose proof (Z.sqrt_spec s ltac:(lia)) as [Hlo _].
    assert (11 * Z.sqrt s <= Z.sqrt s * Z.sqrt s) as Hsq
      by (apply Z.mul_le_mono_nonneg_r; lia).
    assert (10 * (Z.sqrt s - 1) <= s) as Hten
      by (revert Hlo Hsq; generalize (Z.sqrt s * Z.sqrt s); lia).
    assert (Z.sqrt s - 1 <= s `div` 10) by (apply Z.div_le_lower_bound; lia).
    assert (s `div` 10 < 65531) by (apply Z.div_lt_upper_bound; lia).
    rewrite uint32_small by lia.
    apply isqrt_loop_converges; [done | lia |].
    right. change (2 ^ Z.of_nat 16) with 65536. lia.
Qed.

(** C9.  [isqrt] is not defined on every 32-bit argument, nor within 1 of
    the integer square root where it is: on 0 the first turn of the loop
    takes the guess from 1 to 0 and the second divides by it; on 655310
    the square of the first guess, 65532, no longer fits 32 bits and a
    later turn divides by zero as well; on 2^31 the loop ends with
    214748367, where the integer square root is 46340. *)
Theorem C9_isqrt_fails :
  isqrt_step 0 1 = Some 0 /\ isqrt_step 0 0 = None /\
  isqrt 0 = None /\
  isqrt 655310 = None /\
  isqrt (2 ^ 31) = Some 214748367 /\ Z.sqrt (2 ^ 31) = 46340.
Proof. repeat split; by vm_compute. Qed.

(** * More of the code *)

(** ** LPF.c: every filter is a moving average *)

Import LPFMore.

Lemma sumZ_snoc (l : list Z) (a : Z) : sumZ (l ++ [a]) = sumZ l + a.
Proof.
  induction l as [|h l IH]; [unfold sumZ; simpl; lia|].
  change (sumZ ((h :: l) ++ [a])) with (h + sumZ (l ++ [a])).
  change (sumZ (h :: l)) with (h + sumZ l). lia.
Qed.

Lemma length_recent (n : nat) (seed : Z) (past : list Z) :
  length (recent n seed past) = n.
Proof.
  unfold recent. rewrite length_take, length_app, length_replicate. lia.
Qed.

(** The latest samples once one more has come in: the new one in front,
    the oldest dropped. *)
Lemma recent_cons (m : nat) (seed v : Z) (past : list Z) :
  recent (S m) seed (v :: past) = v :: take m (recent (S m) seed past).
Proof.
  unfold recent. cbn [app take]. f_equal.
  rewrite take_take. f_equal. lia.
Qed.

Lemma sumZ_recent_cons (m : nat) (seed v oldest : Z) (past : list Z) :
  recent (S m) seed past !! m = Some oldest ->
  sumZ (recent (S m) seed (v :: past)) =
  sumZ (recent (S m) seed past) - oldest + v.
Proof.
  intros Hold. rewrite recent_cons.
  change (sumZ (v :: ?l)) with (v + sumZ l).
  pose proof (take_S_r (recent (S m) seed past) m oldest Hold) as Hsplit.
  rewrite (take_ge (recent (S m) seed past) (S m)) in Hsplit
    by (rewrite length_recent; lia).
  rewrite Hsplit at 2. rewrite sumZ_snoc. lia.
Qed.

(** The step back of the index without the modulus. *)
Lemma mod_pred (n p : Z) :
  1 <= n -> 0 <= p < n ->
  (p - 1) `mod` n = if p =? 0 then n - 1 else p - 1.
Proof.
  intros Hn Hp. destruct (Z.eqb_spec p 0) as [->|Hne].
  - by apply mod_minus_one.
  - apply Z.mod_small. lia.
Qed.

(** Ages around the cell an update writes. *)
Lemma age_after_step (n p i : Z) :
  1 <= n -> 0 <= p < n -> 0 <= i < n ->
  let p' := if p =? 0 then n - 1 else p - 1 in
  0 <= age n p i < n /\
  age n p p' = n - 1 /\
  age n p' p' = 0 /\
  (i <> p' -> age n p' i = age n p i + 1 /\ age n p i < n - 1).
Proof.
  intros Hn Hp Hi p'. subst p'. unfold age.
  destruct (Z.eqb_spec p 0); repeat split; intros;
    repeat match goal with
           | |- context [?a <=? ?b] => destruct (Z.leb_spec a b)
           end; lia.
Qed.

(** One update of a channel that holds the latest samples. *)
Lemma tracks_step (c : Channel) (seed v : Z) (past : list Z) (st : Filters) :
  tracks c seed past st ->
  exists st',
    calc c st v = Some (moving_average (Size st) seed (v :: past), st') /\
    tracks c seed (v :: past) st' /\ Size st' = Size st.
Proof.
  intros [Hinv Hcells Hsum].
  destruct (calc_window c st v Hinv)
    as (p & old & st' & Hp & Hi & Hold & Hcalc & Hinv' & HSize & Hp' & Hwin
        & _).
  pose proof (service_depth c st Hinv) as Hn.
  destruct (service_position c st Hinv) as (p0 & Hp0 & Hrange).
  rewrite Hp in Hp0. injection Hp0 as <-.
  set (n := Size st) in *.
  assert (1 <= n) as Hn1 by lia.
  rewrite (mod_pred n p Hn1 Hrange) in *.
  set (p' := if p =? 0 then n - 1 else p - 1) in *.
  destruct (Z.to_nat n) as [|m] eqn:Hm; [lia|].
  assert (recent (S m) seed past !! m = Some old) as Holdest.
  { rewrite <- Hold, (Hcells p p' Hp Hi).
    pose proof (age_after_step n p p' Hn1 Hrange Hi) as Hage.
    cbv zeta in Hage. fold p' in Hage. destruct Hage as (_ & -> & _).
    f_equal. lia. }
  assert (sumZ (window c st) - old + v = sumZ (recent (S m) seed (v :: past)))
    as Hnext by (rewrite Hsum; symmetry; by apply sumZ_recent_cons).
  exists st'. split; [|split; [|done]].
  - rewrite Hcalc. unfold moving_average. fold n. by rewrite Hm, Hnext.
  - split.
    + done.
    + rewrite HSize. fold n. rewrite Hm. intros q i Hq Hi'.
      rewrite Hp' in Hq. injection Hq as <-. rewrite Hwin.
      pose proof (age_after_step n p i Hn1 Hrange Hi') as Hages.
      cbv zeta in Hages. fold p' in Hages.
      destruct Hages as (Hage & _ & Hzero & Hother).
      destruct (decide (i = p')) as [->|Hne].
      * rewrite list_lookup_insert_eq
          by (rewrite length_window by done; fold n; lia).
        rewrite Hzero. by rewrite recent_cons.
      * rewrite list_lookup_insert_ne by lia.
        destruct (Hother Hne) as [-> Hlt].
        rewrite (Hcells p i Hp Hi'), recent_cons.
        replace (Z.to_nat (age n p i + 1)) with (S (Z.to_nat (age n p i)))
          by lia.
        symmetry. apply (lookup_take_lt (recent (S m) seed past)). lia.
    + rewrite HSize. fold n. rewrite Hm, Hwin, <- Hnext.
      by apply sumZ_insert.
Qed.

(** Any number of updates. *)
Lemma tracks_run (c : Channel) (seed : Z) (samples : list Z) :
  forall (past : list Z) (st : Filters),
    tracks c seed past st ->
    exists st',
      calc_run c st samples =
        Some (averages (Size st) seed past samples, st') /\
      tracks c seed (rev samples ++ past) st' /\ Size st' = Size st.
Proof.
  induction samples as [|v rest IH]; intros past st Hst.
  - exists st. done.
  - destruct (tracks_step c seed v past st Hst) as (st1 & Hcalc & Hst1 & HS1).
    destruct (IH (v :: past) st1 Hst1) as (st2 & Hrun & Hst2 & HS2).
    exists st2. split; [|split].
    + cbn [calc_run averages]. rewrite Hcalc. cbn [mbind option_bind].
      rewrite Hrun. cbn [mbind option_bind]. by rewrite HS1.
    + cbn [rev]. by rewrite <- app_assoc.
    + by rewrite HS2.
Qed.

(** Right after its initialisation a channel holds the seed only. *)
Lemma init_tracks (c : Channel) (st : Filters) (seed depth : Z) :
  length (array c st) = 1024%nat -> 1 <= depth ->
  tracks c seed [] (init c st seed depth) /\
  Size (init c st seed depth) = Z.min depth (cap c).
Proof.
  intros Hlen Hd.
  destruct (init_in_service c st seed depth Hlen Hd) as (Hinv & HSize & Hwin).
  split; [|done].
  assert (recent (Z.to_nat (Z.min depth (cap c))) seed [] =
          replicate (Z.to_nat (Z.min depth (cap c))) seed) as Hrec.
  { unfold recent. cbn [app]. by rewrite take_replicate, Nat.min_id. }
  split.
  - done.
  - rewrite HSize, Hwin, Hrec. intros p i Hp Hi.
    destruct (service_position _ _ Hinv) as (p0 & Hp0 & Hrange).
    rewrite Hp in Hp0. injection Hp0 as <-. rewrite HSize in Hrange.
    destruct (age_after_step (Z.min depth (cap c)) p i) as (Hage & _);
      [lia | done | done |].
    rewrite !lookup_replicate_2 by lia. done.
  - by rewrite HSize, Hwin, Hrec.
Qed.

(** X1.  Each of the three filters is the moving average its comment
    gives: after the initialisation with a seed and a depth from 1 on,
    every update returns, and the output of each update is the sum,
    modulo 2^32, of the latest [Size] samples divided by [Size], where
    [Size] is the depth clamped to 1024 (512 for the second and third
    filter) and the seed stands for the samples not yet received. *)
Theorem X1_filter_is_moving_average
    (c : Channel) (st : Filters) (seed depth : Z) (samples : list Z) :
  length (array c st) = 1024%nat -> 1 <= depth ->
  exists st',
    calc_run c (init c st seed depth) samples =
      Some (averages (Z.min depth (cap c)) seed [] samples, st').
Proof.
  intros Hlen Hd.
  destruct (init_tracks c st seed depth Hlen Hd) as [Hst HSize].
  destruct (tracks_run c seed samples [] _ Hst) as (st' & Hrun & _).
  exists st'. by rewrite Hrun, HSize.
Qed.

Lemma X1_filter_is_moving_average_witness :
  exists st',
    calc_run Ch3 (init Ch3 at_reset 8 4) [12; 0; 100] = Some ([9; 7; 30], st').
Proof.
  apply (X1_filter_is_moving_average Ch3 at_reset 8 4 [12; 0; 100]);
    [reflexivity | lia].
Defined.

Lemma averages_depth_one (seed : Z) (samples : list Z) :
  forall past, averages 1 seed past samples = uint32 <$> samples.
Proof.
  induction samples as [|v rest IH]; intros past; [done|].
  cbn [averages fmap list_fmap]. rewrite IH. f_equal.
  unfold moving_average, recent. change (Z.to_nat 1) with 1%nat.
  cbn [app take]. unfold sumZ. cbn [foldr].
  by rewrite Z.add_0_r, Z.div_1_r.
Qed.

Lemma fmap_uint32_id (samples : list Z) :
  Forall (fun v => 0 <= v < 2 ^ 32) samples -> uint32 <$> samples = samples.
Proof.
  induction 1 as [|v rest Hv _ IH]; [done|].
  cbn [fmap list_fmap]. rewrite uint32_small by done. f_equal. apply IH.
Qed.

(** X2.  With depth 1 a filter passes its input through: every update
    returns the sample it was given (a [uint32_t]), whatever the seed. *)
Theorem X2_depth_one_passes_through
    (c : Channel) (st : Filters) (seed : Z) (samples : list Z) :
  length (array c st) = 1024%nat ->
  Forall (fun v => 0 <= v < 2 ^ 32) samples ->
  exists st', calc_run c (init c st seed 1) samples = Some (samples, st').
Proof.
  intros Hlen Hsamples.
  destruct (init_tracks c st seed 1 Hlen) as [Hst HSize]; [lia|].
  destruct (tracks_run c seed samples [] _ Hst) as (st' & Hrun & _).
  exists st'. rewrite Hrun, HSize.
  replace (Z.min 1 (cap c)) with 1 by (destruct c; reflexivity).
  by rewrite averages_depth_one, fmap_uint32_id.
Qed.

Lemma X2_depth_one_passes_through_witness :
  exists st',
    calc_run Ch1 (init Ch1 at_reset 77 1) [5; 0; 16383] =
      Some ([5; 0; 16383], st').
Proof.
  apply (X2_depth_one_passes_through Ch1 at_reset 77 [5; 0; 16383]);
    [reflexivity|].
  repeat (apply List.Forall_cons; [lia|]). apply List.Forall_nil.
Defined.



(** ** LPF.c: noise *)

Lemma uint32_int32 (z : Z) : uint32 (int32 z) = uint32 z.
Proof.
  unfold uint32, int32. rewrite Zminus_mod_idemp_l. f_equal. lia.
Qed.

Lemma uint32_idem (z : Z) : uint32 (uint32 z) = uint32 z.
Proof. unfold uint32. apply Z.mod_mod. lia. Qed.

Lemma uint32_add_l (a b : Z) : uint32 (uint32 a + b) = uint32 (a + b).
Proof. unfold uint32. apply Zplus_mod_idemp_l. Qed.

Lemma uint32_add_r (a b : Z) : uint32 (a + uint32 b) = uint32 (a + b).
Proof. unfold uint32. apply Zplus_mod_idemp_r. Qed.

Lemma uint32_square (a : Z) : uint32 (uint32 a * uint32 a) = uint32 (a * a).
Proof. unfold uint32. symmetry. apply Zmult_mod. Qed.

Lemma uint32_add_congr (a b c : Z) :
  uint32 a = uint32 b -> uint32 (a + c) = uint32 (b + c).
Proof. intros H. by rewrite <- uint32_add_l, H, uint32_add_l. Qed.

(** The first loop of [Noise]: the cells added up, modulo 2^32. *)
Lemma sum_loop_spec (a : list Z) (k : nat) :
  forall (i sum : Z),
    length a = 1024%nat -> 0 <= i -> i + Z.of_nat k <= 1024 ->
    exists sum',
      sum_loop a i k sum = Some sum' /\
      uint32 sum' = uint32 (sum + sumZ (take k (drop (Z.to_nat i) a))).
Proof.
  induction k as [|k IH]; intros i sum Hlen Hi Hk.
  - exists sum. split; [done|]. cbn [take]. unfold sumZ. cbn [foldr].
    by rewrite Z.add_0_r.
  - destruct (read_in_bounds a i Hlen) as [xi Hread]; [lia|].
    pose proof (proj1 (read_Some a i xi) Hread) as [_ Hxi].
    destruct (IH (i + 1) (int32 (uint32 (uint32 sum + xi))) Hlen)
      as (sum' & Hloop & Hsum'); [lia | lia |].
    exists sum'. cbn [sum_loop]. rewrite Hread. cbn [mbind option_bind].
    split; [done|]. rewrite Hsum'.
    rewrite (drop_S a xi (Z.to_nat i) Hxi). cbn [take].
    change (sumZ (xi :: ?l)) with (xi + sumZ l).
    replace (Z.to_nat (i + 1)) with (S (Z.to_nat i)) by lia.
    rewrite Z.add_assoc. apply uint32_add_congr.
    by rewrite uint32_int32, uint32_idem, uint32_add_l.
Qed.

(** The second loop: the squared distances to the mean added up. *)
Lemma energy_loop_spec (a : list Z) (mean : Z) (k : nat) :
  forall (i sum : Z),
    length a = 1024%nat -> 0 <= i -> i + Z.of_nat k <= 1024 ->
    exists sum',
      energy_loop a mean i k sum = Some sum' /\
      uint32 sum' =
      uint32 (sum + sumZ ((fun v => (v - uint32 mean) * (v - uint32 mean))
                            <$> take k (drop (Z.to_nat i) a))).
Proof.
  induction k as [|k IH]; intros i sum Hlen Hi Hk.
  - exists sum. split; [done|]. cbn [take fmap list_fmap]. unfold sumZ.
    cbn [foldr]. by rewrite Z.add_0_r.
  - destruct (read_in_bounds a i Hlen) as [xi Hread]; [lia|].
    pose proof (proj1 (read_Some a i xi) Hread) as [_ Hxi].
    set (d := uint32 (xi - uint32 mean)).
    destruct (IH (i + 1) (int32 (uint32 (uint32 sum + uint32 (d * d)))) Hlen)
      as (sum' & Hloop & Hsum'); [lia | lia |].
    exists sum'. cbn [energy_loop]. rewrite Hread. cbn [mbind option_bind].
    fold d. split; [done|]. rewrite Hsum'.
    rewrite (drop_S a xi (Z.to_nat i) Hxi). cbn [take fmap list_fmap].
    change (sumZ (?h :: ?l)) with (h + sumZ l).
    replace (Z.to_nat (i + 1)) with (S (Z.to_nat i)) by lia.
    rewrite Z.add_assoc. apply uint32_add_congr.
    rewrite uint32_int32, uint32_idem, uint32_add_l.
    rewrite uint32_add_r, <- (uint32_add_r sum (d * d)).
    unfold d. by rewrite uint32_square, uint32_add_r.
Qed.

(** What the shared body of the noise functions computes, when the sum
    of the window and its energy fit 32 bits: the square root of the
    quotient of the energy by [Size - 1]. *)
Lemma noise_of_window (size : Z) (a : list Z) :
  length a = 1024%nat -> 2 <= size <= 1024 ->
  let w := take (Z.to_nat size) a in
  0 <= sumZ w < 2 ^ 32 -> 0 <= energy_of w < 2 ^ 32 ->
  noise_of size a = (sigma ← isqrt (variance_of w); Some (int32 sigma)).
Proof.
  intros Hlen Hsize w Hsum Henergy.
  assert (length w = Z.to_nat size) as Hw
      by (unfold w; rewrite length_take_le; lia).
  unfold noise_of. destruct (Z.ltb_spec size 2); [lia|].
  destruct (sum_loop_spec a (Z.to_nat size) 0 0 Hlen) as (s1 & -> & Hs1);
    [lia | lia |].
  cbn [mbind option_bind]. rewrite udiv_Some by lia. cbn [mbind option_bind].
  change (Z.to_nat 0) with 0%nat in Hs1. rewrite drop_0 in Hs1.
  fold w in Hs1. rewrite Z.add_0_l, (uint32_small (sumZ w)) in Hs1 by done.
  rewrite Hs1.
  assert (sumZ w `div` size = mean_of w) as Hmean
      by (unfold mean_of; rewrite Hw; f_equal; lia).
  assert (0 <= mean_of w < 2 ^ 32) as Hmean_range.
  { rewrite <- Hmean. split; [apply Z.div_pos; lia|].
    apply Z.div_lt_upper_bound; [lia|]. nia. }
  rewrite Hmean.
  destruct (energy_loop_spec a (int32 (mean_of w)) (Z.to_nat size) 0 0 Hlen)
    as (s2 & -> & Hs2); [lia | lia |].
  cbn [mbind option_bind].
  change (Z.to_nat 0) with 0%nat in Hs2. rewrite drop_0 in Hs2.
  fold w in Hs2.
  rewrite uint32_int32, (uint32_small (mean_of w)) in Hs2 by done.
  fold (energy_of w) in Hs2.
  rewrite Z.add_0_l, (uint32_small (energy_of w)) in Hs2 by done.
  rewrite Hs2, (uint32_small (size - 1)) by lia.
  rewrite udiv_Some by lia. cbn [mbind option_bind].
  unfold variance_of. rewrite Hw. by rewrite Z2Nat.id by lia.
Qed.

Lemma noise_is_noise_of (c : Channel) (st : Filters) :
  noise c st = noise_of (Size st) (array c st).
Proof. by destruct c. Qed.

(** X4.  The noise estimate of a channel in service, when the sum of
    its window and the energy around the mean fit 32 bits: with fewer
    than two cells it is 0; when the energy divided by [Size - 1] is from
    1 to 655309, it is the integer square root of this quotient or one
    more; when that quotient is 0, the call divides by zero (in
    [isqrt]). *)
Theorem X4_noise_is_standard_deviation (c : Channel) (st : Filters) :
  in_service c st ->
  let w := window c st in
  (Size st < 2 -> noise c st = Some 0) /\
  (2 <= Size st -> 0 <= sumZ w < 2 ^ 32 -> 0 <= energy_of w < 2 ^ 32 ->
   (variance_of w = 0 -> noise c st = None) /\
   (1 <= variance_of w <= 655309 ->
    exists r, noise c st = Some r /\
              Z.sqrt (variance_of w) <= r <= Z.sqrt (variance_of w) + 1)).
Proof.
  intros Hinv w. rewrite noise_is_noise_of. split.
  - intros Hsmall. unfold noise_of.
    destruct (Z.ltb_spec (Size st) 2); [done | lia].
  - intros Hsize Hsum Henergy.
    pose proof (service_depth c st Hinv) as Hd.
    assert (Size st <= 1024) as Hcap by (unfold cap in Hd; destruct c; lia).
    rewrite noise_of_window;
      [| apply Hinv | lia | done | done ].
    fold (window c st). fold w. split.
    + intros ->. reflexivity.
    + intros Hv.
      destruct (isqrt_correct_below_overflow _ Hv) as (r & -> & Hr).
      exists (int32 r). split; [done|].
      rewrite int32_small; [done|].
      pose proof (Z.sqrt_nonneg (variance_of w)).
      assert (Z.sqrt (variance_of w) <= 809); [|lia].
      pose proof (Z.sqrt_spec (variance_of w) ltac:(lia)) as [Hlo _]. nia.
Qed.

Lemma window_constant_variance (n : nat) (v : Z) :
  (2 <= n)%nat ->
  mean_of (replicate n v) = v /\ energy_of (replicate n v) = 0 /\
  variance_of (replicate n v) = 0.
Proof.
  intros Hn.
  assert (mean_of (replicate n v) = v) as Hmean.
  { unfold mean_of. rewrite sumZ_replicate, length_replicate.
    rewrite Z.mul_comm. apply Z.div_mul. lia. }
  assert (energy_of (replicate n v) = 0) as Henergy.
  { unfold energy_of. rewrite Hmean, fmap_replicate, sumZ_replicate. lia. }
  split; [done|]. split; [done|].
  unfold variance_of. by rewrite Henergy.
Qed.

(** X5.  Asked for the noise of a filter right after its initialisation,
    when all cells hold the seed, the code divides by zero: the energy is
    0 and [isqrt(0)] has a zero divisor in its second turn.  This holds
    for every depth from 2 on and every seed whose product with the
    clamped depth is below 2^32. *)
Theorem X5_noise_after_init_divides_by_zero
    (c : Channel) (st : Filters) (seed depth : Z) :
  length (array c st) = 1024%nat -> 2 <= depth -> 0 <= seed ->
  Z.min depth (cap c) * seed < 2 ^ 32 ->
  noise c (init c st seed depth) = None.
Proof.
  intros Hlen Hdepth Hseed Hfit.
  destruct (init_in_service c st seed depth Hlen) as (Hinv & HSize & Hwin);
    [lia|].
  pose proof (service_depth _ _ Hinv) as Hd. rewrite HSize in Hd.
  assert (512 <= cap c <= 1024) as Hcap by (destruct c; cbn; lia).
  destruct (window_constant_variance (Z.to_nat (Z.min depth (cap c))) seed)
    as (Hmean & Henergy & Hvar); [lia|].
  rewrite noise_is_noise_of, noise_of_window;
    [| apply Hinv | rewrite HSize; lia | | ];
    fold (window c (init c st seed depth)); rewrite Hwin.
  - by rewrite Hvar.
  - rewrite sumZ_replicate. lia.
  - rewrite Henergy. lia.
Qed.

Lemma X5_noise_after_init_divides_by_zero_witness :
  noise Ch1 (init Ch1 at_reset 9000 64) = None.
Proof.
  apply (X5_noise_after_init_divides_by_zero Ch1 at_reset 9000 64);
    [reflexivity | lia | lia | vm_compute; reflexivity].
Defined.

Lemma X4_noise_is_standard_deviation_witness :
  let st := default at_reset
              (snd <$> calc_run Ch1 (init Ch1 at_reset 100 4) [104; 96]) in
  window Ch1 st = [100; 96; 104; 100] /\
  variance_of (window Ch1 st) = 10 /\
  exists r, noise Ch1 st = Some r /\ 3 <= r <= 4.
Proof.
  cbv zeta.
  set (st := default at_reset
               (snd <$> calc_run Ch1 (init Ch1 at_reset 100 4) [104; 96])).
  assert (in_service Ch1 st) as Hinv.
  { split.
    - vm_compute. reflexivity.
    - vm_compute. split; discriminate.
    - exists 1. vm_compute. split; [reflexivity|]. split; [discriminate|reflexivity].
    - vm_compute. reflexivity. }
  split; [vm_compute; reflexivity|]. split; [vm_compute; reflexivity|].
  destruct (proj2 (X4_noise_is_standard_deviation Ch1 st Hinv)) as [_ Hpos].
  - vm_compute. discriminate.
  - vm_compute. split; [discriminate | reflexivity].
  - vm_compute. split; [discriminate | reflexivity].
  - destruct Hpos as (r & Hr & Hbounds).
    + vm_compute. split; discriminate.
    + exists r. split; [exact Hr|].
      replace (variance_of (window Ch1 st)) with 10 in Hbounds
        by (vm_compute; reflexivity).
      change (Z.sqrt 10) with 3 in Hbounds. lia.
Defined.

(** ** LPF.c: the median of three *)

(** The middle one of three: one of them, with two of them at or below
    it and two of them at or above it. *)
Lemma median3_middle (a b c : Z) :
  let m := median3 a b c in
  (m = a \/ m = b \/ m = c) /\
  ((a <= m /\ b <= m) \/ (a <= m /\ c <= m) \/ (b <= m /\ c <= m)) /\
  ((m <= a /\ m <= b) \/ (m <= a /\ m <= c) \/ (m <= b /\ m <= c)).
Proof. unfold median3. cbv zeta. lia. Qed.

Lemma Median_result (h : History) (v : Z) :
  Median h v = (median3 v (u1 h) (u2 h), mkHistory v (u1 h) (u2 h)).
Proof.
  unfold Median, median3. f_equal. rewrite !Z.gtb_ltb. zbool; lia.
Qed.

(** X6.  [Median] returns the median of its argument and the two
    arguments before it: whatever the history was, the third of three
    calls returns the middle one of the three values given (one of them,
    with two of them at or below it and two at or above it), and leaves
    exactly these three as the history. *)
Theorem X6_median_of_last_three (h : History) (a b c : Z) :
  let h1 := snd (Median h a) in
  let h2 := snd (Median h1 b) in
  let m := fst (Median h2 c) in
  m = median3 c b a /\
  snd (Median h2 c) = mkHistory c b a /\
  (m = a \/ m = b \/ m = c) /\
  ((a <= m /\ b <= m) \/ (a <= m /\ c <= m) \/ (b <= m /\ c <= m)) /\
  ((m <= a /\ m <= b) \/ (m <= a /\ m <= c) \/ (m <= b /\ m <= c)) /\
  fst (Median h a) = median3 a (u1 h) (u2 h).
Proof.
  cbv zeta. rewrite !Median_result. cbn [fst snd u1 u2].
  pose proof (median3_middle c b a) as Hm. cbv zeta in Hm.
  split; [done|]. split; [done|]. split; [lia|]. split; [lia|].
  split; [lia | done].
Qed.

(** ** LPF.c: the old filter *)

Lemma LPF_Calc_run_is_calc_run (st : Filters) (samples : list Z) :
  LPF_Calc_run st samples = calc_run Ch1 st samples.
Proof.
  revert st. induction samples as [|v rest IH]; intros st; [done|].
  cbn [LPF_Calc_run calc_run calc]. destruct (LPF_Calc st v) as [[y st1]|];
    [|done].
  cbn [mbind option_bind]. by rewrite IH.
Qed.

(** The old update is the update of a second channel on the array,
    pointer and sum of the old filter. *)
Lemma LPF_Calc_old_as_second (o : OldFilter) (v : Z) :
  LPF_Calc2 (as_second o) v =
  (fun r : Z * OldFilter => (fst r, as_second (snd r))) <$> LPF_Calc_old o v.
Proof.
  unfold LPF_Calc2, LPF_Calc_old, as_second.
  cbn [Size x I1 LPFSum x2 Pt2 LPFSum2 x3 Pt3 LPFSum3 globals Pt].
  destruct (two_copies_calc _ _ _ _ _) as [[y [[a pt] sum]]|]; done.
Qed.

Lemma LPF_Calc_old_run_as_second (samples : list Z) :
  forall o : OldFilter,
    fst <$> LPF_Calc_old_run o samples =
    fst <$> calc_run Ch2 (as_second o) samples.
Proof.
  induction samples as [|v rest IH]; intros o; [done|].
  cbn [LPF_Calc_old_run calc_run calc]. rewrite LPF_Calc_old_as_second.
  destruct (LPF_Calc_old o v) as [[y o1]|]; [|done].
  cbn [fmap option_fmap option_map mbind option_bind fst snd].
  specialize (IH o1).
  destruct (LPF_Calc_old_run o1 rest) as [[ys o2]|],
           (calc_run Ch2 (as_second o1) rest) as [[ys' st2]|];
    cbn in *; congruence.
Qed.

(** X7.  The old pair [LPF_Init_old] / [LPF_Calc_old] is the same filter
    as [LPF_Init] / [LPF_Calc] up to the clamp of the depth: its outputs
    are the moving averages over the depth clamped to 512, so for depths
    from 1 to 512 both pairs return the same outputs on every stream of
    samples, although they walk their arrays from different cells. *)
Theorem X7_old_filter_agrees
    (o : OldFilter) (st : Filters) (seed depth : Z) (samples : list Z) :
  length (x (globals o)) = 1024%nat -> length (x st) = 1024%nat ->
  1 <= depth ->
  fst <$> LPF_Calc_old_run (LPF_Init_old o seed depth) samples =
    Some (averages (Z.min depth 512) seed [] samples) /\
  (depth <= 512 ->
   fst <$> LPF_Calc_old_run (LPF_Init_old o seed depth) samples =
   fst <$> LPF_Calc_run (LPF_Init st seed depth) samples).
Proof.
  intros Hlen_o Hlen Hd.
  assert (fst <$> LPF_Calc_old_run (LPF_Init_old o seed depth) samples =
          Some (averages (Z.min depth 512) seed [] samples)) as Hold.
  { rewrite LPF_Calc_old_run_as_second.
    change (as_second (LPF_Init_old o seed depth))
      with (init Ch2 (as_second o) seed depth).
    destruct (init_tracks Ch2 (as_second o) seed depth) as [Hst HSize];
      [done | done |].
    destruct (tracks_run Ch2 seed samples [] _ Hst) as (st' & Hrun & _).
    by rewrite Hrun, HSize. }
  split; [done|]. intros Hsmall. rewrite Hold.
  rewrite LPF_Calc_run_is_calc_run.
  destruct (init_tracks Ch1 st seed depth) as [Hst HSize]; [done | done |].
  destruct (tracks_run Ch1 seed samples [] _ Hst) as (st' & Hrun & _).
  change (init Ch1 st seed depth) with (LPF_Init st seed depth) in *.
  rewrite Hrun, HSize. cbn [fmap option_fmap option_map fst cap].
  by rewrite !Z.min_l by lia.
Qed.

Lemma X7_old_filter_agrees_witness :
  fst <$> LPF_Calc_old_run (LPF_Init_old (mkOld at_reset None) 8 4)
            [12; 0; 100] = Some [9; 7; 30] /\
  fst <$> LPF_Calc_run (LPF_Init at_reset 8 4) [12; 0; 100] = Some [9; 7; 30].
Proof.
  destruct (X7_old_filter_agrees (mkOld at_reset None) at_reset 8 4
              [12; 0; 100]) as [H1 H2]; [reflexivity | reflexivity | lia |].
  split; [exact H1|]. rewrite <- H2 by lia. exact H1.
Defined.

(** ** Maze_Program/main.c: the three controllers *)

Import Program.

(** The set point and the error of a tick, away from overflow. *)
Lemma tick_error (st : Robot) :
  let L := Converted_Distance_Left st in
  let R := Converted_Distance_Right st in
  - 2 ^ 30 <= L < 2 ^ 30 -> - 2 ^ 30 <= R < 2 ^ 30 ->
  Set_Point (tick st) =
    (if (250 <? L) && (250 <? R) then (L + R) `quot` 2 else 250) /\
  Error (tick st) =
    (if L <? R then L - Set_Point (tick st) else Set_Point (tick st) - R).
Proof.
  intros L R HL HR.
  assert (Set_Point (tick st) =
          if (250 <? L) && (250 <? R) then (L + R) `quot` 2 else 250) as Hsp.
  { unfold tick, Controller_3. cbn [fst Set_Point]. fold L R.
    unfold DESIRED_DISTANCE. rewrite !Z.gtb_ltb.
    destruct (Z.ltb_spec 250 L); [destruct (Z.ltb_spec 250 R)|]; simpl;
      try reflexivity.
    rewrite (int32_small (L + R)) by lia.
    rewrite Z.quot_div_nonneg by lia.
    apply int32_small. Z.div_mod_to_equations. lia. }
  split; [done|].
  assert (- 2 ^ 30 <= Set_Point (tick st) < 2 ^ 30) as Hbound.
  { rewrite Hsp.
    destruct (Z.ltb_spec 250 L); [destruct (Z.ltb_spec 250 R)|]; simpl;
      try lia.
    rewrite Z.quot_div_nonneg by lia. Z.div_mod_to_equations. lia. }
  revert Hbound. unfold tick, Controller_3.
  cbn [fst Set_Point Error]. fold L R. intros Hbound.
  destruct (Z.ltb_spec L R); apply int32_small; lia.
Qed.

(** The duty cycles of a tick in terms of the error it has stored. *)
Lemma tick_duties (st : Robot) :
  let k := int32 (Kp st * Error (tick st)) in
  let clamp d :=
    let d1 := if d <? PWM_MIN then PWM_MIN else d in
    if d1 >? PWM_MAX then PWM_MAX else d1 in
  Duty_Cycle_Left (tick st) = clamp (uint16 (int32 (PWM_NOMINAL + k))) /\
  Duty_Cycle_Right (tick st) = clamp (uint16 (int32 (PWM_NOMINAL - k))).
Proof. split; reflexivity. Qed.

(** X8.  [Controller_1] computes the set point and the error of
    [Controller_3] and applies the gain with the opposite sign: its left
    duty cycle is the right one of [Controller_3] and conversely.  It
    never looks at the centre distance and always commands forward. *)
Theorem X8_controller_1_mirrors_controller_3 (st : Robot) :
  let st1 := fst (Controller_1 st) in
  Set_Point st1 = Set_Point (tick st) /\
  Error st1 = Error (tick st) /\
  Duty_Cycle_Left st1 = Duty_Cycle_Right (tick st) /\
  Duty_Cycle_Right st1 = Duty_Cycle_Left (tick st) /\
  snd (Controller_1 st) =
    Motor_Forward (Duty_Cycle_Right (tick st)) (Duty_Cycle_Left (tick st)) /\
  forall center,
    Controller_1
      (mkRobot (Converted_Distance_Left st) center
               (Converted_Distance_Right st) (Error st) (Kp st)
               (Set_Point st) (Duty_Cycle_Left st) (Duty_Cycle_Right st)) =
    (let r := fst (Controller_1 st) in
     mkRobot (Converted_Distance_Left r) center (Converted_Distance_Right r)
             (Error r) (Kp r) (Set_Point r) (Duty_Cycle_Left r)
             (Duty_Cycle_Right r), snd (Controller_1 st)).
Proof. repeat split. Qed.

(** X9.  [Controller_2] stores what [Controller_3] stores, and gives the
    same command except in two places: at a centre distance of exactly
    250 it stops where [Controller_3] drives forward, and below 200 it
    stops where [Controller_3] backs up.  It never commands backward. *)
Theorem X9_controller_2_stops_instead (st : Robot) :
  let c := Converted_Distance_Center st in
  fst (Controller_2 st) = tick st /\
  (snd (Controller_2 st) = command st <-> c <> 250 /\ 200 <= c) /\
  (c = 250 \/ c < 200 -> snd (Controller_2 st) = Motor_Stop) /\
  (forall l r, snd (Controller_2 st) <> Motor_Backward l r).
Proof.
  intros c. split; [reflexivity|].
  unfold command, Controller_2, Controller_3. cbn [snd]. fold c.
  unfold DESIRED_DISTANCE.
  repeat match goal with
         | |- context [uint16 ?a] => generalize (uint16 a); intros ?
         end.
  split; [|split].
  - rewrite !Z.gtb_ltb, !Z.geb_leb.
    destruct (Z.ltb_spec 250 c), (Z.leb_spec 250 c), (Z.ltb_spec c 800),
      (Z.ltb_spec c (250 - 50)); simpl;
      split; try discriminate; try lia; try done.
  - rewrite !Z.gtb_ltb.
    destruct (Z.ltb_spec 250 c), (Z.ltb_spec c 800); simpl; try done; lia.
  - intros l r. rewrite !Z.gtb_ltb.
    destruct (Z.ltb_spec 250 c), (Z.ltb_spec c 800); simpl; discriminate.
Qed.

Lemma X9_controller_2_stops_instead_witness :
  snd (Controller_2 (robot 300 250 300 4)) = Motor_Stop /\
  snd (Controller_2 (robot 300 100 300 4)) = Motor_Stop.
Proof.
  split.
  - apply (proj1 (proj2 (proj2
             (X9_controller_2_stops_instead (robot 300 250 300 4))))).
    left. reflexivity.
  - apply (proj1 (proj2 (proj2
             (X9_controller_2_stops_instead (robot 300 100 300 4))))).
    right. vm_compute. reflexivity.
Defined.

(** The two clamping statements saturate at the two limits. *)
Lemma clamp_saturates (d : Z) :
  (let d1 := if d <? PWM_MIN then PWM_MIN else d in
   if d1 >? PWM_MAX then PWM_MAX else d1) =
  Z.max PWM_MIN (Z.min PWM_MAX d).
Proof.
  unfold PWM_MIN, PWM_MAX, PWM_NOMINAL, PWM_SWING. cbv zeta.
  change (2500 - 1000) with 1500. change (2500 + 1000) with 3500.
  rewrite !Z.gtb_ltb.
  destruct (Z.ltb_spec d 1500); [simpl; lia|].
  destruct (Z.ltb_spec 3500 d); lia.
Qed.

(** The two duty cycles for a product of gain and error that stays
    within the nominal duty. *)
Lemma duties_without_wrap (st : Robot) :
  let k := Kp st * Error (tick st) in
  - 2500 <= k <= 2500 ->
  Duty_Cycle_Left (tick st) = Z.max PWM_MIN (Z.min PWM_MAX (PWM_NOMINAL + k)) /\
  Duty_Cycle_Right (tick st) = Z.max PWM_MIN (Z.min PWM_MAX (PWM_NOMINAL - k)).
Proof.
  intros k Hk. destruct (tick_duties st) as [HL HR]. cbv zeta in HL, HR.
  fold k in HL, HR. rewrite HL, HR. clear HL HR.
  pose proof clamp_saturates as Hc. cbv zeta in Hc. rewrite !Hc.
  unfold PWM_NOMINAL.
  rewrite (int32_small k) by lia.
  rewrite !int32_small by lia.
  unfold uint16. rewrite !Z.mod_small by lia. done.
Qed.

(** The duty cycles of a tick with the gain 4 and side distances from 0
    to 839. *)
Lemma tick_in_range (st : Robot) :
  Kp st = 4 ->
  0 <= Converted_Distance_Left st <= 839 ->
  0 <= Converted_Distance_Right st <= 839 ->
  let e := Error (tick st) in
  - 589 <= e <= 588 /\
  Duty_Cycle_Left (tick st) =
    Z.max PWM_MIN (Z.min PWM_MAX (PWM_NOMINAL + 4 * e)) /\
  Duty_Cycle_Right (tick st) =
    Z.max PWM_MIN (Z.min PWM_MAX (PWM_NOMINAL - 4 * e)).
Proof.
  intros HKp HL HR e.
  assert (- 589 <= e <= 588) as He.
  { destruct (tick_error st) as [Hsp Herr]; [lia | lia |].
    cbv zeta in Hsp, Herr. unfold e. rewrite Herr, Hsp.
    destruct (Z.ltb_spec 250 (Converted_Distance_Left st));
      [destruct (Z.ltb_spec 250 (Converted_Distance_Right st))|]; simpl;
      destruct (Z.ltb_spec (Converted_Distance_Left st)
                  (Converted_Distance_Right st));
      try lia;
      rewrite Z.quot_div_nonneg by lia; Z.div_mod_to_equations; lia. }
  destruct (duties_without_wrap st) as [Hl Hr];
    [cbv zeta; fold e; rewrite HKp; lia|].
  cbv zeta in Hl, Hr. fold e in Hl, Hr. rewrite HKp in Hl, Hr. done.
Qed.

(** X10.  With the gain 4 of the program and both side distances between
    0 and 839 (every value the calibration returns, and the zero the
    globals hold before the first sample), a tick of [Controller_3] does
    no wrap-around: the error stays within [-589, 588], each duty cycle
    is the nominal one plus or minus four times the error, saturated at
    the two limits, the two duty cycles add up to twice the nominal one,
    and the left one is the smaller exactly when the error is
    negative. *)
Theorem X10_duties_mirrored_in_range (st : Robot) :
  Kp st = 4 ->
  0 <= Converted_Distance_Left st <= 839 ->
  0 <= Converted_Distance_Right st <= 839 ->
  let e := Error (tick st) in
  - 589 <= e <= 588 /\
  Duty_Cycle_Left (tick st) =
    Z.max PWM_MIN (Z.min PWM_MAX (PWM_NOMINAL + 4 * e)) /\
  Duty_Cycle_Right (tick st) =
    Z.max PWM_MIN (Z.min PWM_MAX (PWM_NOMINAL - 4 * e)) /\
  Duty_Cycle_Left (tick st) + Duty_Cycle_Right (tick st) = 2 * PWM_NOMINAL /\
  (Duty_Cycle_Left (tick st) < Duty_Cycle_Right (tick st) <-> e < 0).
Proof.
  intros HKp HL HR e.
  destruct (tick_in_range st HKp HL HR) as (He & Hl & Hr). fold e in Hl, Hr, He.
  split; [done|]. rewrite Hl, Hr.
  unfold PWM_MIN, PWM_MAX, PWM_NOMINAL, PWM_SWING.
  split; [done|]. split; [done|]. lia.
Qed.

Lemma X10_duties_mirrored_in_range_witness :
  Duty_Cycle_Left (tick (robot 200 400 600 4)) = 2300 /\
  Duty_Cycle_Right (tick (robot 200 400 600 4)) = 2700.
Proof.
  destruct (X10_duties_mirrored_in_range (robot 200 400 600 4))
    as (_ & Hl & Hr & _); [reflexivity | simpl; lia | simpl; lia |].
  rewrite Hl, Hr. split; reflexivity.
Defined.

(** X11.  Outside that range the 16-bit duty cycles wrap before they are
    clamped: when the product of gain and error is beyond the nominal
    duty, up to 63035 in absolute value, the duty that should saturate
    at the lower limit wraps above the upper one, and both motors get
    [PWM_MAX]: the robot drives straight at full duty instead of
    turning. *)
Theorem X11_large_error_drives_straight (st : Robot) :
  let k := Kp st * Error (tick st) in
  2500 < Z.abs k < 63036 ->
  Duty_Cycle_Left (tick st) = PWM_MAX /\ Duty_Cycle_Right (tick st) = PWM_MAX.
Proof.
  intros k Hk. destruct (tick_duties st) as [HL HR]. cbv zeta in HL, HR.
  fold k in HL, HR. rewrite HL, HR. clear HL HR.
  pose proof clamp_saturates as Hc. cbv zeta in Hc. rewrite !Hc.
  unfold PWM_MIN, PWM_MAX, PWM_NOMINAL, PWM_SWING.
  rewrite (int32_small k) by lia.
  rewrite !int32_small by lia.
  unfold uint16.
  assert ((2500 + k) `mod` 2 ^ 16 > 3500 /\ (2500 - k) `mod` 2 ^ 16 > 3500)
    as [H1 H2]; [|lia].
  destruct (Z.abs_spec k) as [[Hpos Habs]|[Hneg Habs]].
  - split.
    + rewrite Z.mod_small by lia. lia.
    + replace (2500 - k) with ((2500 - k + 2 ^ 16) + (-1) * 2 ^ 16) by lia.
      rewrite Z_mod_plus_full, Z.mod_small by lia. lia.
  - split.
    + replace (2500 + k) with ((2500 + k + 2 ^ 16) + (-1) * 2 ^ 16) by lia.
      rewrite Z_mod_plus_full, Z.mod_small by lia. lia.
    + rewrite Z.mod_small by lia. lia.
Qed.

Lemma X11_large_error_drives_straight_witness :
  Error (tick (robot 2000 400 300 4)) = 850 /\
  Duty_Cycle_Left (tick (robot 2000 400 300 4)) = 3500 /\
  Duty_Cycle_Right (tick (robot 2000 400 300 4)) = 3500.
Proof.
  split; [reflexivity|].
  apply (X11_large_error_drives_straight (robot 2000 400 300 4)).
  vm_compute. split; reflexivity.
Defined.

(** ** Maze_Program/main.c: sampling and the two interrupts *)

(** An update with a converter reading keeps a window of converter
    readings, returns a value in the range of the converter, and leaves
    the other channels as they are. *)
Lemma calc_fed (c : Channel) (st : Filters) (v : Z) :
  fed_by_adc c st -> 0 <= v <= 16383 ->
  exists y st',
    calc c st v = Some (y, st') /\ 0 <= y <= 16383 /\ fed_by_adc c st' /\
    (forall c', c' <> c -> fed_by_adc c' st -> fed_by_adc c' st').
Proof.
  intros [Hinv Hwin] Hv.
  destruct (calc_window c st v Hinv)
    as (p & old & st' & Hp & Hi & Hold & Hcalc & Hinv' & HSize & Hp' & Hwin'
        & Hframe).
  assert (Forall (fun v => 0 <= v <= 16383) (window c st')) as Hfed.
  { rewrite Hwin'. by apply Forall_insert. }
  assert (sumZ (window c st') = sumZ (window c st) - old + v) as Hsum.
  { rewrite Hwin'. by apply sumZ_insert. }
  pose proof (service_depth c st' Hinv') as Hd.
  assert (512 <= cap c <= 1024) as Hcap by (destruct c; cbn; lia).
  pose proof (length_window c st' Hinv') as Hlen.
  destruct (sumZ_bounds 0 16383 (window c st')) as [Hlo Hhi].
  { intros w Hw. by apply (proj1 (Forall_forall _ _) Hfed). }
  rewrite Hlen, Z2Nat.id in Hlo, Hhi by lia.
  exists (uint32 (sumZ (window c st) - old + v) `div` Size st), st'.
  split; [done|]. rewrite <- Hsum, <- HSize.
  rewrite uint32_small by nia.
  split; [|split; [done|]].
  - split; [apply Z.div_pos; lia|].
    apply Z.div_le_upper_bound; lia.
  - intros c' Hne [Hinv2 Hwin2].
    assert (c <> c') as Hne' by congruence.
    destruct (calc_other_channel c' c st st' v _ Hinv2 Hne' Hcalc)
      as [Hs Hw].
    split; [done|]. by rewrite Hw.
Qed.

(** The calibration of a filtered converter reading. *)
Lemma Calibrate_filtered (y : Z) :
  0 <= y <= 16383 ->
  0 <= Analog_Distance_Sensor_Calibrate (int32 y) <= 839.
Proof.
  intros Hy. rewrite int32_small by lia.
  pose proof (Calibrate_range y) as H. unfold is_int32, INT32_MIN, INT32_MAX in H.
  lia.
Qed.

Lemma main_steady (raw : Readings) : in_adc_range raw -> steady (main raw).
Proof.
  intros (H17 & H14 & H16).
  set (f1 := init Ch1 at_reset (Raw_A17 raw) 64).
  set (f2 := init Ch2 f1 (Raw_A14 raw) 64).
  set (f3 := init Ch3 f2 (Raw_A16 raw) 64).
  assert (filters (main raw) = f3) as Hf by reflexivity.
  destruct (init_in_service Ch1 at_reset (Raw_A17 raw) 64) as (I1 & S1 & W1);
    [reflexivity | lia |]. fold f1 in I1, S1, W1.
  destruct (init_in_service Ch2 f1 (Raw_A14 raw) 64) as (I2 & S2 & W2);
    [reflexivity | lia |]. fold f2 in I2, S2, W2.
  destruct (init_in_service Ch3 f2 (Raw_A16 raw) 64) as (I3 & S3 & W3);
    [reflexivity | lia |]. fold f3 in I3, S3, W3.
  cbn [cap] in S1, S2, S3, W1, W2, W3.
  destruct (init_other_channel Ch1 Ch2 f1 (Raw_A14 raw) 64 I1) as [I12 W12];
    [done | fold f2; lia |]. fold f2 in I12, W12.
  destruct (init_other_channel Ch1 Ch3 f2 (Raw_A16 raw) 64 I12) as [I13 W13];
    [done | fold f3; lia |]. fold f3 in I13, W13.
  destruct (init_other_channel Ch2 Ch3 f2 (Raw_A16 raw) 64 I2) as [I23 W23];
    [done | fold f3; lia |]. fold f3 in I23, W23.
  split; try (cbn; lia); try reflexivity.
  rewrite Hf. intros [| |]; (split; [done|]).
  - rewrite W13, W12, W1. apply Forall_replicate. lia.
  - rewrite W23, W2. apply Forall_replicate. lia.
  - rewrite W3. apply Forall_replicate. lia.
Qed.

Lemma Sample_steady (raw : Readings) (g : Globals) :
  steady g -> in_adc_range raw ->
  exists g', Sample_Analog_Distance_Sensor raw g = Some g' /\ steady g'.
Proof.
  intros [Hf Hy HKp HL HC HR] (H17 & H14 & H16).
  destruct (calc_fed Ch1 (filters g) (Raw_A17 raw) (Hf Ch1) H17)
    as (y17 & f1 & E1 & Y1 & F1 & O1).
  destruct (calc_fed Ch2 f1 (Raw_A14 raw) (O1 Ch2 ltac:(done) (Hf Ch2)) H14)
    as (y14 & f2 & E2 & Y2 & F2 & O2).
  destruct (calc_fed Ch3 f2 (Raw_A16 raw)
              (O2 Ch3 ltac:(done) (O1 Ch3 ltac:(done) (Hf Ch3))) H16)
    as (y16 & f3 & E3 & Y3 & F3 & O3).
  cbn [calc] in E1, E2, E3.
  unfold Sample_Analog_Distance_Sensor. rewrite E1. cbn [mbind option_bind].
  rewrite E2. cbn [mbind option_bind]. rewrite E3. cbn [mbind option_bind].
  eexists. split; [reflexivity|].
  split; cbn [filters control Kp Converted_Distance_Left
                Converted_Distance_Center Converted_Distance_Right
                Filtered_Distance_Left Filtered_Distance_Center
                Filtered_Distance_Right];
    try done; try by apply Calibrate_filtered.
  intros [| |].
  - apply O3; [done|]. by apply O2.
  - by apply O3.
  - done.
Qed.

Lemma command_balanced (st : Robot) :
  Kp st = 4 ->
  0 <= Converted_Distance_Left st <= 839 ->
  0 <= Converted_Distance_Right st <= 839 ->
  balanced (command st).
Proof.
  intros HKp HL HR.
  destruct (tick_in_range st HKp HL HR) as (He & Hl & Hr).
  assert (in_pwm_range (Duty_Cycle_Left (tick st)) /\
          in_pwm_range (Duty_Cycle_Right (tick st)) /\
          Duty_Cycle_Left (tick st) + Duty_Cycle_Right (tick st) =
          2 * PWM_NOMINAL) as Hpair.
  { rewrite Hl, Hr. unfold in_pwm_range, PWM_MIN, PWM_MAX, PWM_NOMINAL,
      PWM_SWING. lia. }
  unfold balanced. rewrite command_cases. cbv zeta.
  destruct (_ && _); [|destruct (_ <? _)]; cbn [duties];
    repeat constructor; apply Hpair.
Qed.

Lemma serve_steady (g : Globals) (i : Interrupt) :
  steady g -> within_adc i ->
  exists g' calls,
    serve g i = Some (g', calls) /\ steady g' /\ Forall balanced calls.
Proof.
  intros Hg Hi. destruct i as [raw|]; cbn [serve within_adc] in *.
  - destruct (Sample_steady raw g Hg Hi) as (g' & E & Hg').
    exists g', []. rewrite E. done.
  - destruct Hg as [Hf Hy HKp HL HC HR].
    pose proof (command_balanced (control g) HKp HL HR) as Hb.
    assert (Controller_3 (control g) =
            (tick (control g), command (control g))) as E
        by (unfold tick, command; by destruct (Controller_3 (control g))).
    rewrite E. eexists _, [_]. split; [reflexivity|]. split.
    + split; cbn [filters control]; done.
    + by constructor.
Qed.

(** X12.  The program as a whole: from the globals [main] leaves when it
    enables the interrupts, any sequence of the two interrupts whose
    conversions are in the range of the converter is served without an
    undefined operation; the three converted distances stay between 0
    and 839 and the filtered ones in the range of the converter, and
    every call of the motor driver carries two duty cycles within
    [PWM_MIN, PWM_MAX] that add up to twice [PWM_NOMINAL]. *)
Theorem X12_interrupts_keep_duties_balanced
    (raw : Readings) (irqs : list Interrupt) :
  in_adc_range raw -> Forall within_adc irqs ->
  exists g calls,
    serve_all (main raw) irqs = Some (g, calls) /\
    steady g /\ Forall balanced calls.
Proof.
  intros Hraw Hirqs. pose proof (main_steady raw Hraw) as Hg.
  revert Hg. generalize (main raw). clear Hraw.
  induction Hirqs as [|i rest Hi Hrest IH]; intros g Hg.
  - exists g, []. done.
  - destruct (serve_steady g i Hg Hi) as (g1 & calls1 & E1 & Hg1 & Hb1).
    destruct (IH g1 Hg1) as (g2 & calls2 & E2 & Hg2 & Hb2).
    exists g2, (calls1 ++ calls2). cbn [serve_all]. rewrite E1.
    cbn [mbind option_bind]. rewrite E2. cbn [mbind option_bind].
    split; [done|]. split; [done|]. by apply Forall_app.
Qed.

Lemma X12_interrupts_keep_duties_balanced_witness :
  exists g calls,
    serve_all (main (mkReadings 3000 9000 5000))
      [SysTick_Handler; Timer_A1_Periodic_Task (mkReadings 3100 9000 4900);
       SysTick_Handler] = Some (g, calls) /\
    steady g /\ Forall balanced calls.
Proof.
  apply (X12_interrupts_keep_duties_balanced (mkReadings 3000 9000 5000)).
  - unfold in_adc_range. simpl. lia.
  - repeat constructor; simpl; lia.
Defined.

(** ** Motor.c and Timer_A0_PWM.c *)

(** Equality of two values built from masks of at most eight bits,
    bit by bit. *)
Ltac byte_bits :=
  unfold Driver.clear_bits, Driver.set_bits, Driver.uint8;
  apply Z.bits_inj'; intros n Hn;
  repeat first [ rewrite Z.land_spec | rewrite Z.lor_spec
               | rewrite Z.lnot_spec by lia
               | rewrite Z.testbit_mod_pow2 by lia ];
  destruct (Z.ltb_spec n 8) as [Hlt|Hge];
  [ assert (n = 0 \/ n = 1 \/ n = 2 \/ n = 3 \/ n = 4 \/ n = 5 \/ n = 6 \/
            n = 7) as Hcase by lia;
    repeat (destruct Hcase as [->|Hcase]); try subst n;
    repeat match goal with
           | |- context [Z.testbit ?v ?k] =>
               is_var v; generalize (Z.testbit v k); intros ?
           end;
    cbn;
    repeat match goal with b : bool |- _ => destruct b end; reflexivity
  | repeat match goal with
           | |- context [Z.testbit (Zpos ?p) n] =>
               rewrite (Z.bits_above_log2 (Zpos p) n) by (cbn; lia)
           end;
    rewrite ?Z.testbit_0_l;
    repeat match goal with
           | |- context [Z.testbit ?v n] => destruct (Z.testbit v n)
           end; reflexivity ].

Lemma clear_bits_cleared (v : Z) :
  Z.land (Driver.clear_bits v 0x30) 0x30 = 0 /\
  Z.land (Driver.clear_bits v 0xC0) 0xC0 = 0 /\
  Z.land (Driver.clear_bits v 0x30) 0xCF = Z.land v 0xCF /\
  Z.land (Driver.clear_bits v 0xC0) 0x3F = Z.land v 0x3F.
Proof. repeat split; byte_bits. Qed.

Lemma set_bits_set (v : Z) :
  Z.land (Driver.set_bits v 0x30) 0x30 = 0x30 /\
  Z.land (Driver.set_bits v 0xC0) 0xC0 = 0xC0 /\
  Z.land (Driver.set_bits v 0x30) 0xCF = Z.land v 0xCF /\
  Z.land (Driver.set_bits v 0xC0) 0x3F = Z.land v 0x3F.
Proof. repeat split; byte_bits. Qed.

Lemma turn_bits (v : Z) :
  Z.land (Driver.clear_bits (Driver.set_bits v 0x10) 0x20) 0x30 = 0x10 /\
  Z.land (Driver.set_bits (Driver.clear_bits v 0x10) 0x20) 0x30 = 0x20 /\
  Z.land (Driver.clear_bits (Driver.set_bits v 0x10) 0x20) 0xCF =
    Z.land v 0xCF /\
  Z.land (Driver.set_bits (Driver.clear_bits v 0x10) 0x20) 0xCF =
    Z.land v 0xCF.
Proof. repeat split; byte_bits. Qed.

Lemma uint8_range (v : Z) : 0 <= Driver.uint8 v < 256.
Proof. unfold Driver.uint8. apply Z.mod_pos_bound. lia. Qed.

(** The registers taken apart. *)
Ltac open_registers r :=
  destruct r as [p2 [sel30 sel31 dir3 out3] [sel50 sel51 dir5 out5]
                 [ctl cctl3 cctl4 ccr0 ccr3 ccr4 ex0]].

Lemma Update_Duty_Cycle_1_stores (d : Z) (p2 p3 p5 : Driver.Port)
    (ctl cctl3 cctl4 ccr0 ccr3 ccr4 ex0 : Z) :
  Driver.Timer_A0_Update_Duty_Cycle_1 d
    (Driver.mkRegisters p2 p3 p5
       (Driver.mkTimer ctl cctl3 cctl4 ccr0 ccr3 ccr4 ex0)) =
  Driver.mkRegisters p2 p3 p5
    (Driver.mkTimer ctl cctl3 cctl4 ccr0 (if d <? ccr0 then d else ccr3)
                    ccr4 ex0).
Proof.
  unfold Driver.Timer_A0_Update_Duty_Cycle_1.
  cbn [Driver.TIMER_A0 Driver.CCR0]. rewrite Z.geb_leb.
  destruct (Z.leb_spec ccr0 d), (Z.ltb_spec d ccr0); try lia; reflexivity.
Qed.

Lemma Update_Duty_Cycle_2_stores (d : Z) (p2 p3 p5 : Driver.Port)
    (ctl cctl3 cctl4 ccr0 ccr3 ccr4 ex0 : Z) :
  Driver.Timer_A0_Update_Duty_Cycle_2 d
    (Driver.mkRegisters p2 p3 p5
       (Driver.mkTimer ctl cctl3 cctl4 ccr0 ccr3 ccr4 ex0)) =
  Driver.mkRegisters p2 p3 p5
    (Driver.mkTimer ctl cctl3 cctl4 ccr0 ccr3
                    (if d <? ccr0 then d else ccr4) ex0).
Proof.
  unfold Driver.Timer_A0_Update_Duty_Cycle_2.
  cbn [Driver.TIMER_A0 Driver.CCR0]. rewrite Z.geb_leb.
  destruct (Z.leb_spec ccr0 d), (Z.ltb_spec d ccr0); try lia; reflexivity.
Qed.

Lemma on_P5_OUT_applies (f : Z -> Z) (p2 p3 : Driver.Port)
    (sel0 sel1 dir out : Z) (t : Driver.Timer) :
  Driver.on_P5_OUT f
    (Driver.mkRegisters p2 p3 (Driver.mkPort sel0 sel1 dir out) t) =
  Driver.mkRegisters p2 p3 (Driver.mkPort sel0 sel1 dir (f out)) t.
Proof. reflexivity. Qed.

Lemma on_P3_OUT_applies (f : Z -> Z) (p2 p5 : Driver.Port)
    (sel0 sel1 dir out : Z) (t : Driver.Timer) :
  Driver.on_P3_OUT f
    (Driver.mkRegisters p2 (Driver.mkPort sel0 sel1 dir out) p5 t) =
  Driver.mkRegisters p2 (Driver.mkPort sel0 sel1 dir (f out)) p5 t.
Proof. reflexivity. Qed.

(** A motion in one step: what it leaves in the two output registers
    and in the two compare registers. *)
Lemma move_registers (m : Driver.Motion) (p2 : Driver.Port)
    (sel30 sel31 dir3 out3 sel50 sel51 dir5 out5 : Z)
    (ctl cctl3 cctl4 ccr0 ccr3 ccr4 ex0 : Z) :
  Driver.move m
    (Driver.mkRegisters p2 (Driver.mkPort sel30 sel31 dir3 out3)
       (Driver.mkPort sel50 sel51 dir5 out5)
       (Driver.mkTimer ctl cctl3 cctl4 ccr0 ccr3 ccr4 ex0)) =
  Driver.mkRegisters p2
    (Driver.mkPort sel30 sel31 dir3
       match m with
       | Driver.Stop => Driver.clear_bits out3 0xC0
       | _ => Driver.set_bits out3 0xC0
       end)
    (Driver.mkPort sel50 sel51 dir5
       match m with
       | Driver.Forward _ _ | Driver.Stop => Driver.clear_bits out5 0x30
       | Driver.Backward _ _ => Driver.set_bits out5 0x30
       | Driver.Turn_Left _ _ =>
           Driver.clear_bits (Driver.set_bits out5 0x10) 0x20
       | Driver.Turn_Right _ _ =>
           Driver.set_bits (Driver.clear_bits out5 0x10) 0x20
       end)
    (Driver.mkTimer ctl cctl3 cctl4 ccr0
       (if snd (Driver.requested m) <? ccr0
        then snd (Driver.requested m) else ccr3)
       (if fst (Driver.requested m) <? ccr0
        then fst (Driver.requested m) else ccr4) ex0).
Proof.
  destruct m as [l d|l d|l d|l d|];
    cbn [Driver.move Driver.requested fst snd];
    unfold Driver.Motor_Forward, Driver.Motor_Backward, Driver.Motor_Left,
      Driver.Motor_Right, Driver.Motor_Stop; cbv zeta;
    repeat first [ rewrite on_P5_OUT_applies | rewrite on_P3_OUT_applies
                 | rewrite Update_Duty_Cycle_1_stores
                 | rewrite Update_Duty_Cycle_2_stores ];
    reflexivity.
Qed.

(** X13.  Each of the five motions of the driver leaves the direction
    bits (4 and 5 of P5 OUT) and the enable bits (6 and 7 of P3 OUT) as
    its name says: forward 00, backward 11, left turn 01 (left motor
    reversed), right turn 10, all with both motors enabled; stop clears
    direction and enable.  No other bit of the two registers changes, nor
    any other register of the ports or of the timer besides the two
    compare registers. *)
Theorem X13_motion_sets_direction_and_enable
    (m : Driver.Motion) (r : Driver.Registers) :
  let r' := Driver.move m r in
  Z.land (Driver.OUT (Driver.P5 r')) 0x30 = Driver.direction_bits m /\
  Z.land (Driver.OUT (Driver.P3 r')) 0xC0 = Driver.enable_bits m /\
  Z.land (Driver.OUT (Driver.P5 r')) 0xCF =
    Z.land (Driver.OUT (Driver.P5 r)) 0xCF /\
  Z.land (Driver.OUT (Driver.P3 r')) 0x3F =
    Z.land (Driver.OUT (Driver.P3 r)) 0x3F /\
  Driver.P2 r' = Driver.P2 r /\
  Driver.with_OUT (Driver.P3 r') 0 = Driver.with_OUT (Driver.P3 r) 0 /\
  Driver.with_OUT (Driver.P5 r') 0 = Driver.with_OUT (Driver.P5 r) 0 /\
  Driver.with_CCR3 (Driver.with_CCR4 (Driver.TIMER_A0 r') 0) 0 =
    Driver.with_CCR3 (Driver.with_CCR4 (Driver.TIMER_A0 r) 0) 0.
Proof.
  open_registers r.
  pose proof (clear_bits_cleared out5) as (C1 & _ & C3 & _).
  pose proof (clear_bits_cleared out3) as (_ & C2 & _ & C4).
  pose proof (set_bits_set out5) as (S1 & _ & S3 & _).
  pose proof (set_bits_set out3) as (_ & S2 & _ & S4).
  pose proof (turn_bits out5) as (T1 & T2 & T3 & T4).
  cbv zeta. rewrite move_registers.
  cbn [Driver.P2 Driver.P3 Driver.P5 Driver.TIMER_A0 Driver.OUT].
  destruct m as [l d|l d|l d|l d|];
    cbn [Driver.direction_bits Driver.enable_bits];
    (split; [assumption|]); (split; [assumption|]);
    (split; [assumption|]); (split; [assumption|]);
    repeat split; reflexivity.
Qed.

(** X14.  The two compare registers stay below the period register
    through every motion: a requested duty cycle is stored when it is
    below the period and silently dropped otherwise, the register then
    keeping its previous value while the direction and enable bits are
    written all the same. *)
Theorem X14_duty_cycles_stay_below_period
    (m : Driver.Motion) (r : Driver.Registers) :
  Driver.duty_below_period r ->
  0 <= fst (Driver.requested m) -> 0 <= snd (Driver.requested m) ->
  let r' := Driver.move m r in
  let t := Driver.TIMER_A0 r in
  let t' := Driver.TIMER_A0 r' in
  Driver.duty_below_period r' /\
  Driver.CCR0 t' = Driver.CCR0 t /\
  Driver.CCR4 t' =
    (if fst (Driver.requested m) <? Driver.CCR0 t
     then fst (Driver.requested m) else Driver.CCR4 t) /\
  Driver.CCR3 t' =
    (if snd (Driver.requested m) <? Driver.CCR0 t
     then snd (Driver.requested m) else Driver.CCR3 t).
Proof.
  open_registers r. unfold Driver.duty_below_period. cbv zeta.
  rewrite move_registers.
  cbn [Driver.TIMER_A0 Driver.CCR0 Driver.CCR3 Driver.CCR4].
  intros [H3 H4] Hl Hd.
  destruct (Z.ltb_spec (snd (Driver.requested m)) ccr0),
    (Z.ltb_spec (fst (Driver.requested m)) ccr0); lia.
Qed.

Lemma X14_duty_cycles_stay_below_period_witness :
  let r := Driver.mkRegisters (Driver.mkPort 0 0 0 0) (Driver.mkPort 0 0 0 0)
             (Driver.mkPort 0 0 0 0) (Driver.mkTimer 0 0 0 15000 1500 1500 0) in
  Driver.CCR4 (Driver.TIMER_A0 (Driver.move (Driver.Forward 20000 3000) r)) =
    1500 /\
  Driver.CCR3 (Driver.TIMER_A0 (Driver.move (Driver.Forward 20000 3000) r)) =
    3000.
Proof.
  intros r.
  destruct (X14_duty_cycles_stay_below_period (Driver.Forward 20000 3000) r)
    as (_ & _ & H4 & H3);
    [unfold Driver.duty_below_period; simpl; lia | simpl; lia | simpl; lia |].
  split; [exact H4 | exact H3].
Defined.

(** X15.  [Motor_Init] with a period constant above zero leaves the
    motors disabled with both duty registers at zero below the period;
    with the period constant 0 it leaves the timer untouched.  Once the
    period register is above [PWM_MAX], every command of [Controller_3]
    reaches the timer unchanged: after a forward or backward command the
    compare registers hold the right and the left duty cycle the tick
    has stored, and after a stop they hold zero. *)
Theorem X15_controller_duties_reach_the_timer
    (period : Z) (r0 r : Driver.Registers) (st : Robot) :
  let r1 := Driver.Motor_Init period r0 in
  (0 < period ->
   Driver.CCR0 (Driver.TIMER_A0 r1) = period /\
   Driver.duty_below_period r1 /\
   Driver.CCR3 (Driver.TIMER_A0 r1) = 0 /\
   Driver.CCR4 (Driver.TIMER_A0 r1) = 0 /\
   Z.land (Driver.OUT (Driver.P3 r1)) 0xC0 = 0 /\
   Z.land (Driver.OUT (Driver.P5 r1)) 0x30 = 0) /\
  (period <= 0 -> Driver.TIMER_A0 r1 = Driver.TIMER_A0 r0) /\
  (PWM_MAX < Driver.CCR0 (Driver.TIMER_A0 r) ->
   let r' := Driver.move (Driver.motion_of (command st)) r in
   (command st <> Motor_Stop ->
    Driver.CCR4 (Driver.TIMER_A0 r') = Duty_Cycle_Left (tick st) /\
    Driver.CCR3 (Driver.TIMER_A0 r') = Duty_Cycle_Right (tick st)) /\
   (command st = Motor_Stop ->
    Driver.CCR4 (Driver.TIMER_A0 r') = 0 /\
    Driver.CCR3 (Driver.TIMER_A0 r') = 0)).
Proof.
  cbv zeta. split; [|split].
  - intros Hp. open_registers r0.
    pose proof (clear_bits_cleared out5) as (C1 & _).
    pose proof (clear_bits_cleared out3) as (_ & C2 & _).
    unfold Driver.Motor_Init, Driver.Timer_A0_PWM_Init,
      Driver.duty_below_period. cbv zeta.
    rewrite Z.geb_leb. destruct (Z.leb_spec period 0); [lia|].
    cbn [Driver.P2 Driver.P3 Driver.P5 Driver.TIMER_A0 Driver.OUT
         Driver.CCR0 Driver.CCR3 Driver.CCR4].
    split; [reflexivity|]. split; [lia|]. split; [reflexivity|].
    split; [reflexivity|]. split; assumption.
  - intros Hp. unfold Driver.Motor_Init, Driver.Timer_A0_PWM_Init. cbv zeta.
    rewrite Z.geb_leb. destruct (Z.leb_spec period 0); [reflexivity | lia].
  - open_registers r. cbn [Driver.TIMER_A0 Driver.CCR0]. intros Hperiod.
    rewrite move_registers. cbn [Driver.TIMER_A0 Driver.CCR3 Driver.CCR4].
    destruct (tick_duties_in_range st) as [HL HR].
    unfold in_pwm_range in HL, HR. revert Hperiod HL HR.
    unfold PWM_MIN, PWM_MAX, PWM_NOMINAL, PWM_SWING. intros Hperiod HL HR.
    rewrite command_cases. cbv zeta.
    destruct (_ && _); [|destruct (_ <? _)];
      cbn [Driver.motion_of Driver.requested fst snd];
      (split; [intros Hmove | intros Hstop]); try done;
      repeat match goal with
             | |- context [?a <? ?b] => destruct (Z.ltb_spec a b)
             end; lia.
Qed.

Lemma X15_controller_duties_reach_the_timer_witness :
  let r0 := Driver.mkRegisters (Driver.mkPort 0 0 0 0) (Driver.mkPort 0 0 0 0)
              (Driver.mkPort 0 0 0 0) (Driver.mkTimer 0 0 0 0 0 0 0) in
  let r1 := Driver.Motor_Init 15000 r0 in
  let r' := Driver.move (Driver.motion_of (command (robot 200 400 600 4))) r1 in
  Driver.CCR4 (Driver.TIMER_A0 r') = 2300 /\
  Driver.CCR3 (Driver.TIMER_A0 r') = 2700.
Proof.
  intros r0 r1 r'.
  destruct (X15_controller_duties_reach_the_timer 15000 r0 r1
              (robot 200 400 600 4)) as (_ & _ & H).
  destruct H as [H _]; [vm_compute; reflexivity|].
  destruct H as [H4 H3]; [discriminate|].
  split; [exact H4 | exact H3].
Defined.

(** ** Maze/main.c: the right-wall follower *)

(** X16.  [Controller_1] of Maze/main.c decides on the centre and right
    distances alone: forward at full duty with a wall on the right
    (right below 200) and the way ahead free (centre above 200); a right
    spin at duty 2000 with no wall on the right (right above 200); a
    left turn, which keeps the interrupt handler busy for 700 ms and
    ends with the motors stopped, with walls on the right and ahead.
    The final branch, a plain stop, is taken exactly when the right
    distance equals 200.  The motors are left enabled in the first two
    cases only. *)
Theorem X16_right_wall_follower_cases (c d : Z) (r : Driver.Registers) :
  let actions := Maze.Controller_1 c d in
  (actions = [Maze.Move (Driver.Forward 3500 3500)] <-> 200 < c /\ d < 200) /\
  (actions = [Maze.Move (Driver.Turn_Right 2000 2000)] <-> 200 < d) /\
  (actions = Maze.Turn_Left <-> c <= 200 /\ d < 200) /\
  (actions = [Maze.Move Driver.Stop] <-> d = 200) /\
  Maze.busy_ms actions = (if (c <=? 200) && (d <? 200) then 700 else 0) /\
  Z.land (Driver.OUT (Driver.P3 (foldl Maze.act r actions))) 0xC0 =
    (if (200 <? d) || (200 <? c) && (d <? 200) then 0xC0 else 0).
Proof.
  open_registers r.
  pose proof (clear_bits_cleared out3) as (_ & C2 & _).
  pose proof (set_bits_set out3) as (_ & S2 & _).
  pose proof (clear_bits_cleared (Driver.set_bits out3 0xC0)) as (_ & C2' & _).
  cbv zeta. unfold Maze.Controller_1, Maze.DESIRED_DISTANCE, Maze.Turn_Left.
  rewrite !Z.gtb_ltb.
  destruct (Z.ltb_spec 200 c), (Z.ltb_spec d 200), (Z.ltb_spec 200 d),
    (Z.leb_spec c 200); try lia; cbn [andb orb];
    (split; [split; [first [discriminate | done] | first [lia | done]]|]);
    (split; [split; [first [discriminate | done] | first [lia | done]]|]);
    (split; [split; [first [discriminate | done] | first [lia | done]]|]);
    (split; [split; [first [discriminate | done | intros _; lia]
                    | first [lia | done]]|]);
    (split; [reflexivity|]);
    cbn [foldl Maze.act]; rewrite ?move_registers;
    cbn [Driver.P3 Driver.OUT]; assumption.
Qed.

(** ** OPT3101.c *)

Lemma index_below_32 (n : Z) : 0 <= n < 32 -> In n (seqZ 0 32).
Proof. intros Hn. apply list_elem_of_In, elem_of_seqZ. lia. Qed.

(** Equality of two 32-bit values built from masks and shifts by
    constants, bit by bit. *)
Ltac word_bits :=
  apply Z.bits_inj'; intros n Hn;
  repeat first [ rewrite Z.land_spec | rewrite Z.lor_spec
               | rewrite Z.lnot_spec by lia
               | rewrite Z.testbit_mod_pow2 by lia
               | rewrite Z.shiftr_spec by lia
               | rewrite Z.shiftl_spec by lia ];
  destruct (Z.lt_ge_cases n 32) as [Hlt|Hge];
  [ let Hin := fresh "Hin" in
    pose proof (index_below_32 n (conj Hn Hlt)) as Hin;
    vm_compute in Hin;
    repeat (destruct Hin as [<-|Hin]; [|]); [..|destruct Hin];
    repeat match goal with
           | |- context [Z.testbit ?v ?k] =>
               is_var v;
               let k' := eval vm_compute in k in
               progress change (Z.testbit v k) with (Z.testbit v k')
           end;
    repeat match goal with
           | |- context [Z.testbit ?v ?k] =>
               is_var v; generalize (Z.testbit v k); intros ?
           end;
    vm_compute;
    repeat match goal with b : bool |- _ => destruct b end; reflexivity
  | repeat match goal with
           | |- context [?i <? 32] =>
               rewrite (proj2 (Z.ltb_ge i 32)) by lia
           | |- context [Z.testbit (Zpos ?p) ?i] =>
               rewrite (Z.bits_above_log2 (Zpos p) i) by (cbn; lia)
           end;
    rewrite ?Z.testbit_0_l;
    repeat match goal with
           | |- context [Z.testbit ?v ?i] => destruct (Z.testbit v i)
           end; reflexivity ].

(** X17.  A register of the sensor is sent as its three low bytes, low
    byte first, after the address, and [OPT3101_ReadRegister] puts three
    bytes received in that order together again: what is read back from
    the bytes written is the data modulo 2^24, the top byte of the
    32-bit argument being dropped.  The value written to register 0x2a
    to select a channel has the channel in bits 2:1, bit 0 cleared and
    bit 15 set, and every other bit as it was. *)
Theorem X17_register_bytes_round_trip (address data reg2a ch : Z) :
  (exists b0 b1 b2,
     OPT3101.OPT3101_WriteRegister address data = [address; b0; b1; b2] /\
     0 <= b0 < 256 /\ 0 <= b1 < 256 /\ 0 <= b2 < 256 /\
     OPT3101.OPT3101_ReadRegister b0 b1 b2 = data `mod` 2 ^ 24) /\
  (0 <= ch <= 2 ->
   let r := OPT3101.select_channel reg2a ch in
   Z.land (Z.shiftr r 1) 3 = ch /\ Z.land r 1 = 0 /\
   Z.land r 0x8000 = 0x8000 /\
   Z.land r 0xFFFF7FF8 = Z.land reg2a 0xFFFF7FF8).
Proof.
  split.
  - unfold OPT3101.OPT3101_WriteRegister, OPT3101.OPT3101_ReadRegister.
    change 0xFF with (Z.ones 8). rewrite !Z.land_ones by lia.
    rewrite !Z.shiftr_div_pow2 by lia.
    unfold Driver.uint8. rewrite !Z.mod_mod by lia.
    eexists _, _, _. split; [reflexivity|].
    rewrite !Z.shiftl_mul_pow2 by lia. unfold uint32.
    change (2 ^ 8) with 256. change (2 ^ 16) with 65536.
    change (2 ^ 24) with 16777216. change (2 ^ 32) with 4294967296.
    repeat split; try (apply Z.mod_pos_bound; lia).
    Z.div_mod_to_equations. lia.
  - intros Hch r. unfold r, OPT3101.select_channel, uint32. cbv zeta.
    assert (ch = 0 \/ ch = 1 \/ ch = 2) as [->|[->| ->]] by lia;
      repeat split; word_bits.
Qed.

Lemma store_Some (a : list Z) (i v : Z) :
  0 <= i < Z.of_nat (length a) ->
  Memory.store a i v = Some (<[Z.to_nat i := v]> a).
Proof.
  intros Hi. unfold Memory.store.
  destruct (Z.leb_spec 0 i); [|lia].
  destruct (Z.ltb_spec i (Z.of_nat (length a))); [done | lia].
Qed.

Lemma store_None (a : list Z) (i v : Z) :
  Z.of_nat (length a) <= i -> Memory.store a i v = None.
Proof.
  intros Hi. unfold Memory.store.
  destruct (Z.ltb_spec i (Z.of_nat (length a))); [lia|].
  by rewrite andb_false_r.
Qed.

Lemma load_Some (a : list Z) (i : Z) :
  0 <= i < Z.of_nat (length a) ->
  exists v, Memory.load a i = Some v /\ a !! Z.to_nat i = Some v.
Proof.
  intros Hi. unfold Memory.load.
  destruct (Z.leb_spec 0 i); [|lia].
  destruct (Z.ltb_spec i (Z.of_nat (length a))); [|lia]. cbn [andb].
  destruct (lookup_lt_is_Some_2 a (Z.to_nat i)) as [v Hv]; [lia|].
  exists v. by rewrite Hv.
Qed.

Lemma land_1 (a : Z) : Z.land a 1 = a `mod` 2 ^ 1.
Proof. apply (Z.land_ones a 1). lia. Qed.

Lemma land_3 (a : Z) : Z.land a 3 = a `mod` 2 ^ 2.
Proof. apply (Z.land_ones a 2). lia. Qed.

Lemma land_FFFF (a : Z) : Z.land a 0xFFFF = a `mod` 2 ^ 16.
Proof. apply (Z.land_ones a 16). lia. Qed.

(** X18.  [OPT3101_GetMeasurement] returns the transmit channel, 0 to 3,
    of the frame read.  For channels 0 to 2 it writes cell [channel],
    and no other, of the two arrays: the amplitude always, and as
    distance either the phase scaled to millimetres, which is then at
    most 10000, or one of three codes: 65535 for a frame flagged
    invalid, else 65534 for an amplitude below 150, else 65533 for a
    phase from 43725 on.  For channel 3 nothing is stored.  The
    data-ready flag of port 6 is cleared either way. *)
Theorem X18_measurement_stores_distance_or_code
    (read08 read09 : Z) (distances amplitudes : list Z) (s : OPT3101.Sensor) :
  length distances = 3%nat -> length amplitudes = 3%nat ->
  length (OPT3101.ChannelCount s) = 3%nat ->
  let phase := read08 `mod` 2 ^ 16 in
  let amplitude := read09 `mod` 2 ^ 16 in
  let invalid :=
    negb (Z.testbit read08 20) || negb ((read09 `div` 2 ^ 18) `mod` 4 =? 0) in
  let d :=
    if invalid then 65535 else if amplitude <? 150 then 65534
    else if 43725 <=? phase then 65533 else (phase * 14990) `div` 65536 in
  exists channel ds am s',
    OPT3101.OPT3101_GetMeasurement read08 read09 distances amplitudes s =
      Some (channel, ds, am, s') /\
    channel = (read08 `div` 2 ^ 18) `mod` 4 /\
    (0 <= d <= 10000 \/ OPT3101.is_sentinel d) /\
    (channel = 3 ->
     ds = distances /\ am = amplitudes /\
     OPT3101.ChannelCount s' = OPT3101.ChannelCount s) /\
    (channel <= 2 ->
     ds = <[Z.to_nat channel := d]> distances /\
     am = <[Z.to_nat channel := amplitude]> amplitudes) /\
    Z.land (OPT3101.P6_IFG s') 4 = 0 /\
    Z.land (OPT3101.P6_IFG s') 0xFB = Z.land (OPT3101.P6_IFG s) 0xFB.
Proof.
  intros Hd Ha Hc phase amplitude invalid d.
  set (channel := (read08 `div` 2 ^ 18) `mod` 4).
  assert (0 <= channel < 4) as Hch by (apply Z.mod_pos_bound; lia).
  assert (0 <= phase < 2 ^ 16) as Hph by (apply Z.mod_pos_bound; lia).
  assert (0 <= amplitude < 2 ^ 16) as Ham by (apply Z.mod_pos_bound; lia).
  unfold OPT3101.OPT3101_GetMeasurement. cbv zeta.
  unfold OPT3101.OPT3101_GetTxChannel, OPT3101.OPT3101_GetAmplitude,
    OPT3101.OPT3101_GetDistanceMillimeters, OPT3101.OPT3101_GetPhase,
    OPT3101.OPT3101_MeasurementError, OPT3101.BinFix,
    OPT3101.BinFixMM_PER_PHASE_COUNT.
  cbn [OPT3101.reg08 OPT3101.reg09 OPT3101.ChannelCount OPT3101.P6_IFG].
  rewrite !land_1, !land_3, !land_FFFF, !Z.shiftr_div_pow2 by lia.
  change (2 ^ 2) with 4. fold channel phase amplitude.
  rewrite (uint32_small (phase * 14990)) by lia.
  change (2 ^ 16) with 65536 at 1.
  assert (((read08 `div` 2 ^ 20) `mod` 2 ^ 1 =? 0) =
          negb (Z.testbit read08 20)) as Hvalid.
  { change (2 ^ 1) with 2. rewrite <- (Z.testbit_spec' read08 20) by lia.
    by destruct (Z.testbit read08 20). }
  rewrite Hvalid.
  assert ((if negb (Z.testbit read08 20) then 65535
           else if negb ((read09 `div` 2 ^ 18) `mod` 4 =? 0) then 65535
           else if amplitude <? 150 then 65534
           else if (phase * 14990) `div` 65536 >? 10000 then 65533
           else (phase * 14990) `div` 65536) = d) as Hdist.
  { unfold d, invalid.
    destruct (negb (Z.testbit read08 20)); [done|].
    destruct (negb (_ =? 0)); [done|]. cbn [orb].
    destruct (amplitude <? 150); [done|].
    rewrite Z.gtb_ltb.
    destruct (Z.ltb_spec 10000 ((phase * 14990) `div` 65536)),
      (Z.leb_spec 43725 phase); try done;
      exfalso; Z.div_mod_to_equations; lia. }
  assert ((if negb (Z.testbit read08 20) then true
           else if negb ((read09 `div` 2 ^ 18) `mod` 4 =? 0) then true
           else false) = invalid) as Hinv.
  { unfold invalid.
    destruct (negb (Z.testbit read08 20)); [done|].
    by destruct (negb (_ =? 0)). }
  assert (0 <= d <= 10000 \/ OPT3101.is_sentinel d) as Hrange.
  { unfold d, OPT3101.is_sentinel.
    destruct invalid; [lia|]. destruct (amplitude <? 150); [lia|].
    destruct (Z.leb_spec 43725 phase); [lia|].
    left. Z.div_mod_to_equations. lia. }
  pose proof (clear_bits_cleared (OPT3101.P6_IFG s)) as _.
  assert (Z.land (Driver.clear_bits (OPT3101.P6_IFG s) (Z.shiftl 1 2)) 4 = 0 /\
          Z.land (Driver.clear_bits (OPT3101.P6_IFG s) (Z.shiftl 1 2)) 0xFB =
          Z.land (OPT3101.P6_IFG s) 0xFB) as [Hflag Hother].
  { change (Z.shiftl 1 2) with 4. generalize (OPT3101.P6_IFG s). intros v.
    split; byte_bits. }
  destruct (Z.leb_spec channel 2) as [Hle|Hgt].
  - destruct (load_Some (OPT3101.ChannelCount s) channel) as (count & Hload & _);
      [lia|].
    rewrite Hload. cbn [mbind option_bind].
    rewrite !store_Some by lia. cbn [mbind option_bind].
    eexists _, _, _, _. split; [reflexivity|].
    split; [done|]. split; [done|]. split; [lia|].
    cbn [OPT3101.P6_IFG].
    split; [|done]. intros _. revert Hdist.
    destruct (negb (Z.testbit read08 20)); [by intros <-|].
    destruct (negb (_ =? 0)); [by intros <-|]. by intros <-.
  - eexists _, _, _, _. split; [reflexivity|].
    split; [done|]. split; [done|].
    cbn [OPT3101.P6_IFG OPT3101.ChannelCount].
    split; [done|]. split; [lia|]. done.
Qed.

Lemma X18_measurement_stores_distance_or_code_witness :
  exists s',
    OPT3101.OPT3101_GetMeasurement 0x148000 0x0003E8 [0; 0; 0] [0; 0; 0]
      (OPT3101.mkSensor 0 0 [0; 0; 0] 4) =
    Some (1, [0; 7495; 0], [0; 1000; 0], s').
Proof.
  destruct (X18_measurement_stores_distance_or_code 0x148000 0x0003E8
              [0; 0; 0] [0; 0; 0] (OPT3101.mkSensor 0 0 [0; 0; 0] 4))
    as (channel & ds & am & s' & E & Hch & _ & _ & Hst & _);
    [reflexivity | reflexivity | reflexivity |].
  exists s'. rewrite E. vm_compute in Hch. subst channel.
  destruct Hst as [-> ->]; [lia|]. reflexivity.
Defined.

(** ** Bumper_Read *)

(** A check that holds of each of the 256 values of a byte holds of
    every byte. *)
Lemma for_all_bytes (P : Z -> bool) :
  forallb P (seqZ 0 256) = true -> forall v, 0 <= v < 256 -> P v = true.
Proof.
  intros Hall v Hv. rewrite forallb_forall in Hall. apply Hall.
  apply list_elem_of_In, elem_of_seqZ. lia.
Qed.

(** X19.  [Bumper_Read] returns six bits, one per switch, set when the
    pin of the switch reads low: bits 0 to 5 stand for pins 0, 2, 3, 5,
    6 and 7 of port 4.  Pins 1 and 4 have no effect, and with all six
    pins high the result is 0. *)
Theorem X19_bumper_bits (P4_IN : Z) :
  0 <= P4_IN < 256 ->
  0 <= Bumper.Bumper_Read P4_IN < 64 /\
  (forall bit, 0 <= bit < 6 ->
     Z.testbit (Bumper.Bumper_Read P4_IN) bit =
     negb (Z.testbit P4_IN (Bumper.pin bit))) /\
  Bumper.Bumper_Read (Z.land P4_IN 0xED) = Bumper.Bumper_Read P4_IN /\
  (Z.land P4_IN 0xED = 0xED <-> Bumper.Bumper_Read P4_IN = 0).
Proof.
  intros Hv.
  pose (check := fun v =>
    (0 <=? Bumper.Bumper_Read v) && (Bumper.Bumper_Read v <? 64) &&
    forallb (fun bit =>
               Bool.eqb (Z.testbit (Bumper.Bumper_Read v) bit)
                        (negb (Z.testbit v (Bumper.pin bit)))) (seqZ 0 6) &&
    (Bumper.Bumper_Read (Z.land v 0xED) =? Bumper.Bumper_Read v) &&
    Bool.eqb (Z.land v 0xED =? 0xED) (Bumper.Bumper_Read v =? 0)).
  assert (check P4_IN = true) as Hcheck
      by (apply for_all_bytes; [vm_compute; reflexivity | done]).
  unfold check in Hcheck.
  apply andb_prop in Hcheck as [Hcheck H5].
  apply andb_prop in Hcheck as [Hcheck H4].
  apply andb_prop in Hcheck as [Hcheck H3].
  apply andb_prop in Hcheck as [H1 H2].
  split; [lia|]. split; [|split].
  - intros bit Hbit. rewrite forallb_forall in H3.
    apply Bool.eqb_prop, H3, list_elem_of_In, elem_of_seqZ. lia.
  - lia.
  - apply Bool.eqb_prop in H5.
    destruct (Z.eqb_spec (Z.land P4_IN 0xED) 0xED),
      (Z.eqb_spec (Bumper.Bumper_Read P4_IN) 0); done.
Qed.

Lemma X19_bumper_bits_witness :
  Bumper.Bumper_Read (Z.land 0xE9 0xED) = Bumper.Bumper_Read 0xE9.
Proof.
  apply (proj1 (proj2 (proj2 (X19_bumper_bits 0xE9 ltac:(lia))))).
Defined.

(** ** Tachometer.c *)

Lemma int32_add_l (a b : Z) : int32 (int32 a + b) = int32 (a + b).
Proof.
  unfold int32.
  replace ((a + 2 ^ 31) `mod` 2 ^ 32 - 2 ^ 31 + b + 2 ^ 31)
    with ((a + 2 ^ 31) `mod` 2 ^ 32 + b) by lia.
  rewrite Z.add_mod_idemp_l by lia. f_equal. f_equal. lia.
Qed.

Lemma int32_range (z : Z) : is_int32 (int32 z).
Proof.
  unfold is_int32, INT32_MIN, INT32_MAX, int32.
  pose proof (Z.mod_pos_bound (z + 2 ^ 31) (2 ^ 32)). lia.
Qed.







(** ** Average_of_Buffer *)

Lemma sum_buffer_spec (buffer : list Z) (count : nat) :
  forall (i : nat) (a : Z),
    (i + count <= length buffer)%nat ->
    Tachometer.sum_buffer buffer (Z.of_nat i) count (uint32 a) =
    Some (uint32 (a + sumZ (take count (drop i buffer)))).
Proof.
  induction count as [|count IH]; intros i a Hlen.
  - cbn [Tachometer.sum_buffer take]. unfold sumZ. cbn [foldr].
    by rewrite Z.add_0_r.
  - cbn [Tachometer.sum_buffer].
    destruct (load_Some buffer (Z.of_nat i)) as (v & Hload & Hv); [lia|].
    rewrite Nat2Z.id in Hv. rewrite Hload. cbn [mbind option_bind].
    rewrite uint32_add_l.
    replace (Z.of_nat i + 1) with (Z.of_nat (S i)) by lia.
    rewrite IH by lia. rewrite (drop_S buffer v i Hv).
    cbn [take]. unfold sumZ. cbn [foldr]. do 2 f_equal. lia.
Qed.

Lemma sum_buffer_overrun (buffer : list Z) (count : nat) :
  forall (i : nat) (a : Z),
    (i <= length buffer < i + count)%nat ->
    Tachometer.sum_buffer buffer (Z.of_nat i) count a = None.
Proof.
  induction count as [|count IH]; intros i a Hlen; [lia|].
  cbn [Tachometer.sum_buffer].
  destruct (decide (i = length buffer)) as [->|Hne].
  - unfold Memory.load.
    destruct (Z.ltb_spec (Z.of_nat (length buffer))
                (Z.of_nat (length buffer))); [lia|].
    by rewrite andb_false_r.
  - destruct (load_Some buffer (Z.of_nat i)) as (v & Hload & _); [lia|].
    rewrite Hload. cbn [mbind option_bind].
    replace (Z.of_nat i + 1) with (Z.of_nat (S i)) by lia.
    apply IH. lia.
Qed.

(** X22.  [Average_of_Buffer] returns the truncated mean of the first
    [buffer_length] cells for every length from 1 to 65537 within the
    buffer, a value between the smallest and the largest of these
    cells.  With length 0 it divides by zero; with a negative length it
    returns 0; with a length beyond the buffer it reads past its end. *)
Theorem X22_average_of_buffer (buffer : list Z) (buffer_length : Z) :
  Forall (fun v => 0 <= v < 2 ^ 16) buffer ->
  (buffer_length = 0 ->
   Tachometer.Average_of_Buffer buffer buffer_length = None) /\
  (- 2 ^ 31 <= buffer_length < 0 ->
   Tachometer.Average_of_Buffer buffer buffer_length = Some 0) /\
  (Z.of_nat (length buffer) < buffer_length ->
   Tachometer.Average_of_Buffer buffer buffer_length = None) /\
  (1 <= buffer_length <= Z.of_nat (length buffer) ->
   buffer_length <= 65537 ->
   let w := take (Z.to_nat buffer_length) buffer in
   Tachometer.Average_of_Buffer buffer buffer_length =
     Some (sumZ w `div` buffer_length) /\
   list_min w <= sumZ w `div` buffer_length <= list_max w).
Proof.
  intros Hcells. unfold Tachometer.Average_of_Buffer.
  split; [|split; [|split]].
  - intros ->. reflexivity.
  - intros Hneg. replace (Z.to_nat buffer_length) with 0%nat by lia.
    cbn [Tachometer.sum_buffer mbind option_bind]. unfold udiv.
    destruct (Z.eqb_spec (uint32 buffer_length) 0) as [E|E].
    + exfalso. unfold uint32 in E.
      replace buffer_length with (buffer_length + 2 ^ 32 + (-1) * 2 ^ 32)
        in E by lia.
      rewrite Z_mod_plus_full, Z.mod_small in E by lia. lia.
    + reflexivity.
  - intros Hlong.
    pose proof (sum_buffer_overrun buffer (Z.to_nat buffer_length) 0 0) as E.
    change (Z.of_nat 0) with 0 in E. rewrite E by lia. done.
  - intros Hn Hmax. set (w := take (Z.to_nat buffer_length) buffer).
    pose proof (sum_buffer_spec buffer (Z.to_nat buffer_length) 0 0) as Hsum.
    change (Z.of_nat 0) with 0 in Hsum. change (uint32 0) with 0 in Hsum.
    rewrite Hsum by lia. rewrite drop_0, Z.add_0_l. fold w.
    cbn [mbind option_bind].
    assert (length w = Z.to_nat buffer_length) as Hlen
        by (unfold w; rewrite length_take; lia).
    assert (Forall (fun v => 0 <= v < 2 ^ 16) w) as Hw
        by (unfold w; by apply Forall_take).
    destruct (sumZ_bounds 0 65535 w) as [Hlo Hhi].
    { intros v Hv. pose proof (proj1 (Forall_forall _ _) Hw v Hv) as Hr.
      cbv beta in Hr. lia. }
    rewrite Hlen, Z2Nat.id in Hlo, Hhi by lia.
    rewrite (uint32_small (sumZ w)) by nia.
    rewrite (uint32_small buffer_length) by lia.
    rewrite udiv_Some by lia. cbn [mbind option_bind].
    assert (w <> []) as Hne by (intros E; rewrite E in Hlen; simpl in Hlen; lia).
    pose proof (mean_between_min_max w Hne) as Hmean.
    rewrite Hlen, Z2Nat.id in Hmean by lia.
    assert (0 <= sumZ w `div` buffer_length <= 65535) as Hq.
    { split; [apply Z.div_pos; lia|].
      apply Z.div_le_upper_bound; lia. }
    unfold uint16. rewrite Z.mod_small by lia. done.
Qed.

Lemma X22_average_of_buffer_witness :
  Tachometer.Average_of_Buffer [100; 200; 301; 65535] 3 = Some 200.
Proof.
  destruct (X22_average_of_buffer [100; 200; 301; 65535] 3) as (_ & _ & _ & H).
  - repeat constructor; lia.
  - destruct H as [H _]; [simpl; lia | lia |]. exact H.
Defined.

(** ** Barcode_Scanner.c: reading a line *)

Lemma take_removelast (kept buffer : list Z) :
  take (length kept) buffer = kept ->
  take (length (removelast kept)) buffer = removelast kept.
Proof.
  intros Hk. rewrite removelast_firstn_len.
  change (@firstn Z) with (@take Z).
  rewrite length_take.
  replace (Init.Nat.pred (length kept) `min` length kept)%nat
    with (Init.Nat.pred (length kept)) by lia.
  rewrite <- Hk at 3. rewrite take_take. f_equal. lia.
Qed.

Lemma stored_bounds (n : Z) (line : list Z) :
  forall kept : list Z,
    0 <= Serial.stored n kept line <= Z.of_nat (length line) /\
    Z.of_nat (length (foldl (Serial.edit_step n) kept line)) <=
      Z.of_nat (length kept) + Serial.stored n kept line.
Proof.
  induction line as [|c rest IH]; intros kept.
  - cbn. lia.
  - cbn [Serial.stored foldl length].
    destruct (IH (Serial.edit_step n kept c)) as [Hs Hl].
    assert (Z.of_nat (length (Serial.edit_step n kept c)) <=
            Z.of_nat (length kept) +
            (if negb (c =? Serial.BS) && (Z.of_nat (length kept) <? n)
             then 1 else 0)) as Hstep.
    { unfold Serial.edit_step. destruct (c =? Serial.BS); cbn [negb andb].
      - rewrite removelast_firstn_len. change (@firstn Z) with (@take Z).
        rewrite length_take. lia.
      - destruct (_ <? n); [rewrite length_app; simpl|]; lia. }
    destruct (negb (c =? Serial.BS) && (Z.of_nat (length kept) <? n)); lia.
Qed.

Lemma read_loop_line (bs : Z) (rest line : list Z) :
  forall (buffer kept : list Z) (sz : Z) (tx : list Z),
    Forall (fun c => c <> Serial.CR) line ->
    0 <= bs <= Z.of_nat (length buffer) ->
    take (length kept) buffer = kept -> Z.of_nat (length kept) <= bs ->
    is_int32 sz ->
    let keptF := foldl (Serial.edit_step bs) kept line in
    exists bufferF erased,
      length bufferF = length buffer /\
      take (length keptF) bufferF = keptF /\
      Z.of_nat (length keptF) <= bs /\
      Serial.read_loop (line ++ Serial.CR :: rest) buffer bs
        (Z.of_nat (length kept)) sz tx =
      (b ← Memory.store bufferF (Z.of_nat (length keptF)) 0;
       Some (int32 (sz + Serial.stored bs kept line), b,
             tx ++ replicate erased Serial.BS, rest)).
Proof.
  induction line as [|c line IH]; intros buffer kept sz tx Hline Hbs Hkept Hlen
    Hsz.
  - exists buffer, 0%nat. cbn [foldl app Serial.read_loop Serial.stored].
    rewrite Z.eqb_refl, Z.add_0_r, app_nil_r.
    unfold is_int32, INT32_MIN, INT32_MAX in Hsz.
    rewrite int32_small by lia. done.
  - inversion Hline as [|? ? Hc Hrest]; subst.
    cbn [foldl app Serial.read_loop Serial.stored].
    destruct (Z.eqb_spec c Serial.CR) as [|_]; [done|].
    destruct (Z.eqb_spec c Serial.BS) as [->|Hnb]; cbn [negb andb].
    + assert (Serial.edit_step bs kept Serial.BS = removelast kept) as ->
          by reflexivity.
      rewrite Z.add_0_l.
      destruct (Z.eqb_spec (Z.of_nat (length kept)) 0) as [E|E].
      * assert (kept = []) as -> by (destruct kept; [done | simpl in E; lia]).
        cbn [removelast]. apply (IH buffer [] sz tx); done.
      * assert (Z.of_nat (length kept) - 1 =
                Z.of_nat (length (removelast kept))) as ->.
        { rewrite removelast_firstn_len. change (@firstn Z) with (@take Z).
          rewrite length_take. lia. }
        destruct (IH buffer (removelast kept) sz (tx ++ [Serial.BS]))
          as (bufferF & erased & H1 & H2 & H3 & H4);
          [done | done | by apply take_removelast
          | rewrite removelast_firstn_len; change (@firstn Z) with (@take Z);
            rewrite length_take; lia
          | done |].
        exists bufferF, (S erased). rewrite H4.
        cbn [replicate]. rewrite <- app_assoc. done.
    + assert (Serial.edit_step bs kept c =
              if Z.of_nat (length kept) <? bs then kept ++ [c] else kept)
        as -> by (unfold Serial.edit_step;
                  by destruct (Z.eqb_spec c Serial.BS)).
      destruct (Z.ltb_spec (Z.of_nat (length kept)) bs) as [Hroom|Hfull].
      * rewrite store_Some by lia. cbn [mbind option_bind].
        rewrite Nat2Z.id.
        replace (Z.of_nat (length kept) + 1)
          with (Z.of_nat (length (kept ++ [c])))
          by (rewrite length_app; simpl; lia).
        destruct (IH (<[length kept := c]> buffer) (kept ++ [c])
                    (int32 (sz + 1)) tx)
          as (bufferF & erased & H1 & H2 & H3 & H4);
          [done | by rewrite length_insert | |
           rewrite length_app; simpl; lia | apply int32_range |].
        { rewrite length_app. cbn [length].
          replace (length kept + 1)%nat with (S (length kept)) by lia.
          rewrite (take_S_r _ _ c).
          - rewrite take_insert_ge by lia. by rewrite Hkept.
          - apply list_lookup_insert_eq. lia. }
        exists bufferF, erased. rewrite H4, int32_add_l.
        rewrite length_insert in H1.
        split; [done|]. split; [done|]. split; [done|].
        by rewrite Z.add_assoc.
      * rewrite Z.add_0_l.
        destruct (IH buffer kept sz tx)
          as (bufferF & erased & H1 & H2 & H3 & H4); try done.
        exists bufferF, erased. rewrite H4. done.
Qed.

Lemma read_loop_waits (bs : Z) (line : list Z) :
  forall (buffer : list Z) (len sz : Z) (tx : list Z),
    Forall (fun c => c <> Serial.CR) line ->
    Serial.read_loop line buffer bs len sz tx = None.
Proof.
  induction line as [|c line IH]; intros buffer len sz tx Hline; [done|].
  inversion Hline as [|? ? Hc Hrest]; subst. cbn [Serial.read_loop].
  destruct (Z.eqb_spec c Serial.CR) as [|_]; [done|].
  destruct (c =? Serial.BS); [destruct (len =? 0); by apply IH|].
  destruct (len <? bs); [|by apply IH].
  destruct (Memory.store buffer len c); [by apply IH | done].
Qed.

(** X23.  [Barcode_Scanner_Read] returns only when a carriage return
    arrives.  It then leaves in the buffer the line as edited by the
    backspaces received, cut to [buffer_size] characters and followed
    by a zero, and returns the number of characters it has stored on
    the way, which is at least the length of the line left and larger
    when a stored character was erased again.  The zero is written at
    index [buffer_size] when the line fills the buffer: with a buffer
    of exactly [buffer_size] cells that store is outside the buffer. *)
Theorem X23_line_reading
    (line rest buffer : list Z) (buffer_size : Z) :
  Forall (fun c => c <> Serial.CR) line ->
  0 <= buffer_size <= Z.of_nat (length buffer) ->
  Z.of_nat (length line) < 2 ^ 31 ->
  let kept := Serial.edit buffer_size line in
  let count := Serial.stored buffer_size [] line in
  Serial.Barcode_Scanner_Read line buffer buffer_size = None /\
  Z.of_nat (length kept) <= count /\
  Z.of_nat (length kept) <= buffer_size /\
  (Z.of_nat (length kept) < Z.of_nat (length buffer) ->
   exists buffer' erased,
     Serial.Barcode_Scanner_Read (line ++ Serial.CR :: rest) buffer
       buffer_size =
       Some (count, buffer', replicate erased Serial.BS, rest) /\
     take (length kept) buffer' = kept /\
     buffer' !! length kept = Some 0) /\
  (Z.of_nat (length kept) = Z.of_nat (length buffer) ->
   Serial.Barcode_Scanner_Read (line ++ Serial.CR :: rest) buffer
     buffer_size = None).
Proof.
  intros Hline Hbs Hshort kept count.
  destruct (stored_bounds buffer_size line []) as [Hcount Hkept].
  fold count in Hcount, Hkept. fold (Serial.edit buffer_size line) in Hkept.
  fold kept in Hkept. cbn [length] in Hkept.
  destruct (read_loop_line buffer_size rest line buffer [] 0 [] Hline Hbs)
    as (bufferF & erased & H1 & H2 & H3 & H4);
    [done | simpl; lia | vm_compute; split; discriminate |].
  cbv zeta in H2, H3, H4. fold (Serial.edit buffer_size line) in H2, H3, H4.
  fold kept in H2, H3, H4. fold count in H4.
  cbn [length app] in H4. change (Z.of_nat 0) with 0 in H4.
  rewrite Z.add_0_l, int32_small in H4 by lia.
  unfold Serial.Barcode_Scanner_Read.
  split; [by apply read_loop_waits|]. split; [lia|]. split; [done|].
  rewrite H4. split.
  - intros Hroom. rewrite store_Some by lia. cbn [mbind option_bind].
    rewrite Nat2Z.id. exists (<[length kept := 0]> bufferF), erased.
    split; [done|]. split.
    + rewrite take_insert_ge by lia. done.
    + apply list_lookup_insert_eq. lia.
  - intros Hfull. rewrite store_None by lia. done.
Qed.

Lemma X23_line_reading_witness :
  exists buffer' erased,
    Serial.Barcode_Scanner_Read ([65; 66; 8; 67] ++ Serial.CR :: [70])
      [0; 0; 0; 0; 0] 4 = Some (3, buffer', replicate erased Serial.BS, [70]) /\
    take 2 buffer' = [65; 67] /\ buffer' !! 2%nat = Some 0.
Proof.
  destruct (X23_line_reading [65; 66; 8; 67] [70] [0; 0; 0; 0; 0] 4)
    as (_ & _ & _ & H & _).
  - repeat constructor; discriminate.
  - simpl. lia.
  - simpl. lia.
  - apply H. simpl. lia.
Defined.

(** ** EUSCI_A0_UART.c: decimal numbers *)

Lemma uint32_digit_step (a c : Z) :
  uint32 (10 * uint32 a + (c - 48)) = uint32 (10 * a + (c - 48)).
Proof.
  unfold uint32.
  rewrite <- (Z.add_mod_idemp_l (10 * (a `mod` 2 ^ 32))) by lia.
  rewrite Z.mul_mod_idemp_r by lia.
  by rewrite Z.add_mod_idemp_l by lia.
Qed.

Lemma InUDec_loop_digits (rest digits : list Z) :
  forall (a length : Z) (tx : list Z),
    Forall Serial.is_digit digits ->
    exists length',
      Serial.InUDec_loop (digits ++ Serial.CR :: rest) (uint32 a) length tx =
      Some (uint32 (foldl (fun acc c => 10 * acc + (c - 48)) a digits),
            tx ++ digits, rest) /\ length' = length.
Proof.
  induction digits as [|c digits IH]; intros a len tx Hdigits.
  - exists len. cbn [app foldl Serial.InUDec_loop]. rewrite Z.eqb_refl.
    by rewrite app_nil_r.
  - inversion Hdigits as [|? ? Hc Hrest]; subst.
    unfold Serial.is_digit in Hc.
    cbn [app foldl Serial.InUDec_loop].
    destruct (Z.eqb_spec c Serial.CR) as [E|_];
      [unfold Serial.CR in E; lia|].
    rewrite Z.geb_leb.
    destruct (Z.leb_spec 48 c); [|lia]. destruct (Z.leb_spec c 57); [|lia].
    cbn [andb]. rewrite uint32_digit_step.
    destruct (IH (10 * a + (c - 48)) (uint32 (len + 1)) (tx ++ [c]) Hrest)
      as (? & E & _).
    exists len. rewrite E, <- app_assoc. done.
Qed.

Lemma decimal_snoc (front : list Z) (c : Z) :
  Serial.decimal (front ++ [c]) = 10 * Serial.decimal front + (c - 48).
Proof. unfold Serial.decimal. by rewrite foldl_app. Qed.

Lemma OutUDec_digits (depth : nat) :
  forall n : Z,
    0 <= n < 10 ^ Z.of_nat (S depth) ->
    exists digits,
      Serial.OutUDec (S depth) n = Some digits /\
      Forall Serial.is_digit digits /\ Serial.decimal digits = n /\
      (1 <= length digits <= S depth)%nat /\
      (hd 48 digits = 48 -> n = 0).
Proof.
  assert (forall n, 0 <= n < 10 ->
            exists digits,
              Some [Driver.uint8 (n + 48)] = Some digits /\
              Forall Serial.is_digit digits /\ Serial.decimal digits = n /\
              (1 <= length digits <= 1)%nat /\
              (hd 48 digits = 48 -> n = 0)) as Hone.
  { intros n Hn. unfold Driver.uint8. rewrite (Z.mod_small (n + 48)) by lia.
    eexists. split; [reflexivity|]. split; [|split; [|split]].
    - apply List.Forall_cons; [unfold Serial.is_digit; lia | constructor].
    - unfold Serial.decimal. cbn [foldl]. lia.
    - simpl. lia.
    - cbn [hd]. lia. }
  induction depth as [|depth IH]; intros n Hn.
  - change (10 ^ Z.of_nat 1) with 10 in Hn.
    cbn [Serial.OutUDec]. rewrite Z.geb_leb.
    destruct (Z.leb_spec 10 n); [lia|]. by apply Hone.
  - remember (S depth) as d eqn:Hd. cbn [Serial.OutUDec]. rewrite Z.geb_leb.
    destruct (Z.leb_spec 10 n) as [Hbig|Hsmall].
    + assert (0 <= n `div` 10 < 10 ^ Z.of_nat d) as Hq.
      { rewrite Nat2Z.inj_succ, Z.pow_succ_r in Hn by lia.
        split; [apply Z.div_pos; lia|].
        apply Z.div_lt_upper_bound; lia. }
      destruct (IH (n `div` 10) Hq) as (front & E & Hdg & Hv & Hl & Hz).
      rewrite E. cbn [mbind option_bind].
      assert (0 <= n `mod` 10 < 10) as Hm by (apply Z.mod_pos_bound; lia).
      unfold Driver.uint8. rewrite (Z.mod_small (n `mod` 10 + 48)) by lia.
      eexists. split; [reflexivity|]. split; [|split; [|split]].
      * apply Forall_app. split; [done|].
        apply List.Forall_cons; [unfold Serial.is_digit; lia | constructor].
      * rewrite decimal_snoc, Hv. Z.div_mod_to_equations. lia.
      * rewrite length_app. simpl. lia.
      * intros Hhd. destruct front as [|c front]; [simpl in Hl; lia|].
        cbn [app hd] in Hhd. cbn [hd] in Hz. specialize (Hz Hhd).
        Z.div_mod_to_equations. lia.
    + destruct (Hone n) as (digits & E & Hdg & Hv & Hl & Hz); [lia|].
      exists digits. split; [done|]. split; [done|]. split; [done|].
      split; [lia | done].
Qed.

(** X24.  Decimal output and input over the UART agree.
    [EUSCI_A0_UART_OutUDec] prints any 32-bit number as one to ten
    decimal digits without leading zero, with a recursion at most ten
    calls deep; [EUSCI_A0_UART_InUDec] on a string of decimal digits and
    a carriage return echoes the digits and returns the number they stand
    for modulo 2^32; so reading back what was printed gives the number
    printed.  [EUSCI_A0_UART_OutSDec] prints a minus sign and the
    magnitude for a negative number, the most negative one included. *)
Theorem X24_decimal_round_trip (n : Z) (digits rest : list Z) :
  (Forall Serial.is_digit digits ->
   Serial.EUSCI_A0_UART_InUDec (digits ++ Serial.CR :: rest) =
     Some (uint32 (Serial.decimal digits), digits, rest)) /\
  (0 <= n < 2 ^ 32 ->
   exists printed,
     Serial.OutUDec 10 n = Some printed /\
     Forall Serial.is_digit printed /\ (1 <= length printed <= 10)%nat /\
     (hd 48 printed = 48 -> n = 0) /\
     Serial.EUSCI_A0_UART_InUDec (printed ++ Serial.CR :: rest) =
       Some (n, printed, rest)) /\
  (- 2 ^ 31 <= n < 0 ->
   exists printed,
     Serial.OutSDec 10 n = Some (45 :: printed) /\
     Forall Serial.is_digit printed /\ Serial.decimal printed = - n).
Proof.
  assert (forall ds, Forall Serial.is_digit ds ->
            Serial.EUSCI_A0_UART_InUDec (ds ++ Serial.CR :: rest) =
            Some (uint32 (Serial.decimal ds), ds, rest)) as Hin.
  { intros ds Hds.
    destruct (InUDec_loop_digits rest ds 0 0 [] Hds) as (? & E & _).
    exact E. }
  split; [apply Hin|]. split.
  - intros Hn.
    destruct (OutUDec_digits 9 n) as (printed & E & Hd & Hv & Hl & Hz);
      [change (10 ^ Z.of_nat 10) with 10000000000; lia|].
    exists printed. rewrite (Hin printed Hd), Hv, uint32_small by lia. done.
  - intros Hn. unfold Serial.OutSDec.
    destruct (Z.ltb_spec n 0); [|lia].
    assert (uint32 (int32 (- n)) = - n) as ->.
    { unfold uint32, int32.
      destruct (Z.eq_dec n (- 2 ^ 31)) as [->|Hne]; [reflexivity|].
      rewrite (Z.mod_small (- n + 2 ^ 31)) by lia.
      rewrite Z.mod_small by lia. lia. }
    destruct (OutUDec_digits 9 (- n)) as (printed & E & Hd & Hv & _);
      [change (10 ^ Z.of_nat 10) with 10000000000; lia|].
    exists printed. rewrite E. done.
Qed.

Lemma X24_decimal_round_trip_witness :
  Serial.EUSCI_A0_UART_InUDec ([52; 50] ++ Serial.CR :: [65]) =
    Some (42, [52; 50], [65]) /\
  (exists printed,
     Serial.OutUDec 10 4294967295 = Some printed /\
     Serial.EUSCI_A0_UART_InUDec (printed ++ Serial.CR :: [65]) =
       Some (4294967295, printed, [65])).
Proof.
  destruct (X24_decimal_round_trip 4294967295 [52; 50] [65])
    as (H1 & H2 & _).
  split.
  - apply H1. repeat apply List.Forall_cons; try apply List.Forall_nil;
      unfold Serial.is_digit; lia.
  - destruct H2 as (printed & E & _ & _ & _ & Hback); [lia|].
    exists printed. split; [exact E | exact Hback].
Defined.

(** ** Nokia5110_LCD.c and the counters of the main loop *)

Lemma counters_after (passes : nat) :
  50 * Z.of_nat passes < 2 ^ 32 ->
  Nat.iter passes Display.main_loop_counters (Display.mkCounters 0 0) =
  Display.mkCounters (Z.of_nat passes `div` 20) (50 * Z.of_nat passes).
Proof.
  induction passes as [|passes IH]; intros Hp; [reflexivity|].
  rewrite Nat.iter_succ, IH by lia.
  unfold Display.main_loop_counters.
  cbn [Display.counter Display.mscounter].
  replace (50 * Z.of_nat passes + 50) with (50 * Z.of_nat (S passes)) by lia.
  rewrite (uint32_small (50 * Z.of_nat (S passes))) by lia.
  f_equal.
  destruct (Z.eqb_spec ((50 * Z.of_nat (S passes)) `mod` 1000) 0) as [E|E].
  - rewrite uint32_small
      by (split; [|apply Z.lt_le_trans with (Z.of_nat passes + 1)];
          Z.div_mod_to_equations; lia).
    Z.div_mod_to_equations. lia.
  - Z.div_mod_to_equations. lia.
Qed.

Lemma OutUDec_field (n : Z) :
  0 <= n < 2 ^ 16 ->
  length (Display.Nokia5110_OutUDec n) = 5%nat /\
  Display.right_aligned (Display.Nokia5110_OutUDec n) n.
Proof.
  intros Hn. unfold Display.Nokia5110_OutUDec, Display.right_aligned.
  cbv zeta. unfold Driver.uint8.
  assert (forall d, 0 <= d <= 9 -> (d + 48) `mod` 2 ^ 8 = d + 48) as Hchar
      by (intros d Hd; apply Z.mod_small; lia).
  assert (forall d, 0 <= d <= 9 -> Serial.is_digit (d + 48)) as Hdig
      by (intros d Hd; unfold Serial.is_digit; lia).
  destruct (Z.ltb_spec n 10); [|destruct (Z.ltb_spec n 100);
    [|destruct (Z.ltb_spec n 1000); [|destruct (Z.ltb_spec n 10000)]]].
  - split; [done|]. exists 4%nat, [n + 48].
    rewrite Hchar by lia. split; [done|].
    split; [repeat apply List.Forall_cons; try apply List.Forall_nil;
           apply Hdig; lia|].
    split; [unfold Serial.decimal; cbn [foldl]; lia|].
    cbn [hd]. intros E. f_equal. done.
  - split; [done|].
    exists 3%nat, [n `div` 10 + 48; n `mod` 10 + 48].
    rewrite !Hchar by (Z.div_mod_to_equations; lia). split; [done|].
    split; [repeat apply List.Forall_cons; try apply List.Forall_nil;
           apply Hdig; Z.div_mod_to_equations; lia|].
    split; [unfold Serial.decimal; cbn [foldl]; Z.div_mod_to_equations; lia|].
    cbn [hd]. intros E. exfalso. Z.div_mod_to_equations. lia.
  - split; [done|].
    exists 2%nat, [n `div` 100 + 48; (n `mod` 100) `div` 10 + 48;
                  (n `mod` 100) `mod` 10 + 48].
    rewrite !Hchar by (Z.div_mod_to_equations; lia). split; [done|].
    split; [repeat apply List.Forall_cons; try apply List.Forall_nil;
           apply Hdig; Z.div_mod_to_equations; lia|].
    split; [unfold Serial.decimal; cbn [foldl]; Z.div_mod_to_equations; lia|].
    cbn [hd]. intros E. exfalso. Z.div_mod_to_equations. lia.
  - split; [done|].
    exists 1%nat, [n `div` 1000 + 48; (n `mod` 1000) `div` 100 + 48;
                  ((n `mod` 1000) `mod` 100) `div` 10 + 48;
                  ((n `mod` 1000) `mod` 100) `mod` 10 + 48].
    rewrite !Hchar by (Z.div_mod_to_equations; lia). split; [done|].
    split; [repeat apply List.Forall_cons; try apply List.Forall_nil;
           apply Hdig; Z.div_mod_to_equations; lia|].
    split; [unfold Serial.decimal; cbn [foldl]; Z.div_mod_to_equations; lia|].
    cbn [hd]. intros E. exfalso. Z.div_mod_to_equations. lia.
  - split; [done|].
    exists 0%nat, [n `div` 10000 + 48; (n `mod` 10000) `div` 1000 + 48;
                  ((n `mod` 10000) `mod` 1000) `div` 100 + 48;
                  (((n `mod` 10000) `mod` 1000) `mod` 100) `div` 10 + 48;
                  (((n `mod` 10000) `mod` 1000) `mod` 100) `mod` 10 + 48].
    rewrite !Hchar by (Z.div_mod_to_equations; lia). split; [done|].
    split; [repeat apply List.Forall_cons; try apply List.Forall_nil;
           apply Hdig; Z.div_mod_to_equations; lia|].
    split; [unfold Serial.decimal; cbn [foldl]; Z.div_mod_to_equations; lia|].
    cbn [hd]. intros E. exfalso. Z.div_mod_to_equations. lia.
Qed.

(** X25.  The counter the main loop of Maze/main.c shows on the display
    counts passes of the loop: after any number of passes, as long as
    50 times that number fits 32 bits, [mscounter] is 50 times the
    number of passes and [counter] is the number of passes divided by
    20, whatever time a pass took.  [Nokia5110_OutUDec], which gets the
    counter cut to 16 bits, writes exactly five characters: blanks, then
    the decimal digits of that number without leading zero. *)
Theorem X25_counter_on_display (passes : nat) :
  50 * Z.of_nat passes < 2 ^ 32 ->
  let k :=
    Nat.iter passes Display.main_loop_counters (Display.mkCounters 0 0) in
  let field := Display.Nokia5110_OutUDec (uint16 (Display.counter k)) in
  Display.mscounter k = 50 * Z.of_nat passes /\
  Display.counter k = Z.of_nat passes `div` 20 /\
  length field = 5%nat /\
  Display.right_aligned field ((Z.of_nat passes `div` 20) `mod` 2 ^ 16).
Proof.
  intros Hp. cbv zeta. rewrite counters_after by done.
  cbn [Display.counter Display.mscounter].
  split; [done|]. split; [done|].
  apply OutUDec_field. unfold uint16. apply Z.mod_pos_bound. lia.
Qed.

Lemma X25_counter_on_display_witness :
  Display.counter
    (Nat.iter 45 Display.main_loop_counters (Display.mkCounters 0 0)) = 2 /\
  length (Display.Nokia5110_OutUDec
            (uint16 (Display.counter
               (Nat.iter 45 Display.main_loop_counters
                  (Display.mkCounters 0 0))))) = 5%nat.
Proof.
  destruct (X25_counter_on_display 45) as (_ & H1 & H2 & _); [simpl; lia|].
  split; [exact H1 | exact H2].
Defined.

(** ** PMOD_Color.c *)

Lemma normalize_spec (s lo hi : Z) :
  0 <= lo -> lo <= s <= hi -> hi < 2 ^ 16 ->
  (lo = hi -> PMOD.normalize s lo hi = None) /\
  (lo < hi ->
   PMOD.normalize s lo hi = Some ((s - lo) * (65535 `div` (hi - lo))) /\
   0 <= (s - lo) * (65535 `div` (hi - lo)) <= 65535 /\
   (32768 <= hi - lo -> (s - lo) * (65535 `div` (hi - lo)) = s - lo)).
Proof.
  intros Hlo Hs Hhi. unfold PMOD.normalize.
  rewrite (int32_small (hi - lo)), (int32_small (s - lo)) by lia. split.
  - intros ->. by rewrite Z.sub_diag.
  - intros Hlt. destruct (Z.eqb_spec (hi - lo) 0); [lia|].
    rewrite Z.quot_div_nonneg by lia.
    assert (1 <= 65535 `div` (hi - lo)) as Hq
        by (apply Z.div_le_lower_bound; lia).
    assert ((hi - lo) * (65535 `div` (hi - lo)) <= 65535) as Hfull
        by (apply Z.mul_div_le; lia).
    assert (0 <= (s - lo) * (65535 `div` (hi - lo)) <= 65535) as Hrange by nia.
    rewrite int32_small by lia. unfold uint16. rewrite Z.mod_small by lia.
    split; [done|]. split; [done|].
    intros Hwide.
    assert (65535 `div` (hi - lo) = 1) as ->; [|lia].
    symmetry. apply Z.div_unique with (65535 - (hi - lo)); lia.
Qed.

Lemma Calibrate_field (k : PMOD.Colour) (sample : PMOD.PMOD_Color_Data)
    (cal : PMOD.PMOD_Calibration_Data) :
  let cal' := PMOD.PMOD_Color_Calibrate sample cal in
  PMOD.field k (PMOD.min cal') =
    Z.min (PMOD.field k (PMOD.min cal)) (PMOD.field k sample) /\
  PMOD.field k (PMOD.max cal') =
    Z.max (PMOD.field k (PMOD.max cal)) (PMOD.field k sample).
Proof.
  cbv zeta. unfold PMOD.PMOD_Color_Calibrate.
  destruct k; cbn [PMOD.field PMOD.min PMOD.max PMOD.clear PMOD.red
                   PMOD.green PMOD.blue];
    rewrite Z.gtb_ltb;
    match goal with
    | |- context [?a <? ?b] => destruct (Z.ltb_spec a b)
    end;
    match goal with
    | |- context [?a <? ?b] => destruct (Z.ltb_spec a b)
    end; lia.
Qed.

Lemma Normalize_fields (sample : PMOD.PMOD_Color_Data)
    (cal : PMOD.PMOD_Calibration_Data) :
  PMOD.PMOD_Color_Normalize_Calibration sample cal =
  (c ← PMOD.normalize (PMOD.field PMOD.Clear sample)
         (PMOD.field PMOD.Clear (PMOD.min cal))
         (PMOD.field PMOD.Clear (PMOD.max cal));
   r ← PMOD.normalize (PMOD.field PMOD.Red sample)
         (PMOD.field PMOD.Red (PMOD.min cal))
         (PMOD.field PMOD.Red (PMOD.max cal));
   g ← PMOD.normalize (PMOD.field PMOD.Green sample)
         (PMOD.field PMOD.Green (PMOD.min cal))
         (PMOD.field PMOD.Green (PMOD.max cal));
   b ← PMOD.normalize (PMOD.field PMOD.Blue sample)
         (PMOD.field PMOD.Blue (PMOD.min cal))
         (PMOD.field PMOD.Blue (PMOD.max cal));
   Some (PMOD.mkData r g b c)).
Proof. reflexivity. Qed.

(** X26.  One pass of the colour part of the main loop.
    [PMOD_Color_Calibrate] widens the calibration data just enough to
    hold the sample: each minimum becomes the smaller of itself and the
    sample, each maximum the larger.  When afterwards every channel has
    its minimum below its maximum, [PMOD_Color_Normalize_Calibration]
    returns, for each channel, the distance of the sample from the
    minimum times the truncated quotient of 65535 by the range: a value
    from 0 to 65535, and the plain distance without any scaling once
    the range is 32768 or more.  [Handle_Red] is then called exactly
    when the normalised red is at least 46080, the green below 20736
    and the blue at least 20480. *)
Theorem X26_normalised_colour_in_range
    (sample : PMOD.PMOD_Color_Data) (cal : PMOD.PMOD_Calibration_Data) :
  PMOD.is_sample sample -> PMOD.ordered cal ->
  let cal' := PMOD.PMOD_Color_Calibrate sample cal in
  PMOD.ordered cal' /\
  (forall k,
     PMOD.field k (PMOD.min cal') =
       Z.min (PMOD.field k (PMOD.min cal)) (PMOD.field k sample) /\
     PMOD.field k (PMOD.max cal') =
       Z.max (PMOD.field k (PMOD.max cal)) (PMOD.field k sample)) /\
  ((forall k, PMOD.field k (PMOD.min cal') < PMOD.field k (PMOD.max cal')) ->
   exists n,
     PMOD.main_loop_colour sample cal =
       Some (cal', n,
             Maze.sees_red (PMOD.red n) (PMOD.green n) (PMOD.blue n)) /\
     (forall k,
        let range :=
          PMOD.field k (PMOD.max cal') - PMOD.field k (PMOD.min cal') in
        PMOD.field k n =
          (PMOD.field k sample - PMOD.field k (PMOD.min cal'))
          * (65535 `div` range) /\
        0 <= PMOD.field k n <= 65535 /\
        (32768 <= range ->
         PMOD.field k n = PMOD.field k sample - PMOD.field k (PMOD.min cal')))
     /\
     (Maze.sees_red (PMOD.red n) (PMOD.green n) (PMOD.blue n) = true <->
      46080 <= PMOD.red n /\ PMOD.green n < 20736 /\ 20480 <= PMOD.blue n)).
Proof.
  intros Hs Hcal cal'.
  assert (forall k,
     PMOD.field k (PMOD.min cal') =
       Z.min (PMOD.field k (PMOD.min cal)) (PMOD.field k sample) /\
     PMOD.field k (PMOD.max cal') =
       Z.max (PMOD.field k (PMOD.max cal)) (PMOD.field k sample)) as Hfield
    by (intros k; apply Calibrate_field).
  assert (forall k,
     0 <= PMOD.field k (PMOD.min cal') /\
     PMOD.field k (PMOD.min cal') <= PMOD.field k sample
       <= PMOD.field k (PMOD.max cal') /\
     PMOD.field k (PMOD.max cal') < 2 ^ 16) as Hbounds.
  { intros k. destruct (Hfield k) as [-> ->].
    specialize (Hs k). specialize (Hcal k). lia. }
  split; [|split; [done|]].
  { intros k. specialize (Hbounds k). lia. }
  intros Hwide. unfold PMOD.main_loop_colour. cbv zeta. fold cal'.
  rewrite Normalize_fields.
  assert (forall k,
            PMOD.normalize (PMOD.field k sample) (PMOD.field k (PMOD.min cal'))
              (PMOD.field k (PMOD.max cal')) =
            Some ((PMOD.field k sample - PMOD.field k (PMOD.min cal'))
                  * (65535 `div` (PMOD.field k (PMOD.max cal')
                                  - PMOD.field k (PMOD.min cal')))) /\
            0 <= (PMOD.field k sample - PMOD.field k (PMOD.min cal'))
                 * (65535 `div` (PMOD.field k (PMOD.max cal')
                                 - PMOD.field k (PMOD.min cal'))) <= 65535 /\
            (32768 <= PMOD.field k (PMOD.max cal')
                      - PMOD.field k (PMOD.min cal') ->
             (PMOD.field k sample - PMOD.field k (PMOD.min cal'))
             * (65535 `div` (PMOD.field k (PMOD.max cal')
                             - PMOD.field k (PMOD.min cal'))) =
             PMOD.field k sample - PMOD.field k (PMOD.min cal'))) as Hnorm.
  { intros k. destruct (Hbounds k) as (H1 & H2 & H3).
    apply (normalize_spec _ _ _ H1 H2 H3). apply Hwide. }
  rewrite (proj1 (Hnorm PMOD.Clear)), (proj1 (Hnorm PMOD.Red)),
    (proj1 (Hnorm PMOD.Green)), (proj1 (Hnorm PMOD.Blue)).
  cbn [mbind option_bind]. eexists. split; [reflexivity|]. split.
  - intros k. cbv zeta. destruct (Hnorm k) as (_ & H2 & H3).
    destruct k; cbn [PMOD.field PMOD.clear PMOD.red PMOD.green PMOD.blue]
      in *; done.
  - cbn [PMOD.red PMOD.green PMOD.blue]. unfold Maze.sees_red. cbv zeta.
    rewrite !Z.geb_leb, !andb_true_iff, !Z.leb_le.
    split.
    + intros [[H1 H2] H3]. split; [|split]; Z.div_mod_to_equations; lia.
    + intros (H1 & H2 & H3). split; [split|]; Z.div_mod_to_equations; lia.
Qed.

Lemma X26_normalised_colour_in_range_witness :
  exists n,
    PMOD.main_loop_colour (PMOD.mkData 50000 1000 30000 40000)
      (PMOD.mkCalibration (PMOD.mkData 1000 500 2000 3000)
                          (PMOD.mkData 40000 20000 30000 50000)) =
    Some (PMOD.mkCalibration (PMOD.mkData 1000 500 2000 3000)
                             (PMOD.mkData 50000 20000 30000 50000),
          n, true) /\
    PMOD.red n = 49000.
Proof.
  destruct (X26_normalised_colour_in_range (PMOD.mkData 50000 1000 30000 40000)
              (PMOD.mkCalibration (PMOD.mkData 1000 500 2000 3000)
                                  (PMOD.mkData 40000 20000 30000 50000)))
    as (_ & _ & H).
  - intros [| | |]; cbn; lia.
  - intros [| | |]; cbn; lia.
  - destruct H as (n & E & Hfields & Hred).
    + intros [| | |]; cbn; lia.
    + exists n.
      destruct (Hfields PMOD.Red) as (Er & _).
      destruct (Hfields PMOD.Green) as (Eg & _).
      destruct (Hfields PMOD.Blue) as (Eb & _).
      cbv zeta in Er, Eg, Eb. cbn [PMOD.field] in Er, Eg, Eb.
      assert (PMOD.red n = 49000) as Hr by (rewrite Er; reflexivity).
      assert (PMOD.green n = 1500) as Hg by (rewrite Eg; reflexivity).
      assert (PMOD.blue n = 56000) as Hb by (rewrite Eb; reflexivity).
      split; [|done]. rewrite E. do 2 f_equal.
      apply Hred. rewrite Hr, Hg, Hb. lia.
Defined.

(** X27.  A channel that has shown one value only makes the
    normalisation divide by zero: when the sample of a channel equals
    both its minimum and its maximum so far, as in the first pass of the
    main loop if the sensor returns what it returned at start-up, the
    range of the channel is zero and
    [PMOD_Color_Normalize_Calibration] is undefined. *)
Theorem X27_constant_channel_divides_by_zero
    (sample : PMOD.PMOD_Color_Data) (cal : PMOD.PMOD_Calibration_Data)
    (k : PMOD.Colour) :
  PMOD.field k (PMOD.min cal) = PMOD.field k sample ->
  PMOD.field k (PMOD.max cal) = PMOD.field k sample ->
  PMOD.main_loop_colour sample cal = None /\
  PMOD.main_loop_colour sample
    (PMOD.PMOD_Color_Init_Calibration_Data sample) = None.
Proof.
  assert (forall cal0 k0,
            PMOD.field k0 (PMOD.min cal0) = PMOD.field k0 sample ->
            PMOD.field k0 (PMOD.max cal0) = PMOD.field k0 sample ->
            PMOD.main_loop_colour sample cal0 = None) as Hnone.
  { intros cal0 k0 Hmin Hmax. unfold PMOD.main_loop_colour. cbv zeta.
    rewrite Normalize_fields.
    assert (PMOD.normalize (PMOD.field k0 sample)
              (PMOD.field k0 (PMOD.min (PMOD.PMOD_Color_Calibrate sample cal0)))
              (PMOD.field k0 (PMOD.max (PMOD.PMOD_Color_Calibrate sample cal0)))
            = None) as Hk.
    { destruct (Calibrate_field k0 sample cal0) as [-> ->].
      rewrite Hmin, Hmax, Z.min_id, Z.max_id. unfold PMOD.normalize.
      by rewrite Z.sub_diag. }
    destruct k0; rewrite ?Hk;
      repeat match goal with
             | |- context [PMOD.normalize ?a ?b ?c] =>
                 destruct (PMOD.normalize a b c) eqn:?;
                 cbn [mbind option_bind]; try done
             end; congruence. }
  intros Hmin Hmax. split; [by apply (Hnone cal k)|].
  by apply (Hnone _ PMOD.Red).
Qed.

Lemma X27_constant_channel_divides_by_zero_witness :
  PMOD.main_loop_colour (PMOD.mkData 300 200 100 400)
    (PMOD.mkCalibration (PMOD.mkData 100 200 50 100)
                        (PMOD.mkData 900 200 800 700)) = None.
Proof.
  apply (X27_constant_channel_divides_by_zero (PMOD.mkData 300 200 100 400)
           (PMOD.mkCalibration (PMOD.mkData 100 200 50 100)
                               (PMOD.mkData 900 200 800 700)) PMOD.Green);
    reflexivity.
Defined.

(** ** EUSCI_A0_UART.c: hexadecimal numbers *)

Lemma uint32_hex_step (a v : Z) :
  uint32 (uint32 a * 16 + v) = uint32 (16 * a + v).
Proof.
  unfold uint32.
  rewrite <- (Z.add_mod_idemp_l (a `mod` 2 ^ 32 * 16)) by lia.
  rewrite Z.mul_mod_idemp_l by lia.
  rewrite Z.add_mod_idemp_l by lia. f_equal. lia.
Qed.

Lemma InUHex_loop_digits (rest digits : list Z) :
  forall (a length : Z) (tx : list Z),
    Forall Serial.is_hex_digit digits ->
    Serial.InUHex_loop (digits ++ Serial.CR :: rest) (uint32 a) length tx =
    Some (uint32 (foldl (fun acc c =>
                           16 * acc + (if c <=? 57 then c - 48 else c - 55))
                        a digits),
          tx ++ digits, rest).
Proof.
  induction digits as [|c digits IH]; intros a len tx Hdigits.
  - cbn [app foldl Serial.InUHex_loop]. rewrite Z.eqb_refl.
    by rewrite app_nil_r.
  - inversion Hdigits as [|? ? Hc Hrest]; subst.
    unfold Serial.is_hex_digit in Hc.
    cbn [app foldl Serial.InUHex_loop].
    destruct (Z.eqb_spec c Serial.CR) as [E|_];
      [unfold Serial.CR in E; lia|].
    cbv zeta. rewrite !Z.geb_leb.
    destruct (Z.leb_spec c 57) as [Hd|Hl].
    + destruct (Z.leb_spec 48 c); [|lia]. cbn [andb].
      destruct (Z.leb_spec (c - 48) 15); [|lia].
      rewrite uint32_hex_step, IH by done. by rewrite <- app_assoc.
    + destruct (Z.leb_spec 48 c); [|lia]. cbn [andb].
      destruct (Z.leb_spec 65 c); [|lia]. destruct (Z.leb_spec c 70); [|lia].
      cbn [andb]. destruct (Z.leb_spec (c - 65 + 10) 15); [|lia].
      replace (c - 65 + 10) with (c - 55) by lia.
      rewrite uint32_hex_step, IH by done. by rewrite <- app_assoc.
Qed.

Lemma hexadecimal_app (front back : list Z) :
  Serial.hexadecimal (front ++ back) =
  foldl (fun acc c => 16 * acc + (if c <=? 57 then c - 48 else c - 55))
        (Serial.hexadecimal front) back.
Proof. unfold Serial.hexadecimal. by rewrite foldl_app. Qed.

Lemma OutUHex_digit (depth : nat) (n : Z) :
  0 <= n < 16 ->
  exists c,
    Serial.OutUHex (S depth) n = Some [c] /\ Serial.is_hex_digit c /\
    (if c <=? 57 then c - 48 else c - 55) = n /\ (c = 48 -> n = 0).
Proof.
  intros Hn. cbn [Serial.OutUHex]. rewrite Z.geb_leb.
  destruct (Z.leb_spec 16 n); [lia|]. unfold Driver.uint8.
  destruct (Z.ltb_spec n 10).
  - rewrite Z.mod_small by lia. eexists. split; [reflexivity|].
    unfold Serial.is_hex_digit. destruct (Z.leb_spec (n + 48) 57); lia.
  - rewrite Z.mod_small by lia. eexists. split; [reflexivity|].
    unfold Serial.is_hex_digit. destruct (Z.leb_spec (n - 10 + 65) 57); lia.
Qed.

Lemma OutUHex_digits (depth : nat) :
  forall n : Z,
    0 <= n < 16 ^ Z.of_nat (S depth) ->
    exists digits,
      Serial.OutUHex (S depth) n = Some digits /\
      Forall Serial.is_hex_digit digits /\ Serial.hexadecimal digits = n /\
      (1 <= length digits <= S depth)%nat /\
      (hd 48 digits = 48 -> n = 0).
Proof.
  assert (forall d n, 0 <= n < 16 ->
            exists digits,
              Serial.OutUHex (S d) n = Some digits /\
              Forall Serial.is_hex_digit digits /\
              Serial.hexadecimal digits = n /\
              (1 <= length digits <= 1)%nat /\
              (hd 48 digits = 48 -> n = 0)) as Hone.
  { intros d n Hn. destruct (OutUHex_digit d n Hn) as (c & E & Hc & Hv & Hz).
    exists [c]. split; [done|].
    split; [apply List.Forall_cons; [done | constructor]|].
    split; [unfold Serial.hexadecimal; cbn [foldl]; lia|].
    split; [simpl; lia | done]. }
  induction depth as [|depth IH]; intros n Hn.
  - change (16 ^ Z.of_nat 1) with 16 in Hn. by apply Hone.
  - destruct (Z.lt_ge_cases n 16) as [Hsmall|Hbig].
    + destruct (Hone (S depth) n) as (digits & E & Hdg & Hv & Hl & Hz); [lia|].
      exists digits. split; [done|]. split; [done|]. split; [done|].
      split; [lia | done].
    + remember (S depth) as d eqn:Hd.
      cbn [Serial.OutUHex]. rewrite Z.geb_leb.
      destruct (Z.leb_spec 16 n); [|lia].
      assert (0 <= n `div` 16 < 16 ^ Z.of_nat d) as Hq.
      { rewrite Nat2Z.inj_succ, Z.pow_succ_r in Hn by lia.
        split; [apply Z.div_pos; lia|].
        apply Z.div_lt_upper_bound; lia. }
      destruct (IH (n `div` 16) Hq) as (front & E & Hdg & Hv & Hl & Hz).
      assert (0 <= n `mod` 16 < 16) as Hm by (apply Z.mod_pos_bound; lia).
      subst d.
      destruct (OutUHex_digit depth (n `mod` 16) Hm) as (c & Ec & Hc & Hcv & _).
      rewrite E, Ec. cbn [mbind option_bind].
      eexists. split; [reflexivity|]. split; [|split; [|split]].
      * apply Forall_app. split; [done|].
        apply List.Forall_cons; [done | constructor].
      * rewrite hexadecimal_app, Hv. cbn [foldl]. rewrite Hcv.
        Z.div_mod_to_equations. lia.
      * rewrite length_app. simpl. lia.
      * intros Hhd. destruct front as [|c0 front]; [simpl in Hl; lia|].
        cbn [app hd] in Hhd. cbn [hd] in Hz. specialize (Hz Hhd).
        Z.div_mod_to_equations. lia.
Qed.

(** X28.  Hexadecimal output and input over the UART agree as the
    decimal ones do: [EUSCI_A0_UART_OutUHex] prints any 32-bit number as
    one to eight hexadecimal digits, letters in upper case and no
    leading zero, with a recursion at most eight calls deep, and
    [UART0_InUHex] on such a string and a carriage return echoes it and
    returns the number it stands for modulo 2^32. *)
Theorem X28_hexadecimal_round_trip (n : Z) (digits rest : list Z) :
  (Forall Serial.is_hex_digit digits ->
   Serial.UART0_InUHex (digits ++ Serial.CR :: rest) =
     Some (uint32 (Serial.hexadecimal digits), digits, rest)) /\
  (0 <= n < 2 ^ 32 ->
   exists printed,
     Serial.OutUHex 8 n = Some printed /\
     Forall Serial.is_hex_digit printed /\ (1 <= length printed <= 8)%nat /\
     (hd 48 printed = 48 -> n = 0) /\
     Serial.UART0_InUHex (printed ++ Serial.CR :: rest) =
       Some (n, printed, rest)).
Proof.
  assert (forall ds, Forall Serial.is_hex_digit ds ->
            Serial.UART0_InUHex (ds ++ Serial.CR :: rest) =
            Some (uint32 (Serial.hexadecimal ds), ds, rest)) as Hin.
  { intros ds Hds. exact (InUHex_loop_digits rest ds 0 0 [] Hds). }
  split; [apply Hin|].
  intros Hn.
  destruct (OutUHex_digits 7 n) as (printed & E & Hd & Hv & Hl & Hz);
    [change (16 ^ Z.of_nat 8) with 4294967296; lia|].
  exists printed. rewrite (Hin printed Hd), Hv, uint32_small by lia. done.
Qed.

Lemma X28_hexadecimal_round_trip_witness :
  Serial.UART0_InUHex ([49; 70] ++ Serial.CR :: [65]) =
    Some (31, [49; 70], [65]) /\
  (exists printed,
     Serial.OutUHex 8 48879 = Some printed /\
     Serial.UART0_InUHex (printed ++ Serial.CR :: [65]) =
       Some (48879, printed, [65])).
Proof.
  destruct (X28_hexadecimal_round_trip 48879 [49; 70] [65]) as (H1 & H2).
  split.
  - apply H1. repeat apply List.Forall_cons; try apply List.Forall_nil;
      unfold Serial.is_hex_digit; lia.
  - destruct H2 as (printed & E & _ & _ & _ & Hback); [lia|].
    exists printed. split; [exact E | exact Hback].
Defined.
